(** * SickGear: cyclic scheduler and provider cache

    A shallow embedding of [sickgear/scheduler.py] (class [Scheduler]) and
    [sickgear/tvcache.py] (class [TVCache]), with the properties of the
    design notes stated over it.

    Conventions.  A Python call that may raise is a value of [result];
    attributes that are probed with [getattr]/[hasattr] are values of
    [attr].  Collaborators that live outside the two files (the provider,
    the name parser, the show list, the database driver) are fields of an
    environment record: every theorem holds for all of them.  Where the
    source has an [except] clause the collaborator may raise; the other
    collaborator calls, and the reads of the store, are taken to return.
    The scheduler counts time in microseconds, the cache in seconds. *)

From Stdlib Require Import ZArith Lia List Bool Ascii String.
From Stdlib Require Import DecimalString DecimalPos DecimalZ.
From Stdlib Require Import Sorted Permutation.
From stdpp Require Import base option list gmap strings.

Local Open Scope string_scope.
Local Open Scope list_scope.
Local Open Scope Z_scope.

(* ===================================================================== *)
(** ** Python values shared by the two classes                            *)
(* ===================================================================== *)

Module Py.

(** The exception classes that the two files name or can provoke. *)
Inductive exn : Type :=
| AuthException
| InvalidNameException
| InvalidShowException
| MultipleShowObjectsException
| AttributeError
| TypeError
| KeyError
| IndexError
| ValueError
| DatabaseError
| RuntimeError.

(** Outcome of a call: a returned value or a raised exception. *)
Inductive result (A : Type) : Type :=
| Ok (a : A)
| Raise (e : exn).
Arguments Ok {A} a.
Arguments Raise {A} e.

(** An attribute of a duck-typed object: missing, a bound method (whose
    call returns [ret]), or a plain data value. *)
Inductive attr (A : Type) : Type :=
| Absent
| Method (ret : A)
| Value (v : A).
Arguments Absent {A}.
Arguments Method {A} ret.
Arguments Value {A} v.

(** [hasattr(obj, name)] *)
Definition hasattr {A} (a : attr A) : bool :=
  match a with Absent => false | _ => true end.

(** Truth value of [getattr(obj, name, default)] for a boolean attribute:
    a method object is always true, it is not called. *)
Definition getattr_truthy (a : attr bool) (default : bool) : bool :=
  match a with
  | Absent => default
  | Method _ => true
  | Value v => v
  end.

(** [obj.name()] on an attribute known to be present. *)
Definition call_attr {A} (a : attr A) : result A :=
  match a with
  | Absent => Raise AttributeError
  | Method r => Ok r
  | Value _ => Raise TypeError
  end.

End Py.

(* ===================================================================== *)
(** ** scheduler.py                                                       *)
(* ===================================================================== *)

Module Sched.
Import Py.

(** [datetime.datetime] and [datetime.timedelta] have microsecond
    resolution: both are counts of microseconds (a naive datetime counts
    from the start of day 0 of the local calendar). *)
Definition datetime := Z.
Definition timedelta := Z.

Definition minutes (n : Z) : timedelta := n * 60 * 1000000.
Definition hours (n : Z) : timedelta := n * 3600 * 1000000.

(** [timedelta.seconds]: the seconds field of the normalised triple
    (days, seconds, microseconds); whole days are not part of it. *)
Definition td_seconds (td : timedelta) : Z := (td / 1000000) mod 86400.

(** [datetime.time().hour] *)
Definition dt_hour (dt : datetime) : Z := (dt / 3600000000) mod 24.

(** [datetime.time]: the anchor given as [start_time]. *)
Record time_of_day : Type := { hour : Z; minute : Z }.

(** What the loop can observe of the action object during one pass. *)
Record Action : Type := {
  is_enabled : attr bool;        (* attribute [is_enabled] *)
  prevent_run : option bool;     (* attribute [prevent_run], when present *)
  amActive : bool;
  load_queue : attr (result unit);
  run : result unit              (* what [action.run()] does when called *)
}.

Record Scheduler : Type := {
  last_run : datetime;
  cycle_time : timedelta;
  start_time : option time_of_day;
  prevent_cycle_run : option (result bool);
  silent : bool;
  force : bool;
  _unpause : bool;            (* threading.Event [_unpause] *)
  _stopper : bool             (* threading.Event [_stopper] *)
}.

Definition set_last_run (s : Scheduler) (t : datetime) : Scheduler :=
  {| last_run := t; cycle_time := cycle_time s; start_time := start_time s;
     prevent_cycle_run := prevent_cycle_run s; silent := silent s;
     force := force s; _unpause := _unpause s;
     _stopper := _stopper s |}.

Definition set_force (s : Scheduler) (b : bool) : Scheduler :=
  {| last_run := last_run s; cycle_time := cycle_time s;
     start_time := start_time s; prevent_cycle_run := prevent_cycle_run s;
     silent := silent s; force := b; _unpause := _unpause s;
     _stopper := _stopper s |}.

Definition set_silent (s : Scheduler) (b : bool) : Scheduler :=
  {| last_run := last_run s; cycle_time := cycle_time s;
     start_time := start_time s; prevent_cycle_run := prevent_cycle_run s;
     silent := b; force := force s; _unpause := _unpause s;
     _stopper := _stopper s |}.

Definition set_unpause (s : Scheduler) (b : bool) : Scheduler :=
  {| last_run := last_run s; cycle_time := cycle_time s;
     start_time := start_time s; prevent_cycle_run := prevent_cycle_run s;
     silent := silent s; force := force s; _unpause := b;
     _stopper := _stopper s |}.

Definition set_stopper (s : Scheduler) (b : bool) : Scheduler :=
  {| last_run := last_run s; cycle_time := cycle_time s;
     start_time := start_time s; prevent_cycle_run := prevent_cycle_run s;
     silent := silent s; force := force s; _unpause := _unpause s;
     _stopper := b |}.

(** [Scheduler.__init__] *)
Definition init (now : datetime) (cycle run_delay : timedelta)
    (start : option time_of_day) (is_silent : bool)
    (prevent : option (result bool)) (paused : bool) : Scheduler :=
  {| last_run := now + run_delay - cycle; cycle_time := cycle;
     start_time := start; prevent_cycle_run := prevent; silent := is_silent;
     force := false; _unpause := negb paused; _stopper := false |}.

Definition pause (s : Scheduler) : Scheduler := set_unpause s false.
Definition unpause (s : Scheduler) : Scheduler := set_unpause s true.
Definition stopit (s : Scheduler) : Scheduler := unpause (set_stopper s true).

(** [set_paused_state]: the one place where [is_enabled] is called. *)
Definition set_paused_state (s : Scheduler) (a : Action) : result Scheduler :=
  if hasattr (is_enabled a) then
    match call_attr (is_enabled a) with
    | Raise e => Raise e
    | Ok enabled =>
        let s1 := set_silent s (negb enabled) in
        Ok (if silent s1 then pause s1 else unpause s1)
    end
  else Ok s.

Definition time_left (s : Scheduler) (now : datetime) : timedelta :=
  cycle_time s - (now - last_run s).

Definition force_run (s : Scheduler) (a : Action) : Scheduler * bool :=
  if negb (amActive a) then (set_force s true, true) else (s, false).

(** Observable effects of a loop pass, in program order. *)
Inductive event : Type :=
| EvLoadQueue
| EvSetLastRun (t : datetime)
| EvWarnSkip
| EvDebugStart
| EvActionRun
| EvLogError (e : exn)
| EvSleep (n : Z).

(** How a pass ends: it falls through to the next loop test, or an
    exception leaves [run] (the outer [try] has only a [finally]). *)
Inductive ending : Type :=
| Normal
| Propagated (e : exn).

(** Lines 96-106: the interval and start-time test. *)
Definition interval_check (s : Scheduler) (current_time : datetime)
  : Scheduler * bool * list event :=
  if (cycle_time s <=? current_time - last_run s) then
    match start_time s with
    | Some st =>
        let hour_diff := dt_hour current_time - hour st in
        if negb (hour_diff <? 0) && (hour_diff <? td_seconds (cycle_time s) / 3600)
        then (s, true, [])
        else (set_last_run s current_time, false, [EvSetLastRun current_time])
    | None => (s, true, [])
    end
  else (s, false, []).

(** Lines 111-112: the condition guarded by [should_run and (...)]. *)
Definition prevented (s : Scheduler) (a : Action) : result bool :=
  match prevent_cycle_run s with
  | Some (Raise e) => Raise e
  | Some (Ok true) => Ok true
  | _ => Ok (default false (prevent_run a))
  end.

(** Lines 92-116: the decision, up to the final value of [should_run]. *)
Definition decide_run (s : Scheduler) (a : Action) (current_time : datetime)
  : Scheduler * result bool * list event :=
  let '(s1, should_run, tr1) := interval_check s current_time in
  let should_run := if force s1 then true else should_run in
  if should_run then
    match prevented s1 a with
    | Raise e => (s1, Raise e, tr1)
    | Ok true =>
        (set_last_run s1 current_time, Ok false,
         tr1 ++ [EvWarnSkip; EvSetLastRun current_time])
    | Ok false => (s1, Ok true, tr1)
    end
  else (s1, Ok false, tr1).

(** Lines 118-128: the guarded call of the action. *)
Definition execute (s : Scheduler) (a : Action) (current_time : datetime)
  : Scheduler * list event :=
  (set_last_run s current_time,
   [EvSetLastRun current_time]
     ++ (if silent s then [] else [EvDebugStart])
     ++ [EvActionRun]
     ++ match run a with Ok _ => [] | Raise e => [EvLogError e; EvLogError e] end).

(** Lines 130-132: the [finally] clause. *)
Definition clear_force (s : Scheduler) : Scheduler :=
  if force s then set_force s false else s.

(** Lines 90-137: one pass of the loop body. *)
Definition run_pass (s : Scheduler) (a : Action) (current_time : datetime)
  : Scheduler * list event * ending :=
  if getattr_truthy (is_enabled a) true then
    match decide_run s a current_time with
    | (s1, Raise e, tr) => (clear_force s1, tr, Propagated e)
    | (s1, Ok false, tr) => (clear_force s1, tr ++ [EvSleep 1], Normal)
    | (s1, Ok true, tr) =>
        let '(s2, tr2) := execute s1 a current_time in
        (clear_force s2, tr ++ tr2 ++ [EvSleep 1], Normal)
    end
  else (s, [EvSleep 30; EvSleep 1], Normal).

(** What the environment supplies at one loop test: calls made by other
    threads since the previous pass, the clock, and the action's state. *)
Inductive call : Type := CallPause | CallUnpause | CallStopit | CallForceRun.

Record Tick : Type := {
  tk_calls : list call;
  tk_now : datetime;
  tk_action : Action
}.

Definition apply_call (a : Action) (s : Scheduler) (c : call) : Scheduler :=
  match c with
  | CallPause => pause s
  | CallUnpause => unpause s
  | CallStopit => stopit s
  | CallForceRun => fst (force_run s a)
  end.

(** How far the thread got on a finite schedule of ticks. *)
Inductive thread_state : Type :=
| Alive          (* ticks exhausted, the loop is still turning *)
| Waiting        (* blocked in [_unpause.wait()] *)
| Exited         (* stop observed, both events cleared *)
| Died (e : exn) (* an exception left [run] *).

(** Lines 88-141: the loop. *)
Fixpoint run_loop (ticks : list Tick) (s : Scheduler)
  : Scheduler * list event * thread_state :=
  match ticks with
  | [] => (s, [], Alive)
  | tk :: rest =>
      let s0 := fold_left (apply_call (tk_action tk)) (tk_calls tk) s in
      if negb (_unpause s0) then (s0, [], Waiting)
      else if _stopper s0 then (set_unpause (set_stopper s0 false) false, [], Exited)
      else
        match run_pass s0 (tk_action tk) (tk_now tk) with
        | (s1, tr, Propagated e) => (s1, tr, Died e)
        | (s1, tr, Normal) =>
            let '(s2, tr2, st) := run_loop rest s1 in (s2, tr ++ tr2, st)
        end
  end.

(** Lines 77-141: [run]. *)
Definition run_thread (ticks : list Tick) (a0 : Action) (s : Scheduler)
  : Scheduler * list event * thread_state :=
  match set_paused_state s a0 with
  | Raise e => (s, [], Died e)
  | Ok s1 =>
      (* the saved queue is reloaded, any exception is discarded *)
      let tr0 := match load_queue a0 with Method _ => [EvLoadQueue] | _ => [] end in
      let '(s2, tr, st) := run_loop ticks s1 in (s2, tr0 ++ tr, st)
  end.

End Sched.

(* ===================================================================== *)
(** ** tvcache.py                                                         *)
(* ===================================================================== *)

Module Cache.
Import Py.

(** *** Text *)

(** [str.replace] for a one-character pattern, as in [title.replace(" ", ".")]. *)
Fixpoint replace_char (old new : ascii) (s : string) : string :=
  match s with
  | EmptyString => EmptyString
  | String c r =>
      String (if Ascii.eqb c old then new else c) (replace_char old new r)
  end.

Fixpoint starts_with (p s : string) : bool :=
  match p, s with
  | EmptyString, _ => true
  | String a p', String b s' => Ascii.eqb a b && starts_with p' s'
  | String _ _, EmptyString => false
  end.

(** [str.replace] for a non-empty pattern: occurrences are replaced from
    the left and do not overlap; [skip] counts the characters of a matched
    occurrence that are still to be dropped. *)
Fixpoint replace_from (skip : nat) (old new s : string) : string :=
  match s with
  | EmptyString => EmptyString
  | String c r =>
      match skip with
      | S k => replace_from k old new r
      | O =>
          if starts_with old s
          then (new ++ replace_from (String.length old - 1) old new r)%string
          else String c (replace_from 0 old new r)
      end
  end.

Definition str_replace (old new s : string) : string := replace_from 0 old new s.

(** [needle in s], also the meaning of SQL [LIKE '%needle%'] for a needle
    without letters and without wildcard characters. *)
Fixpoint contains (needle s : string) : bool :=
  starts_with needle s ||
  match s with
  | EmptyString => false
  | String _ r => contains needle r
  end.

(** [sep.join(parts)] *)
Fixpoint join (sep : string) (parts : list string) : string :=
  match parts with
  | [] => EmptyString
  | [p] => p
  | p :: rest => (p ++ sep ++ join sep rest)%string
  end.

(** [s.split(sep)] for a one-character separator. *)
Fixpoint split (sep : ascii) (s : string) : list string :=
  match s with
  | EmptyString => [EmptyString]
  | String c r =>
      if Ascii.eqb c sep then EmptyString :: split sep r
      else match split sep r with
           | [] => [String c EmptyString]
           | w :: ws => String c w :: ws
           end
  end.

(** [str(n)] for an int. *)
Definition str (n : Z) : string := NilZero.string_of_int (Z.to_int n).

(** [int(s)] for a str: an optional minus sign and decimal digits.  (Python
    also accepts blanks around the number, a plus sign and underscores
    between digits; the cache never writes such text.) *)
Definition int (s : string) : result Z :=
  match NilZero.int_of_string s with
  | Some d => Ok (Z.of_int d)
  | None => Raise ValueError
  end.

(** Truth value of a str-or-None. *)
Definition truthy_str (o : option string) : bool :=
  match o with
  | Some (String _ _) => true
  | _ => false
  end.

(** *** Objects *)

(** A show of the user's list ([TVShow]). *)
Record Show : Type := {
  tvid : Z;
  prodid : Z;
  show_name : string;
  is_anime : bool
}.

(** A wanted unit ([TVEpisode]).  Two records are equal exactly when they
    stand for the same Python object. *)
Record TVEpisode : Type := {
  ep_show_obj : Show;
  ep_season : Z;
  ep_episode : Z;
  wanted_quality : list Z
}.

(** What the name parser returns ([ParseResult]). *)
Record ParseResult : Type := {
  series_name : option string;
  season_number : option Z;
  episode_numbers : list Z;
  pr_quality : Z;
  pr_release_group : option string;
  pr_version : option Z;
  pr_show_obj : Show
}.

(** A row of table [provider_cache]; also the parameter list of the
    [INSERT OR IGNORE] statement that [add_cache_entry] returns. *)
Record CacheRow : Type := {
  provider : string;
  name : string;
  season : Z;
  episodes : string;
  indexerid : Z;
  url : string;
  time : Z;
  quality : Z;
  release_group : option string;
  version : option Z;
  indexer : Z
}.

(** A [SearchResult] as [find_needed_episodes] leaves it. *)
Record SearchResult : Type := {
  sr_ep_obj_list : list TVEpisode;
  sr_url : string;
  sr_show_obj : option Show;
  sr_name : string;
  sr_quality : Z;
  sr_release_group : option string;
  sr_version : option Z;
  sr_content : option string;
  sr_is_repack : bool;
  sr_properlevel : Z
}.

#[global] Instance Show_eq_dec : EqDecision Show.
Proof. solve_decision. Defined.
#[global] Instance TVEpisode_eq_dec : EqDecision TVEpisode.
Proof. solve_decision. Defined.
#[global] Instance CacheRow_eq_dec : EqDecision CacheRow.
Proof. solve_decision. Defined.

(** A raw item of a provider's feed is opaque to the cache. *)
Definition Item := nat.

(** *** The store *)

(** Modelled from the spec: the persisted schema of section 6.  The two
    timestamp tables hold one row per source; the entry table is a list of
    rows in insertion order.  ([db.DBConnection] and the schema of
    [cache.db] are not part of the two files.) *)
Record Database : Type := {
  provider_cache : list CacheRow;
  lastUpdate : gmap string Z;
  lastSearch : gmap string Z
}.

(** A statement that changes the store, as it is sent to the driver. *)
Inductive write : Type :=
| WDelete (pid : string)
| WInsert (r : CacheRow)
| WUpsertLastUpdate (pid : string) (t : Z)
| WUpsertLastSearch (pid : string) (t : Z).

(** The world a cache method runs in: the store, how many times the
    system clock has been read, and the writes sent so far. *)
Record World : Type := {
  db : Database;
  reads : nat;
  log : list write
}.

(** The collaborators of one [TVCache] object. *)
Record Env : Type := {
  (* the system clock: epoch seconds at the i-th reading, and the local
     calendar ([datetime.fromtimestamp], [time.mktime]) in seconds *)
  clock : nat -> Z;
  fromtimestamp : Z -> Z;
  mktime : Z -> Z;
  (* the provider *)
  providerID : string;
  anime_only : bool;
  update_iv : Z;
  check_auth : result unit;
  _cache_data : result (option (list Item));
  _title_and_url : Item -> option string * option string;
  get_result : list TVEpisode -> string -> option SearchResult;
  get_id : attr string;
  (* helpers and the show list *)
  find_show_by_id_multi : string -> result (option Show);
  find_show_by_id : Z -> Z -> option Show;
  get_show : string -> option Show;
  pass_wordlist_checks : string -> Show -> bool;
  want_episode : Show -> Z -> Z -> Z -> bool -> bool;
  get_episode : Show -> Z -> Z -> TVEpisode;
  (* the name parser and the quality table *)
  parse : option Show -> string -> result (option ParseResult);
  post_parse : option Show -> string -> string -> result ParseResult;
  np_parse : Show -> string -> result (option string * option Z * bool);
  get_proper_level : option string -> option Z -> bool -> bool * Z;
  (* the driver: whether a batch of inserts fails, and after how many
     statements *)
  mass_action_fault : list CacheRow -> option nat
}.

(** *** A state and exception monad over [World] *)

Definition M (A : Type) : Type := World -> result A * World.

Definition ret {A} (a : A) : M A := fun w => (Ok a, w).
Definition raise {A} (e : exn) : M A := fun w => (Raise e, w).
Definition bind {A B} (m : M A) (k : A -> M B) : M B :=
  fun w => match m w with
           | (Ok a, w1) => k a w1
           | (Raise e, w1) => (Raise e, w1)
           end.
(** [try: m except (BaseException, Exception): h] *)
Definition try_except {A} (m : M A) (h : exn -> M A) : M A :=
  fun w => match m w with
           | (Ok a, w1) => (Ok a, w1)
           | (Raise e, w1) => h e w1
           end.
Definition lift {A} (r : result A) : M A := fun w => (r, w).

Declare Scope cache_scope.
Delimit Scope cache_scope with cache.
Notation "'do' x <- m 'in' k" := (bind m (fun x => k))
  (at level 10, x name, m at level 100, k at level 200) : cache_scope.
Notation "'exec' m 'in' k" := (bind m (fun _ => k))
  (at level 10, m at level 100, k at level 200) : cache_scope.
Local Open Scope cache_scope.

Definition set_db (w : World) (d : Database) : World :=
  {| db := d; reads := reads w; log := log w |}.

Definition sent (w : World) (x : write) : World :=
  {| db := db w; reads := reads w; log := log w ++ [x] |}.

Definition tick (w : World) : World :=
  {| db := db w; reads := S (reads w); log := log w |}.

(** [SGDatetime.timestamp_near()]: the clock as epoch seconds. *)
Definition timestamp_near (E : Env) : M Z :=
  fun w => (Ok (clock E (reads w)), tick w).

(** [datetime.datetime.now()]: the clock as a local calendar time. *)
Definition datetime_now (E : Env) : M Z :=
  fun w => (Ok (fromtimestamp E (clock E (reads w))), tick w).

(** *** The driver *)

(** Modelled from the spec: [select] on a timestamp table (section 6, one
    row per source); [db.DBConnection.select] is not part of the file. *)
Definition select_time (table : Database -> gmap string Z) (pid : string)
  : M (option Z) :=
  fun w => (Ok (table (db w) !! pid), w).

(** Modelled from the spec: [upsert] on the refresh table. *)
Definition upsert_lastUpdate (pid : string) (t : Z) : M unit :=
  fun w =>
    (Ok tt,
     sent (set_db w {| provider_cache := provider_cache (db w);
                       lastUpdate := <[pid := t]> (lastUpdate (db w));
                       lastSearch := lastSearch (db w) |})
          (WUpsertLastUpdate pid t)).

(** Modelled from the spec: [upsert] on the consumption table. *)
Definition upsert_lastSearch (pid : string) (t : Z) : M unit :=
  fun w =>
    (Ok tt,
     sent (set_db w {| provider_cache := provider_cache (db w);
                       lastUpdate := lastUpdate (db w);
                       lastSearch := <[pid := t]> (lastSearch (db w)) |})
          (WUpsertLastSearch pid t)).

(** [DELETE FROM provider_cache WHERE provider = ?] *)
Definition delete_rows (pid : string) (rows : list CacheRow) : list CacheRow :=
  List.filter (fun r => negb (String.eqb (provider r) pid)) rows.

Definition delete_provider (pid : string) : M unit :=
  fun w =>
    (Ok tt,
     sent (set_db w {| provider_cache := delete_rows pid (provider_cache (db w));
                       lastUpdate := lastUpdate (db w);
                       lastSearch := lastSearch (db w) |})
          (WDelete pid)).

(** Modelled from the spec: the logical key of an entry (section 6):
    source, name, season, episodes, quality, release group, version and
    the two owner ids. *)
Definition logical_key (r : CacheRow) :=
  (provider r, name r, season r, episodes r, quality r, release_group r,
   version r, indexerid r, indexer r).

Definition same_entry (a b : CacheRow) : bool :=
  bool_decide (logical_key a = logical_key b).

(** Modelled from the spec: [INSERT OR IGNORE] is insert-if-absent on the
    logical key; a present row is never changed. *)
Definition insert_or_ignore (r : CacheRow) (rows : list CacheRow) : list CacheRow :=
  if existsb (same_entry r) rows then rows else rows ++ [r].

Definition apply_insert (w : World) (r : CacheRow) : World :=
  sent (set_db w {| provider_cache := insert_or_ignore r (provider_cache (db w));
                    lastUpdate := lastUpdate (db w);
                    lastSearch := lastSearch (db w) |})
       (WInsert r).

(** Modelled from the spec: [mass_action] on a batch of inserts.  When the
    driver fails, the statements before the failing one may have taken
    effect (none of them after a rollback). *)
Definition mass_action_insert (E : Env) (cl : list CacheRow) : M unit :=
  fun w =>
    match mass_action_fault E cl with
    | None => (Ok tt, fold_left apply_insert cl w)
    | Some k => (Raise DatabaseError, fold_left apply_insert (firstn k cl) w)
    end.

(** *** Timestamps *)

(** [_get_last_update] (property [last_update]) *)
Definition _get_last_update (E : Env) : M Z :=
  do sql_result <- select_time lastUpdate (providerID E) in
  match sql_result with
  | Some t =>
      do near <- timestamp_near E in
      ret (fromtimestamp E (if near <? t then 0 else t))
  | None => ret (fromtimestamp E 0)
  end.

(** [_get_last_search] (property [last_search]) *)
Definition _get_last_search (E : Env) : M Z :=
  do sql_result <- select_time lastSearch (providerID E) in
  match sql_result with
  | Some t =>
      do near <- timestamp_near E in
      ret (fromtimestamp E (if near <? t then 0 else t))
  | None => ret (fromtimestamp E 0)
  end.

(** [set_last_update] *)
Definition set_last_update (E : Env) (to_date : option Z) : M unit :=
  do d <- match to_date with Some d => ret d | None => datetime_now E end in
  upsert_lastUpdate (providerID E) (mktime E d).

(** [_set_last_search] *)
Definition _set_last_search (E : Env) (to_date : option Z) : M unit :=
  do d <- match to_date with Some d => ret d | None => datetime_now E end in
  upsert_lastSearch (providerID E) (mktime E d).

(** [should_update]; [update_iv] is in minutes.  ([now()] also carries
    microseconds; [last_update] and the interval are whole seconds, so the
    comparison of whole seconds is the same test.) *)
Definition should_update (E : Env) : M bool :=
  do now <- datetime_now E in
  do last_update <- _get_last_update E in
  ret (update_iv E * 60 <=? now - last_update).

(** [should_clear_cache] *)
Definition should_clear_cache (E : Env) : M bool :=
  do last_search <- _get_last_search E in
  do last_update <- _get_last_update E in
  ret (last_update <=? last_search).

(** [clear_cache] *)
Definition clear_cache (E : Env) : M unit :=
  do b <- should_clear_cache E in
  if b then delete_provider (providerID E) else ret tt.

(** *** Ingestion *)

(** [_translate_title] *)
Definition _translate_title (title : string) : string :=
  replace_char " " "." title.

(** [_translate_link_url] *)
Definition _translate_link_url (u : string) : string :=
  str_replace "&amp;" "&" u.

(** Lines 264-292 of [add_cache_entry]: obtain a parse result for [name].
    [Ok None] stands for the bare [return] statements. *)
Definition parse_name (E : Env) (nm : string) (tvid_prodid : option string)
  : result (option ParseResult) :=
  let found :=
    if truthy_str tvid_prodid
    then find_show_by_id_multi E (default EmptyString tvid_prodid)
    else Ok None in
  match found with
  | Raise MultipleShowObjectsException => Ok None
  | Raise e => Raise e
  | Ok show_obj =>
      match parse E show_obj nm with
      | Raise InvalidNameException => Ok None
      | Raise InvalidShowException => Ok None
      | Raise e => Raise e
      | Ok None => Ok None
      | Ok (Some pr) =>
          if negb (truthy_str (series_name pr)) then Ok None
          else if bool_decide (show_obj = None) && is_anime (pr_show_obj pr) then
            let t_show_obj := get_show E (show_name (pr_show_obj pr)) in
            (* try: ... self.get_id() ... except (BaseException, Exception): return *)
            match call_attr (get_id E) with
            | Raise _ => Ok None
            | Ok rg =>
                match post_parse E t_show_obj nm rg with
                | Raise _ => Ok None
                | Ok pr2 => Ok (Some pr2)
                end
            end
          else Ok (Some pr)
      end
  end.

(** Line 295: [parse_result.season_number if parse_result.season_number else 1] *)
Definition season_or_1 (pr : ParseResult) : Z :=
  match season_number pr with
  | Some n => if n =? 0 then 1 else n
  | None => 1
  end.

(** Line 300: ['|%s|' % '|'.join(map(str, episode_numbers))] *)
Definition episode_text (eps : list Z) : string :=
  ("|" ++ join "|" (map str eps) ++ "|")%string.

Definition nonempty {A} (l : list A) : bool :=
  match l with [] => false | _ => true end.

(** Lines 295-326 of [add_cache_entry]: the statement for a parse result. *)
Definition cache_statement (E : Env) (nm u : string) (pr : ParseResult)
  : M (option CacheRow) :=
  let season_number := season_or_1 pr in
  let episode_numbers := episode_numbers pr in
  if negb (season_number =? 0) && nonempty episode_numbers then
    do cur_timestamp <- timestamp_near E in
    ret (Some {| provider := providerID E; name := nm;
                 season := season_number;
                 episodes := episode_text episode_numbers;
                 indexerid := prodid (pr_show_obj pr);
                 url := u; time := cur_timestamp;
                 quality := pr_quality pr;
                 release_group := pr_release_group pr;
                 version := pr_version pr;
                 indexer := tvid (pr_show_obj pr) |})
  else ret None.

(** [add_cache_entry] *)
Definition add_cache_entry (E : Env) (nm u : string)
    (parse_result : option ParseResult) (tvid_prodid : option string)
  : M (option CacheRow) :=
  do resolved <- match parse_result with
                 | Some pr => ret (Some pr)
                 | None => lift (parse_name E nm tvid_prodid)
                 end in
  match resolved with
  | Some pr => cache_statement E nm u pr
  | None => ret None
  end.

(** [parse_item] *)
Definition parse_item (E : Env) (title u : option string) : M (option CacheRow) :=
  if truthy_str title && truthy_str u then
    add_cache_entry E (_translate_title (default EmptyString title))
                    (_translate_link_url (default EmptyString u)) None None
  else ret None.

(** Lines 104-109 of [update_cache]: the loop over the fetched items. *)
Fixpoint parse_items (E : Env) (items : list Item) : M (list CacheRow) :=
  match items with
  | [] => ret []
  | item :: rest =>
      do ci <- parse_item E (fst (_title_and_url E item)) (snd (_title_and_url E item)) in
      do cl <- parse_items E rest in
      ret (match ci with Some r => r :: cl | None => cl end)
  end.

(** Lines 111-116 of [update_cache]: the guarded batch insert. *)
Definition save_items (E : Env) (cl : list CacheRow) : M unit :=
  if nonempty cl
  then try_except (mass_action_insert E cl) (fun _ => ret tt)
  else ret tt.

(** [data or []] *)
Definition items_of (data : option (list Item)) : list Item := default [] data.

(** Lines 97-119 of [update_cache]: the body under [if self.should_update()]. *)
Definition refresh (E : Env) : M unit :=
  do data <- lift (_cache_data E) in
  exec (if nonempty (items_of data) then clear_cache E else ret tt) in
  do cl <- parse_items E (items_of data) in
  exec save_items E cl in
  set_last_update E None.

(** What [update_cache] hands back: the list of line 94 or nothing. *)
Inductive update_ret : Type := ReturnedEmptyList | ReturnedNone.

(** [update_cache] *)
Definition update_cache (E : Env) : M update_ret :=
  match check_auth E with
  | Raise AuthException => ret ReturnedEmptyList
  | Raise e => raise e
  | Ok _ =>
      do due <- should_update E in
      if due then (exec refresh E in ret ReturnedNone) else ret ReturnedNone
  end.

(** *** Matching *)

(** The argument of [find_needed_episodes]: one episode object or a list. *)
Inductive ep_arg : Type :=
| One (ep_obj : TVEpisode)
| Many (ep_obj_list : list TVEpisode).

(** Lines 371-372: [if type(ep_obj_list) != list: ep_obj_list = [ep_obj_list]] *)
Definition as_list (a : ep_arg) : list TVEpisode :=
  match a with
  | One ep_obj => [ep_obj]
  | Many l => l
  end.

(** Lines 376-384: the [WHERE] clause bound to one episode object. *)
Definition selects (E : Env) (ep_obj : TVEpisode) (r : CacheRow) : bool :=
  String.eqb (provider r) (providerID E)
  && (indexer r =? tvid (ep_show_obj ep_obj))
  && (indexerid r =? prodid (ep_show_obj ep_obj))
  && (season r =? ep_season ep_obj)
  && contains ("|" ++ str (ep_episode ep_obj) ++ "|")%string (episodes r)
  && existsb (Z.eqb (quality r)) (wanted_quality ep_obj).

Definition query (E : Env) (rows : list CacheRow) (ep_obj : TVEpisode)
  : list CacheRow :=
  List.filter (selects E ep_obj) rows.

(** Lines 385-387: the batch of queries, results chained in query order. *)
Definition select_all (E : Env) (ep_obj_list : list TVEpisode) : M (list CacheRow) :=
  fun w => (Ok (concat (map (query E (provider_cache (db w))) ep_obj_list)), w).

(** Line 415: [cur_result['episodes'].split('|')[1]] *)
Definition first_field (text : string) : result string :=
  match split "|" text with
  | _ :: x :: _ => Ok x
  | _ => Raise IndexError
  end.

(** Lines 415-418: the first stored episode number; [Ok None] stands for
    [continue]. *)
Definition first_episode (text : string) : result (option Z) :=
  match first_field text with
  | Raise e => Raise e
  | Ok EmptyString => Ok None
  | Ok x =>
      match int x with
      | Raise e => Raise e
      | Ok n => Ok (Some n)
      end
  end.

(** Lines 441-458: the fields written on the provider's result object. *)
Definition annotate (E : Env) (show_obj : Show) (r : CacheRow)
    (res : SearchResult) : SearchResult :=
  let '(extra_info_no_name, ver, anime) :=
    match np_parse E show_obj (name r) with
    | Ok parsed => parsed
    | Raise _ => (None, Some (-1), false)
    end in
  let level := get_proper_level E extra_info_no_name ver anime in
  {| sr_ep_obj_list := sr_ep_obj_list res;
     sr_url := sr_url res;
     sr_show_obj := Some show_obj;
     sr_name := name r;
     sr_quality := quality r;
     sr_release_group := release_group r;
     sr_version := version r;
     sr_content := None;
     sr_is_repack := fst level;
     sr_properlevel := snd level |}.

(** Lines 396-458: the body of the loop over the selected rows.
    [Ok None] stands for [continue]. *)
Definition process_row (E : Env) (manual_search : bool) (cur_result : CacheRow)
  : result (option (TVEpisode * SearchResult)) :=
  match find_show_by_id E (indexer cur_result) (indexerid cur_result) with
  | None => Ok None
  | Some show_obj =>
      if negb (pass_wordlist_checks E (name cur_result) show_obj) then Ok None
      else if anime_only E && negb (is_anime show_obj) then Ok None
      else if season cur_result =? -1 then Ok None
      else
        match first_episode (episodes cur_result) with
        | Raise e => Raise e
        | Ok None => Ok None
        | Ok (Some ep) =>
            if negb (want_episode E show_obj (season cur_result) ep
                                  (quality cur_result) manual_search)
            then Ok None
            else
              let ep_obj := get_episode E show_obj (season cur_result) ep in
              match get_result E [ep_obj] (url cur_result) with
              | None => Ok None
              | Some res => Ok (Some (ep_obj, annotate E show_obj cur_result res))
              end
        end
  end.

(** The dict [needed_eps]: keys in insertion order. *)
Definition needed_map := list (TVEpisode * list SearchResult).

(** [needed_eps[ep_obj]] *)
Fixpoint dict_get (k : TVEpisode) (d : needed_map) : option (list SearchResult) :=
  match d with
  | [] => None
  | (k', vs) :: rest => if decide (k' = k) then Some vs else dict_get k rest
  end.

(** Lines 461-464: start a list under a new key or append to the old one. *)
Fixpoint dict_add (k : TVEpisode) (v : SearchResult) (d : needed_map) : needed_map :=
  match d with
  | [] => [(k, [v])]
  | (k', vs) :: rest =>
      if decide (k' = k) then (k', vs ++ [v]) :: rest
      else (k', vs) :: dict_add k v rest
  end.

(** Lines 394-464: the loop. *)
Fixpoint process_rows (E : Env) (manual_search : bool) (sql_result : list CacheRow)
    (needed_eps : needed_map) : result needed_map :=
  match sql_result with
  | [] => Ok needed_eps
  | cur_result :: rest =>
      match process_row E manual_search cur_result with
      | Raise e => Raise e
      | Ok None => process_rows E manual_search rest needed_eps
      | Ok (Some (ep_obj, res)) =>
          process_rows E manual_search rest (dict_add ep_obj res needed_eps)
      end
  end.

(** [find_needed_episodes] *)
Definition find_needed_episodes (E : Env) (ep_obj_list : ep_arg)
    (manual_search : bool) : M needed_map :=
  do sql_result <- select_all E (as_list ep_obj_list) in
  if negb (nonempty sql_result) then
    exec _set_last_search E None in ret []
  else
    do needed_eps <- lift (process_rows E manual_search sql_result []) in
    exec _set_last_search E None in
    ret needed_eps.

(** [search_cache] *)
Definition search_cache (E : Env) (ep : TVEpisode) (manual_search : bool)
  : M (list SearchResult) :=
  do needed_eps <- find_needed_episodes E (One ep) manual_search in
  if negb (length needed_eps =? 0)%nat then
    match dict_get ep needed_eps with
    | Some found => ret found
    | None => raise KeyError
    end
  else ret [].

(** *** Notions used in the statements *)

(** Computations that only read: they return, and leave the store and the
    list of writes as they were. *)
Definition reads_only {A} (m : M A) : Prop :=
  forall w, exists a w',
    m w = (Ok a, w') /\ db w' = db w /\ log w' = log w.

(** Computations that send nothing to the driver, whether they return or
    raise. *)
Definition no_write {A} (m : M A) : Prop :=
  forall w, db (snd (m w)) = db w /\ log (snd (m w)) = log w.

(** Computations after which every row that was in the entry table is
    still there, in place, whether they return or raise. *)
Definition keeps_rows {A} (m : M A) : Prop :=
  forall w, exists added,
    provider_cache (db (snd (m w))) = provider_cache (db w) ++ added.

(** The value that a stamp taken at the [i]-th clock reading stores:
    [int(time.mktime(datetime.now().timetuple()))]. *)
Definition stamp_at (E : Env) (i : nat) : Z :=
  mktime E (fromtimestamp E (clock E i)).

(** [w'] is the world right after [set_last_update()]: the last thing
    done was to read the clock and to upsert that time for the provider. *)
Definition refresh_stamped (E : Env) (w' : World) : Prop :=
  exists i sent_before,
    reads w' = S i /\
    lastUpdate (db w') !! providerID E = Some (stamp_at E i) /\
    log w' = sent_before ++ [WUpsertLastUpdate (providerID E) (stamp_at E i)].

(** No [except] clause of [add_cache_entry] is missed by what the
    collaborators raise for this item. *)
Definition item_parses (E : Env) (item : Item) : bool :=
  let title := fst (_title_and_url E item) in
  let u := snd (_title_and_url E item) in
  if truthy_str title && truthy_str u then
    match parse_name E (_translate_title (default EmptyString title)) None with
    | Ok _ => true
    | Raise _ => false
    end
  else true.

(** [c in s] for a character. *)
Fixpoint has_char (c : ascii) (s : string) : bool :=
  match s with
  | EmptyString => false
  | String a r => Ascii.eqb a c || has_char c r
  end.

(** The episode text of the row can be read back by lines 415-418. *)
Definition readable (r : CacheRow) : bool :=
  match first_episode (episodes r) with
  | Ok _ => true
  | Raise _ => false
  end.

(** The rows of a result set that pass every filter of the loop, each
    with the key it is filed under and the result built for it. *)
Fixpoint accepted (E : Env) (manual_search : bool) (sql_result : list CacheRow)
  : list (TVEpisode * SearchResult) :=
  match sql_result with
  | [] => []
  | r :: rest =>
      match process_row E manual_search r with
      | Ok (Some kv) => kv :: accepted E manual_search rest
      | _ => accepted E manual_search rest
      end
  end.

(** The key a row is filed under when it is accepted: the episode object
    that the owning show gives for the row's season and the first number
    of its episode text. *)
Definition row_key (E : Env) (r : CacheRow) : option TVEpisode :=
  match find_show_by_id E (indexer r) (indexerid r), first_episode (episodes r) with
  | Some show_obj, Ok (Some ep) => Some (get_episode E show_obj (season r) ep)
  | _, _ => None
  end.

(** The results filed under key [k]. *)
Definition filed_under (k : TVEpisode) (l : list (TVEpisode * SearchResult))
  : list SearchResult :=
  map snd (List.filter (fun kv => bool_decide (fst kv = k)) l).

End Cache.

(* ===================================================================== *)
(** ** Concrete objects used by the examples                              *)
(* ===================================================================== *)

Module SchedExamples.
Import Py Sched.

(** [subtitles.SubtitlesFinder]: [is_enabled] is a static method that
    returns the setting [USE_SUBTITLES]; there is no [prevent_run] and no
    [load_queue]. *)
Definition subtitles_finder (use_subtitles : bool) (outcome : result unit) : Action :=
  {| is_enabled := Method use_subtitles; prevent_run := None;
     amActive := false; load_queue := Absent; run := outcome |}.

(** An action without the optional attributes. *)
Definition plain_action (outcome : result unit) : Action :=
  {| is_enabled := Absent; prevent_run := None;
     amActive := false; load_queue := Absent; run := outcome |}.

(** An action that carries [is_enabled] as a plain false value. *)
Definition flagged_action : Action :=
  {| is_enabled := Value false; prevent_run := None;
     amActive := false; load_queue := Absent; run := Ok tt |}.

(** Day 10 of the local calendar at [h]:[m]. *)
Definition at_time (h m : Z) : datetime := hours (240 + h) + minutes m.

(** A scheduler with a four hour cycle anchored at 02:00, last run on
    day 9 at 20:00. *)
Definition anchored (forced : bool) : Scheduler :=
  {| last_run := hours (216 + 20); cycle_time := hours 4;
     start_time := Some {| hour := 2; minute := 0 |};
     prevent_cycle_run := None; silent := false; force := forced;
     _unpause := true; _stopper := false |}.

(** A scheduler with a ten minute cycle and no anchor, last run eleven
    minutes before 12:00 of day 10. *)
Definition ten_minutes : Scheduler :=
  {| last_run := at_time 11 49; cycle_time := minutes 10;
     start_time := None; prevent_cycle_run := None; silent := false;
     force := false; _unpause := true; _stopper := false |}.

End SchedExamples.

Module CacheExamples.
Import Py Cache.

Definition show1 : Show :=
  {| tvid := 1; prodid := 100; show_name := "Show Name"; is_anime := false |}.

(** The episode objects of [show1]; the user accepts quality 4. *)
Definition episode_of (sh : Show) (s e : Z) : TVEpisode :=
  {| ep_show_obj := sh; ep_season := s; ep_episode := e; wanted_quality := [4] |}.

(** Parse results: season 1 episode 2, season 1 episodes 2 and 3, and an
    absolute-numbered release without a season. *)
Definition parsed (sn : option Z) (eps : list Z) : ParseResult :=
  {| series_name := Some "Show Name"; season_number := sn;
     episode_numbers := eps; pr_quality := 4;
     pr_release_group := Some "GRP"; pr_version := Some (-1);
     pr_show_obj := show1 |}.

(** The parser of scenario C: it resolves the first title and rejects
    anything else. *)
Definition parser_c (nm : string) : result (option ParseResult) :=
  if String.eqb nm "Show.Name.S01E02.720p" then Ok (Some (parsed (Some 1) [2]))
  else if String.eqb nm "Show.Name.S01E02E03.720p" then Ok (Some (parsed (Some 1) [2; 3]))
  else if String.eqb nm "Show.Name.E05.720p" then Ok (Some (parsed None [5]))
  else Raise InvalidNameException.

Definition feed_c (i : Item) : option string * option string :=
  match i with
  | O => (Some "Show Name S01E02 720p", Some "u1")
  | _ => (Some "garbage", Some "u2")
  end.

Definition blank_result (eps : list TVEpisode) (u : string) : SearchResult :=
  {| sr_ep_obj_list := eps; sr_url := u; sr_show_obj := None;
     sr_name := ""; sr_quality := 0; sr_release_group := None;
     sr_version := None; sr_content := None; sr_is_repack := false;
     sr_properlevel := 0 |}.

(** A provider with a local calendar one hour ahead of the epoch clock;
    the clock starts at 1 000 000 and advances one second per reading. *)
Definition env_with (auth : result unit) (data : option (list Item))
    (fault : option nat) : Env :=
  {| clock := fun i => 1000000 + Z.of_nat i;
     fromtimestamp := fun t => t + 3600;
     mktime := fun t => t - 3600;
     providerID := "prov";
     anime_only := false;
     update_iv := 10;
     check_auth := auth;
     _cache_data := Ok data;
     _title_and_url := feed_c;
     get_result := fun eps u => Some (blank_result eps u);
     get_id := Absent;
     find_show_by_id_multi := fun _ => Ok None;
     find_show_by_id := fun t p => if (t =? 1) && (p =? 100) then Some show1 else None;
     get_show := fun _ => None;
     pass_wordlist_checks := fun _ _ => true;
     want_episode := fun _ _ _ _ _ => true;
     get_episode := episode_of;
     parse := fun _ nm => parser_c nm;
     post_parse := fun _ _ _ => Raise InvalidNameException;
     np_parse := fun _ _ => Ok (None, Some (-1), false);
     get_proper_level := fun _ _ _ => (false, 0);
     mass_action_fault := fun _ => fault |}.

Definition env0 : Env := env_with (Ok tt) (Some [0; 1]%nat) None.

(** A stored entry of "prov" for season 1 with the given episode set. *)
Definition stored (nm : string) (eps : list Z) : CacheRow :=
  {| provider := "prov"; name := nm; season := 1;
     episodes := episode_text eps; indexerid := 100; url := "u0";
     time := 900000; quality := 4; release_group := Some "GRP";
     version := Some (-1); indexer := 1 |}.

Definition world_with (rows : list CacheRow) (upd srch : option Z) : World :=
  {| db := {| provider_cache := rows;
              lastUpdate := match upd with Some t => {[ "prov" := t ]} | None => ∅ end;
              lastSearch := match srch with Some t => {[ "prov" := t ]} | None => ∅ end |};
     reads := 0; log := [] |}.

End CacheExamples.

Module CacheAux.
Import Py Cache.

(** *** Notions used in the further statements *)

(** An entry as line 300 and lines 316-326 build it for this provider. *)
Definition well_formed_entry (E : Env) (r : CacheRow) : Prop :=
  provider r = providerID E /\
  has_char " " (name r) = false /\
  season r <> 0 /\
  exists e es, episodes r = episode_text (e :: es).

(** What a method of this cache may change between [w] and [w']: rows of
    other providers, the table [lastSearch] and the [lastUpdate] entries of
    other providers stay; a row that is new is a well-formed entry. *)
Definition footprint (E : Env) (w w' : World) : Prop :=
  delete_rows (providerID E) (provider_cache (db w'))
    = delete_rows (providerID E) (provider_cache (db w)) /\
  lastSearch (db w') = lastSearch (db w) /\
  (forall p, p <> providerID E ->
             lastUpdate (db w') !! p = lastUpdate (db w) !! p) /\
  (forall r, In r (provider_cache (db w')) ->
             In r (provider_cache (db w)) \/ well_formed_entry E r).

Definition within_footprint {A} (E : Env) (m : M A) : Prop :=
  forall w, footprint E w (snd (m w)).

(** A text made of parts that are each closed by a bar. *)
Fixpoint segments (parts : list string) : string :=
  match parts with
  | [] => EmptyString
  | p :: rest => (p ++ String "|" (segments rest))%string
  end.

(** *** [list_propers] (lines 343-358) *)

(** SQLite's LIKE, left at its default, compares ASCII letters without
    regard to case. *)
Definition fold_case (c : ascii) : ascii :=
  let n := nat_of_ascii c in
  if (65 <=? n)%nat && (n <=? 90)%nat then ascii_of_nat (n + 32) else c.

Fixpoint fold_case_str (s : string) : string :=
  match s with
  | EmptyString => EmptyString
  | String c r => String (fold_case c) (fold_case_str r)
  end.

(** [name LIKE '%tag%'] for a tag without wildcard characters. *)
Definition like (tag text : string) : bool :=
  contains (fold_case_str tag) (fold_case_str text).

(** The WHERE clause as SQL reads it: AND binds tighter than OR, so the
    provider (and the date appended at line 356) restrict the third
    alternative only. *)
Definition propers_where (E : Env) (date : option Z) (r : CacheRow) : bool :=
  like ".PROPER." (name r)
  || like ".REPACK." (name r)
  || (like ".REAL." (name r)
      && String.eqb (provider r) (providerID E)
      && match date with
         | Some d => mktime E d <=? time r
         | None => true
         end).

(** [list_propers]; [date] is a local calendar time. *)
Definition list_propers (E : Env) (date : option Z) : M (list CacheRow) :=
  fun w =>
    (Ok (List.filter (fun x => negb (indexerid x =? 0))
           (List.filter (propers_where E date) (provider_cache (db w)))),
     w).

End CacheAux.

(* ===================================================================== *)
(** ** subtitles.py                                                       *)
(* ===================================================================== *)

Module Subtitles.
Import Py.

(** *** The service list (lines 30-69) *)

(** [x.lower()] on ASCII text. *)
Definition lower (x : string) : string := CacheAux.fold_case_str x.

(** One dict of the list that [sorted_service_list] returns. *)
Record Service : Type := {
  id : string;
  image : string;
  name : string;
  enabled : bool;
  api_based : bool;
  url : string
}.

(** The settings and what the subtitle library offers. *)
Record Config : Type := {
  SERVICES : list string;                  (* subliminal.core.SERVICES *)
  SUBTITLES_SERVICES_LIST : list string;
  SUBTITLES_SERVICES_ENABLED : list Z;
  service_api_based : string -> bool;      (* Service.api_based of the module *)
  service_site_url : string -> string      (* Service.site_url of the module *)
}.

(** A dict with str keys: assignment to a present key keeps its place. *)
Fixpoint dict_set (k v : string) (d : list (string * string)) : list (string * string) :=
  match d with
  | [] => [(k, v)]
  | (k', v') :: rest =>
      if String.eqb k' k then (k', v) :: rest else (k', v') :: dict_set k v rest
  end.

Fixpoint dict_lookup (k : string) (d : list (string * string)) : option string :=
  match d with
  | [] => None
  | (k', v) :: rest => if String.eqb k' k then Some v else dict_lookup k rest
  end.

(** Line 31: [dict([(x.lower(), x) for x in subliminal.core.SERVICES])] *)
Definition services_mapping (C : Config) : list (string * string) :=
  fold_left (fun d x => dict_set (lower x) x d) (SERVICES C) [].

Definition service_dict (C : Config) (cur_service nm : string) (on : bool) : Service :=
  {| id := cur_service; image := (cur_service ++ ".png")%string; name := nm;
     enabled := on; api_based := service_api_based C cur_service;
     url := service_site_url C cur_service |}.

(** Lines 36-49: the services of the priority list, in order; the flag of
    a service is read at the position of the service in the list. *)
Fixpoint configured (C : Config) (mapping : list (string * string))
    (cur_index : nat) (services : list string) : result (list Service) :=
  match services with
  | [] => Ok []
  | cur_service :: rest =>
      match dict_lookup cur_service mapping with
      | Some nm =>
          match nth_error (SUBTITLES_SERVICES_ENABLED C) cur_index with
          | None => Raise IndexError
          | Some flag =>
              match configured C mapping (S cur_index) rest with
              | Raise e => Raise e
              | Ok l => Ok (service_dict C cur_service nm (1 =? flag) :: l)
              end
          end
      | None => configured C mapping (S cur_index) rest
      end
  end.

(** Lines 52-63: the services that are missing from the list so far. *)
Definition add_missing (C : Config) (new_list : list Service) (kv : string * string)
  : list Service :=
  if existsb (String.eqb (fst kv)) (map id new_list) then new_list
  else new_list ++ [service_dict C (fst kv) (snd kv) false].

(** [sorted_service_list] *)
Definition sorted_service_list (C : Config) : result (list Service) :=
  let mapping := services_mapping C in
  match configured C mapping 0 (SUBTITLES_SERVICES_LIST C) with
  | Raise e => Raise e
  | Ok new_list => Ok (fold_left (add_missing C) mapping new_list)
  end.

(** [get_enabled_service_list] *)
Definition get_enabled_service_list (C : Config) : result (list string) :=
  match sorted_service_list C with
  | Raise e => Raise e
  | Ok l => Ok (map name (List.filter enabled l))
  end.

(** *** The search rules (lines 171-179 and 203-210) *)

(** [_get_rules]: hours to wait, by number of searches done. *)
Definition rules_old : list Z := [0; 24].
Definition rules_new : list Z := [0; 4; 8; 4; 16; 24; 24].

(** [l[i]] for a list: a negative index counts from the end. *)
Definition py_index {A} (l : list A) (i : Z) : result A :=
  let n := Z.of_nat (length l) in
  let j := if i <? 0 then i + n else i in
  if (0 <=? j) && (j <? n) then
    match nth_error l (Z.to_nat j) with
    | Some x => Ok x
    | None => Raise IndexError
    end
  else Raise IndexError.

(** [datetime.timedelta(hours=h)], in microseconds. *)
Definition hours (h : Z) : Z := h * 3600 * 1000000.

(** One operand of the [or] of lines 173-179:
    [guard and searchcount < bound and now - strptime(lastsearch) > timedelta(hours=rule[searchcount])] *)
Definition rule_holds (guard : bool) (bound : Z) (rule : list Z)
    (searchcount now : Z) (lastsearch : result Z) : result bool :=
  if guard && (searchcount <? bound) then
    match lastsearch with
    | Raise e => Raise e
    | Ok last =>
        match py_index rule searchcount with
        | Raise e => Raise e
        | Ok h => Ok (hours h <? now - last)
        end
    end
  else Ok false.

(** Lines 173-179: old shows rule [or] recent shows rule. *)
Definition search_is_due (airdate_daydiff searchcount now : Z)
    (lastsearch : result Z) : result bool :=
  match rule_holds (7 <? airdate_daydiff) 2 rules_old searchcount now lastsearch with
  | Raise e => Raise e
  | Ok true => Ok true
  | Ok false =>
      rule_holds (airdate_daydiff <=? 7) 7 rules_new searchcount now lastsearch
  end.

(** *** [SubtitlesFinder] (lines 106-201) *)

(** A row of the select of lines 144-157. *)
Record EpisodeRow : Type := {
  show_name : string;
  tv_id : Z;
  prod_id : Z;
  season : Z;
  episode : Z;
  searchcount : Z;
  lastsearch : string;
  location : string;
  airdate_daydiff : Z
}.

(** The collaborators of [_main]; shows and episode objects are handles. *)
Record Env : Type := {
  USE_SUBTITLES : bool;
  config : Config;
  sql_result : list EpisodeRow;
  now : Z;
  isfile : string -> bool;
  strptime : string -> result Z;
  find_show_by_id : Z -> Z -> option nat;
  get_episode : nat -> Z -> Z -> option nat;   (* None: a str came back *)
  download_subtitles : nat -> result unit
}.

(** Lines 164-201: the loop; the list holds the episode objects whose
    [download_subtitles()] was called, in order. *)
Fixpoint main_loop (E : Env) (rows : list EpisodeRow) : list nat * result unit :=
  match rows with
  | [] => ([], Ok tt)
  | cur_result :: rest =>
      if negb (isfile E (location cur_result)) then main_loop E rest
      else
        match search_is_due (airdate_daydiff cur_result) (searchcount cur_result)
                (now E) (strptime E (lastsearch cur_result)) with
        | Raise e => ([], Raise e)
        | Ok false => main_loop E rest
        | Ok true =>
            match find_show_by_id E (tv_id cur_result) (prod_id cur_result) with
            | None => ([], Ok tt)
            | Some show_obj =>
                match get_episode E show_obj (season cur_result) (episode cur_result) with
                | None => ([], Ok tt)
                | Some ep_obj =>
                    match download_subtitles E ep_obj with
                    | Raise _ => ([ep_obj], Ok tt)
                    | Ok _ =>
                        (ep_obj :: fst (main_loop E rest), snd (main_loop E rest))
                    end
                end
            end
        end
  end.

(** [_main] *)
Definition _main (E : Env) : list nat * result unit :=
  match get_enabled_service_list (config E) with
  | Raise e => ([], Raise e)
  | Ok services =>
      if (length services <? 1)%nat then ([], Ok tt)
      else if (length (sql_result E) =? 0)%nat then ([], Ok tt)
      else main_loop E (sql_result E)
  end.

Record SubtitlesFinder : Type := { amActive : bool }.

(** [run]: the object afterwards, the downloads attempted, the outcome. *)
Definition run (E : Env) (self : SubtitlesFinder)
  : SubtitlesFinder * list nat * result unit :=
  if USE_SUBTITLES E then
    match _main E with
    | (tr, Ok _) => ({| amActive := false |}, tr, Ok tt)
    | (tr, Raise e) => ({| amActive := true |}, tr, Raise e)
    end
  else (self, [], Ok tt).

(** The finder as the scheduler sees it. *)
Definition as_action (E : Env) (self : SubtitlesFinder) : Sched.Action :=
  {| Sched.is_enabled := Method (USE_SUBTITLES E);
     Sched.prevent_run := None;
     Sched.amActive := amActive self;
     Sched.load_queue := Absent;
     Sched.run := snd (run E self) |}.

End Subtitles.

Module MoreExamples.
Import Py Sched SchedExamples.

(** [ten_minutes] with a [prevent_cycle_run] callable of the given outcome,
    and the force flag as given. *)
Definition guarded (prevent : option (result bool)) (forced : bool) : Scheduler :=
  {| last_run := at_time 11 49; cycle_time := minutes 10;
     start_time := None; prevent_cycle_run := prevent; silent := false;
     force := forced; _unpause := true; _stopper := false |}.

(** A tick without calls from other threads. *)
Definition quiet_tick (now : datetime) (a : Action) : Tick :=
  {| tk_calls := []; tk_now := now; tk_action := a |}.

End MoreExamples.

Module MoreCacheExamples.
Import Py Cache CacheExamples.

(** [E] with another name parser. *)
Definition with_parse (E : Env)
    (p : option Show -> string -> result (option ParseResult)) : Env :=
  {| clock := clock E; fromtimestamp := fromtimestamp E; mktime := mktime E;
     providerID := providerID E; anime_only := anime_only E;
     update_iv := update_iv E; check_auth := check_auth E;
     _cache_data := _cache_data E; _title_and_url := _title_and_url E;
     get_result := get_result E; get_id := get_id E;
     find_show_by_id_multi := find_show_by_id_multi E;
     find_show_by_id := find_show_by_id E; get_show := get_show E;
     pass_wordlist_checks := pass_wordlist_checks E;
     want_episode := want_episode E; get_episode := get_episode E;
     parse := p; post_parse := post_parse E; np_parse := np_parse E;
     get_proper_level := get_proper_level E;
     mass_action_fault := mass_action_fault E |}.

(** A parser that resolves the first title of scenario C and fails on
    anything else with an exception that [add_cache_entry] does not name. *)
Definition parser_crashing (nm : string) : result (option ParseResult) :=
  if String.eqb nm "Show.Name.S01E02.720p" then Ok (Some (parsed (Some 1) [2]))
  else Raise RuntimeError.

Definition env_crashing : Env := with_parse env0 (fun _ nm => parser_crashing nm).

(** A row of "prov" whose episode text does not start with a number. *)
Definition corrupt_row : CacheRow :=
  {| provider := "prov"; name := "Bad"; season := 1;
     episodes := "|x|2|"; indexerid := 100; url := "u0";
     time := 900000; quality := 4; release_group := None;
     version := None; indexer := 1 |}.

(** A row of another provider that is tagged as a proper. *)
Definition foreign_proper : CacheRow :=
  {| provider := "other"; name := "Show.Name.S01E02.proper.720p"; season := 1;
     episodes := "|2|"; indexerid := 100; url := "u9";
     time := 5; quality := 4; release_group := None;
     version := None; indexer := 1 |}.

End MoreCacheExamples.

Module SubtitlesExamples.
Import Py Subtitles.

(** Two services on offer, both in the priority list, the first one on. *)
Definition two_services : Config :=
  {| SERVICES := ["Addic7ed"; "OpenSubtitles"];
     SUBTITLES_SERVICES_LIST := ["opensubtitles"; "addic7ed"];
     SUBTITLES_SERVICES_ENABLED := [1; 0];
     service_api_based := fun s => String.eqb s "opensubtitles";
     service_site_url := fun s => ("http://" ++ s)%string |}.

(** The same, with a list of flags that is one entry short. *)
Definition short_flags : Config :=
  {| SERVICES := SERVICES two_services;
     SUBTITLES_SERVICES_LIST := SUBTITLES_SERVICES_LIST two_services;
     SUBTITLES_SERVICES_ENABLED := [1];
     service_api_based := service_api_based two_services;
     service_site_url := service_site_url two_services |}.

Definition episode_row (ep sc : Z) (last : string) : EpisodeRow :=
  {| show_name := "Show"; tv_id := 1; prod_id := 10; season := 1; episode := ep;
     searchcount := sc; lastsearch := last; location := "/tv/show.mkv";
     airdate_daydiff := 3 |}.

(** Show 10 is known, the download of episode 3 fails, a last search
    written as [never] does not parse. *)
Definition finder_env (rows : list EpisodeRow) : Env :=
  {| USE_SUBTITLES := true;
     config := two_services;
     sql_result := rows;
     now := hours 5;
     isfile := fun p => negb (String.eqb p "");
     strptime := fun s => if String.eqb s "never" then Raise ValueError else Ok 0;
     find_show_by_id := fun _ prod => if prod =? 10 then Some 1%nat else None;
     get_episode := fun _ _ e => Some (Z.to_nat e);
     download_subtitles := fun ep => if (ep =? 3)%nat then Raise RuntimeError else Ok tt |}.

Definition switched_off : Env :=
  {| USE_SUBTITLES := false;
     config := two_services;
     sql_result := [];
     now := 0;
     isfile := fun _ => true;
     strptime := fun _ => Ok 0;
     find_show_by_id := fun _ _ => None;
     get_episode := fun _ _ _ => None;
     download_subtitles := fun _ => Ok tt |}.

End SubtitlesExamples.

(* ===================================================================== *)
(** ** Properties of the scheduler                                        *)
(* ===================================================================== *)

Module SchedSpec.
Import Py Sched SchedExamples.

(** *** Small facts about the setters and the decision *)

Lemma clear_force_last_run s : last_run (clear_force s) = last_run s.
Proof. unfold clear_force. destruct (force s); reflexivity. Qed.

Lemma clear_force_force s : force (clear_force s) = false.
Proof. unfold clear_force. destruct (force s) eqn:F; simpl; auto. Qed.

Lemma interval_check_force s t :
  force (fst (fst (interval_check s t))) = force s.
Proof.
  unfold interval_check.
  destruct (cycle_time s <=? t - last_run s); [|reflexivity].
  destruct (start_time s); [|reflexivity].
  destruct (_ && _); reflexivity.
Qed.

(** The seconds field never exceeds the whole duration, so the window
    that the loop uses is inside the cycle time counted in hours. *)
Lemma td_seconds_hours_le td :
  0 <= td -> td_seconds td / 3600 <= td / 3600000000.
Proof.
  intros H. unfold td_seconds.
  replace 3600000000 with (1000000 * 3600) by reflexivity.
  rewrite <- Z.div_div by lia.
  apply Z.div_le_mono; [lia|].
  apply Z.mod_le; [|lia].
  apply Z.div_pos; lia.
Qed.

(** The decision does not call the action. *)
Lemma decide_run_no_action s a t :
  ~ In EvActionRun (snd (decide_run s a t)).
Proof.
  unfold decide_run, interval_check.
  destruct (cycle_time s <=? t - last_run s);
    [destruct (start_time s); [destruct (_ && _)|]|];
    simpl;
    repeat match goal with
      | |- context [if ?b then _ else _] => destruct b; simpl
      | |- context [match prevented ?x ?y with _ => _ end] =>
          destruct (prevented x y) as [[|]|]; simpl
      end;
    intuition congruence.
Qed.

(** *** The disabled branch (lines 90 and 133-135) *)

(** The test of line 90 reads the attribute without calling it: when
    [is_enabled] is a method, the pass is the same whatever the method
    would return. *)
Lemma run_pass_ignores_method_result s a t b :
  is_enabled a = Method b ->
  run_pass s a t =
  match decide_run s a t with
  | (s1, Raise e, tr) => (clear_force s1, tr, Propagated e)
  | (s1, Ok false, tr) => (clear_force s1, tr ++ [EvSleep 1], Normal)
  | (s1, Ok true, tr) =>
      (clear_force (set_last_run s1 t), tr ++ snd (execute s1 a t) ++ [EvSleep 1], Normal)
  end.
Proof.
  intros H. unfold run_pass. rewrite H. simpl.
  destruct (decide_run s a t) as [[s1 [[|]|e]] tr]; reflexivity.
Qed.

(** The [else] branch as written: taken only for a false data attribute;
    it sleeps 30 and 1 and touches nothing. *)
Lemma run_pass_else_branch s a t :
  getattr_truthy (is_enabled a) true = false ->
  run_pass s a t = (s, [EvSleep 30; EvSleep 1], Normal).
Proof. intros H. unfold run_pass. rewrite H. reflexivity. Qed.

(** An action for which [set_paused_state] returns never takes the [else]
    branch: [run] calls [is_enabled()] first, and a data attribute is not
    callable. *)
Lemma started_thread_never_sees_disabled s a s1 :
  set_paused_state s a = Ok s1 ->
  getattr_truthy (is_enabled a) true = true.
Proof.
  unfold set_paused_state. destruct (is_enabled a); simpl; congruence.
Qed.

(** For an action that carries [is_enabled] as plain data [False], the
    pass would sleep 30 and 1, but [run] never gets that far. *)
Example data_attribute_stops_the_thread :
  let now := at_time 12 0 in
  run_pass ten_minutes flagged_action now
    = (ten_minutes, [EvSleep 30; EvSleep 1], Normal) /\
  run_thread [ {| tk_calls := []; tk_now := now; tk_action := flagged_action |} ]
             flagged_action ten_minutes
    = (ten_minutes, [], Died TypeError).
Proof. split; reflexivity. Qed.

(** C4. A pass in which the action reports disabled ([is_enabled()] is
    false) should sleep the 30 second backoff and skip the decision.  The
    loop does not: for [SubtitlesFinder] with subtitles switched off, ten
    minute cycle, eleven minutes since the last run, the pass evaluates
    the decision, moves [last_run], calls the action and sleeps 1 only. *)
Theorem disabled_action_is_still_scheduled :
  let a := subtitles_finder false (Ok tt) in
  let now := at_time 12 0 in
  call_attr (is_enabled a) = Ok false /\
  decide_run ten_minutes a now = (ten_minutes, Ok true, []) /\
  run_pass ten_minutes a now =
    (set_last_run ten_minutes now,
     [EvSetLastRun now; EvDebugStart; EvActionRun; EvSleep 1], Normal) /\
  last_run ten_minutes <> now /\
  ~ In (EvSleep 30) (snd (fst (run_pass ten_minutes a now))).
Proof.
  cbv zeta. repeat split; try reflexivity.
  - vm_compute. discriminate.
  - vm_compute. intros H. repeat destruct H as [H|H]; try discriminate H. exact H.
Qed.

(** The same on the whole thread.  Started while enabled, the action is
    run at a tick at which its [is_enabled()] has become false; started
    while disabled, the scheduler pauses itself, and one [unpause()] later
    the action is run although it still reports disabled. *)
Lemma disabled_action_thread :
  let off := subtitles_finder false (Ok tt) in
  let on := subtitles_finder true (Ok tt) in
  let now := at_time 12 0 in
  run_thread [ {| tk_calls := []; tk_now := now; tk_action := off |} ]
             on ten_minutes =
  (set_last_run ten_minutes now,
   [EvSetLastRun now; EvDebugStart; EvActionRun; EvSleep 1], Alive) /\
  run_thread [ {| tk_calls := []; tk_now := now; tk_action := off |} ]
             off ten_minutes =
  (pause (set_silent ten_minutes true), [], Waiting) /\
  run_thread [ {| tk_calls := [CallUnpause]; tk_now := now; tk_action := off |} ]
             off ten_minutes =
  (set_silent (set_last_run ten_minutes now) true,
   [EvSetLastRun now; EvActionRun; EvSleep 1], Alive).
Proof. repeat split. Qed.

(** *** The start-time window (lines 96-106) *)

(** Without the force flag, the final [should_run] is true only if the
    interval check said so. *)
Lemma decide_run_true_unforced s a t s1 tr :
  force s = false ->
  decide_run s a t = (s1, Ok true, tr) ->
  snd (fst (interval_check s t)) = true.
Proof.
  intros F. unfold decide_run.
  pose proof (interval_check_force s t) as IF.
  destruct (interval_check s t) as [[s0 sr] tr0]. simpl in *.
  rewrite IF, F.
  destruct sr; [reflexivity|]. intros H. inversion H.
Qed.

Lemma run_pass_action_decided s a t :
  In EvActionRun (snd (fst (run_pass s a t))) ->
  exists s1 tr, decide_run s a t = (s1, Ok true, tr).
Proof.
  unfold run_pass.
  destruct (getattr_truthy (is_enabled a) true).
  - pose proof (decide_run_no_action s a t) as N.
    destruct (decide_run s a t) as [[s1 [[|]|e]] tr]; simpl in *.
    + intros _. eauto.
    + intros H. apply in_app_or in H. destruct H as [H|[H|[]]]; [tauto|discriminate].
    + tauto.
  - simpl. intros [H|[H|[]]]; discriminate.
Qed.

(** C5 (amended).  In a pass that enters the decision with the force flag
    clear, the interval elapsed and an anchor configured: the action runs
    only if [0 <= now.hour - start_time.hour < cycle_time.seconds // 3600]
    (which, for a cycle time that is not negative, is below the cycle time
    in hours); outside that window the action is not run and [last_run]
    becomes the tick's time.  With anchor 02:00, cycle 4 hours and current
    hour 01, [hour_diff] is -1, [should_run] is false and [last_run] is
    the tick's time. *)
Theorem start_time_window s a now st :
  getattr_truthy (is_enabled a) true = true ->
  force s = false ->
  cycle_time s <= now - last_run s ->
  start_time s = Some st ->
  let hour_diff := dt_hour now - hour st in
  let window := td_seconds (cycle_time s) / 3600 in
  let s' := fst (fst (run_pass s a now)) in
  let tr := snd (fst (run_pass s a now)) in
  (In EvActionRun tr -> 0 <= hour_diff < window) /\
  (In EvActionRun tr -> 0 <= cycle_time s ->
     0 <= hour_diff /\ hour_diff * 3600000000 < cycle_time s) /\
  (~ (0 <= hour_diff < window) ->
     ~ In EvActionRun tr /\ last_run s' = now /\
     decide_run s a now = (set_last_run s now, Ok false, [EvSetLastRun now])) /\
  (hour st = 2 -> cycle_time s = hours 4 -> dt_hour now = 1 ->
     hour_diff = -1 /\ ~ In EvActionRun tr /\ last_run s' = now /\
     decide_run s a now = (set_last_run s now, Ok false, [EvSetLastRun now])).
Proof.
  intros En F El St hour_diff window s' tr.
  assert (IC : interval_check s now =
               if negb (hour_diff <? 0) && (hour_diff <? window)
               then (s, true, [])
               else (set_last_run s now, false, [EvSetLastRun now])).
  { unfold interval_check. rewrite St.
    destruct (Z.leb_spec (cycle_time s) (now - last_run s)); [reflexivity|lia]. }
  assert (Out : ~ (0 <= hour_diff < window) ->
     ~ In EvActionRun tr /\ last_run s' = now /\
     decide_run s a now = (set_last_run s now, Ok false, [EvSetLastRun now])).
  { intros W.
    assert (B : negb (hour_diff <? 0) && (hour_diff <? window) = false).
    { destruct (Z.ltb_spec hour_diff 0); simpl; [reflexivity|].
      destruct (Z.ltb_spec hour_diff window); [lia|reflexivity]. }
    rewrite B in IC.
    assert (D : decide_run s a now = (set_last_run s now, Ok false, [EvSetLastRun now])).
    { unfold decide_run. rewrite IC. simpl. rewrite F. reflexivity. }
    subst s' tr. unfold run_pass. rewrite En, D. simpl.
    rewrite clear_force_last_run. simpl.
    split; [|split; reflexivity].
    intros [H|[H|[]]]; discriminate. }
  assert (Inside : In EvActionRun tr -> 0 <= hour_diff < window).
  { intros H. apply run_pass_action_decided in H. destruct H as (s1 & tr1 & D).
    apply decide_run_true_unforced in D; [|exact F].
    rewrite IC in D.
    destruct (Z.ltb_spec hour_diff 0); simpl in D; [discriminate|].
    destruct (Z.ltb_spec hour_diff window); simpl in D; [lia|discriminate]. }
  split; [exact Inside|]. split; [|split].
  - intros H Pos. apply Inside in H.
    pose proof (td_seconds_hours_le (cycle_time s) Pos) as L. fold window in L.
    split; [lia|].
    pose proof (Z.mul_div_le (cycle_time s) 3600000000). lia.
  - exact Out.
  - intros H2 HC H1.
    assert (HD : hour_diff = -1) by (unfold hour_diff; lia).
    split; [exact HD|].
    apply Out. lia.
Qed.

(** Witness: scenario B on day 10 at 01:00. *)
Lemma start_time_window_witness :
  let s := anchored false in
  let a := plain_action (Ok tt) in
  let now := at_time 1 0 in
  dt_hour now - 2 = -1 /\
  ~ In EvActionRun (snd (fst (run_pass s a now))) /\
  last_run (fst (fst (run_pass s a now))) = now /\
  decide_run s a now = (set_last_run s now, Ok false, [EvSetLastRun now]).
Proof.
  cbv zeta.
  refine (proj2 (proj2 (proj2 (start_time_window (anchored false)
                 (plain_action (Ok tt))
                 (at_time 1 0) {| hour := 2; minute := 0 |} _ _ _ _))) _ _ _);
    first [reflexivity | (vm_compute; discriminate)].
Defined.

(** C5, as stated, fails when the one-shot force flag is set: at 01:00,
    one hour before the anchor of a four hour cycle, the forced pass runs
    the action. *)
Lemma start_time_window_forced_counterexample :
  let s := anchored true in
  let a := plain_action (Ok tt) in
  let now := at_time 1 0 in
  cycle_time s <= now - last_run s /\
  start_time s = Some {| hour := 2; minute := 0 |} /\
  dt_hour now - 2 = -1 /\
  ~ (0 <= dt_hour now - 2 < 4) /\
  In EvActionRun (snd (fst (run_pass s a now))).
Proof.
  cbv zeta. repeat split; try reflexivity.
  - vm_compute. discriminate.
  - vm_compute. intros [H _]. apply H. reflexivity.
  - vm_compute. tauto.
Qed.

(** *** Running the action (lines 118-132) *)

(** C6.  In every pass whose final [should_run] is true, [last_run] is set
    to the tick's time before the action is called; whatever the action
    raises is logged inside the pass and the pass ends normally, so the
    loop goes on to its next test with [last_run] still at the tick's
    time (and the force flag cleared). *)
Theorem action_errors_stay_in_the_pass s a now s1 tr1 :
  getattr_truthy (is_enabled a) true = true ->
  decide_run s a now = (s1, Ok true, tr1) ->
  exists s' mid post,
    run_pass s a now =
      (s', tr1 ++ EvSetLastRun now :: mid ++ EvActionRun :: post, Normal) /\
    ~ In EvActionRun (tr1 ++ EvSetLastRun now :: mid) /\
    last_run s' = now /\ force s' = false /\
    (forall e, run a = Raise e -> In (EvLogError e) post) /\
    (forall rest,
       _unpause s = true -> _stopper s = false ->
       run_loop ({| tk_calls := []; tk_now := now; tk_action := a |} :: rest) s =
       (fst (fst (run_loop rest s')),
        (tr1 ++ EvSetLastRun now :: mid ++ EvActionRun :: post)
          ++ snd (fst (run_loop rest s')),
        snd (run_loop rest s'))).
Proof.
  intros En D.
  exists (clear_force (set_last_run s1 now)),
         (if silent s1 then [] else [EvDebugStart]),
         (match run a with Ok _ => [] | Raise e => [EvLogError e; EvLogError e] end
            ++ [EvSleep 1]).
  assert (P : run_pass s a now =
    (clear_force (set_last_run s1 now),
     tr1 ++ EvSetLastRun now :: (if silent s1 then [] else [EvDebugStart])
         ++ EvActionRun :: (match run a with
                            | Ok _ => []
                            | Raise e => [EvLogError e; EvLogError e]
                            end ++ [EvSleep 1]),
     Normal)).
  { unfold run_pass. rewrite En, D. unfold execute. cbv zeta.
    simpl. rewrite <- !app_assoc. reflexivity. }
  split; [exact P|].
  split.
  { intros H. apply in_app_or in H. destruct H as [H|H].
    - pose proof (decide_run_no_action s a now) as N. rewrite D in N. tauto.
    - destruct H as [H|H]; [discriminate|].
      destruct (silent s1); simpl in H; [tauto|]. destruct H as [H|[]]. discriminate. }
  split; [rewrite clear_force_last_run; reflexivity|].
  split; [apply clear_force_force|].
  split.
  { intros e He. rewrite He. simpl. auto. }
  intros rest U St. simpl. rewrite U, St. simpl. rewrite P.
  destruct (run_loop rest (clear_force (set_last_run s1 now))) as [[s2 tr2] st].
  reflexivity.
Qed.

(** Witness: scenario A with an
    action that raises; a second tick one second later finds the interval
    not elapsed and only sleeps. *)
Lemma action_errors_stay_in_the_pass_witness :
  let a := plain_action (Raise RuntimeError) in
  let now := at_time 12 0 in
  exists s' mid post,
    run_pass ten_minutes a now =
      (s', [] ++ EvSetLastRun now :: mid ++ EvActionRun :: post, Normal) /\
    ~ In EvActionRun ([] ++ EvSetLastRun now :: mid) /\
    last_run s' = now /\ force s' = false /\
    (forall e, run a = Raise e -> In (EvLogError e) post) /\
    (forall rest,
       _unpause ten_minutes = true -> _stopper ten_minutes = false ->
       run_loop ({| tk_calls := []; tk_now := now; tk_action := a |} :: rest)
                ten_minutes =
       (fst (fst (run_loop rest s')),
        ([] ++ EvSetLastRun now :: mid ++ EvActionRun :: post)
          ++ snd (fst (run_loop rest s')),
        snd (run_loop rest s'))).
Proof.
  cbv zeta.
  apply (action_errors_stay_in_the_pass ten_minutes
           (plain_action (Raise RuntimeError)) (at_time 12 0) ten_minutes []);
    reflexivity.
Defined.

(** Scenario A and a crash, evaluated: the action raises at 12:00, the
    thread stays alive and the next pass only sleeps. *)
Example crash_then_next_tick :
  let a := plain_action (Raise RuntimeError) in
  run_loop [ {| tk_calls := []; tk_now := at_time 12 0; tk_action := a |};
             {| tk_calls := []; tk_now := at_time 12 0 + 1000000; tk_action := a |} ]
           ten_minutes =
  (set_last_run ten_minutes (at_time 12 0),
   [EvSetLastRun (at_time 12 0); EvDebugStart; EvActionRun;
    EvLogError RuntimeError; EvLogError RuntimeError; EvSleep 1; EvSleep 1],
   Alive).
Proof. reflexivity. Qed.

End SchedSpec.

(* ===================================================================== *)
(** ** Properties of the provider cache                                   *)
(* ===================================================================== *)

Module CacheSpec.
Import Py Cache CacheExamples.
Local Open Scope cache_scope.

(** *** The monad *)

Lemma bind_ok {A B} (m : M A) (k : A -> M B) w a w1 :
  m w = (Ok a, w1) -> bind m k w = k a w1.
Proof. intros H. unfold bind. rewrite H. reflexivity. Qed.

Lemma bind_ok_inv {A B} (m : M A) (k : A -> M B) w b w' :
  bind m k w = (Ok b, w') ->
  exists a w1, m w = (Ok a, w1) /\ k a w1 = (Ok b, w').
Proof.
  unfold bind. destruct (m w) as [[a|e] w1]; intros H.
  - eauto.
  - discriminate.
Qed.

Lemma reads_only_ret {A} (a : A) : reads_only (ret a).
Proof. intros w. exists a, w. auto. Qed.

Lemma reads_only_bind {A B} (m : M A) (k : A -> M B) :
  reads_only m -> (forall a, reads_only (k a)) -> reads_only (bind m k).
Proof.
  intros Hm Hk w. destruct (Hm w) as (a & w1 & E1 & D1 & L1).
  destruct (Hk a w1) as (b & w2 & E2 & D2 & L2).
  exists b, w2. rewrite (bind_ok _ _ _ _ _ E1). split; [exact E2|].
  split; congruence.
Qed.

Lemma reads_only_timestamp_near E : reads_only (timestamp_near E).
Proof. intros w. eexists _, _. split; [reflexivity|]. auto. Qed.

Lemma reads_only_datetime_now E : reads_only (datetime_now E).
Proof. intros w. eexists _, _. split; [reflexivity|]. auto. Qed.

Lemma reads_only_select_time table pid : reads_only (select_time table pid).
Proof. intros w. eexists _, _. split; [reflexivity|]. auto. Qed.

Create HintDb cache_reads.
#[local] Hint Resolve reads_only_ret reads_only_timestamp_near
  reads_only_datetime_now reads_only_select_time : cache_reads.

(** Walks down a chain of binds whose links are known to read only. *)
Ltac reads_only_chain :=
  repeat first
    [ solve [eauto with cache_reads]
    | apply reads_only_bind; [solve [eauto with cache_reads] | intros ?]
    | match goal with
      | |- reads_only (match ?x with _ => _ end) => destruct x
      end ].

Lemma reads_only_get_last_update E : reads_only (_get_last_update E).
Proof. unfold _get_last_update. reads_only_chain. Qed.

Lemma reads_only_get_last_search E : reads_only (_get_last_search E).
Proof. unfold _get_last_search. reads_only_chain. Qed.

#[local] Hint Resolve reads_only_get_last_update reads_only_get_last_search
  : cache_reads.

Lemma reads_only_should_update E : reads_only (should_update E).
Proof. unfold should_update. reads_only_chain. Qed.

Lemma reads_only_should_clear_cache E : reads_only (should_clear_cache E).
Proof. unfold should_clear_cache. reads_only_chain. Qed.

(** *** Authentication (lines 90-94) *)

(** C1.  When [check_auth()] raises [AuthException], [update_cache]
    returns the empty list and the world is the one it started in: no row
    deleted or inserted, [lastUpdate] not written, no statement sent. *)
Theorem auth_failure_changes_nothing E w :
  check_auth E = Raise AuthException ->
  update_cache E w = (Ok ReturnedEmptyList, w).
Proof. intros H. unfold update_cache. rewrite H. reflexivity. Qed.

(** Witness: scenario E on a store
    with one entry whose refresh interval has elapsed. *)
Lemma auth_failure_changes_nothing_witness :
  let E := env_with (Raise AuthException) (Some [0; 1]%nat) None in
  let w := world_with [stored "Old" [2; 3]] (Some 900000) (Some 950000) in
  check_auth E = Raise AuthException /\
  update_cache E w = (Ok ReturnedEmptyList, w).
Proof.
  cbv zeta. split; [reflexivity|].
  apply (auth_failure_changes_nothing
           (env_with (Raise AuthException) (Some [0; 1]%nat) None)
           (world_with [stored "Old" [2; 3]] (Some 900000) (Some 950000))).
  reflexivity.
Defined.

(** *** What the ingestion steps write *)

Lemma reads_only_no_write {A} (m : M A) : reads_only m -> no_write m.
Proof.
  intros H w. destruct (H w) as (a & w' & E1 & D & L). rewrite E1. auto.
Qed.

Lemma no_write_ret {A} (a : A) : no_write (ret a).
Proof. intros w. auto. Qed.

Lemma no_write_lift {A} (r : result A) : no_write (lift r).
Proof. intros w. auto. Qed.

Lemma no_write_bind {A B} (m : M A) (k : A -> M B) :
  no_write m -> (forall a, no_write (k a)) -> no_write (bind m k).
Proof.
  intros Hm Hk w. unfold bind. specialize (Hm w).
  destruct (m w) as [[a|e] w1]; simpl in Hm.
  - destruct Hm as [D1 L1]. destruct (Hk a w1) as [D L]. split; congruence.
  - exact Hm.
Qed.

Lemma no_write_keeps_rows {A} (m : M A) : no_write m -> keeps_rows m.
Proof.
  intros H w. exists []. destruct (H w) as [D _]. rewrite D, app_nil_r. reflexivity.
Qed.

Lemma keeps_rows_bind {A B} (m : M A) (k : A -> M B) :
  keeps_rows m -> (forall a, keeps_rows (k a)) -> keeps_rows (bind m k).
Proof.
  intros Hm Hk w. unfold bind. destruct (Hm w) as [add1 H1].
  destruct (m w) as [[a|e] w1]; simpl in H1.
  - destruct (Hk a w1) as [add2 H2]. exists (add1 ++ add2).
    rewrite H2, H1, app_assoc. reflexivity.
  - exists add1. exact H1.
Qed.

Lemma insert_or_ignore_keeps r rows :
  exists added, insert_or_ignore r rows = rows ++ added.
Proof.
  unfold insert_or_ignore. destruct (existsb _ _).
  - exists []. rewrite app_nil_r. reflexivity.
  - exists [r]. reflexivity.
Qed.

Lemma fold_apply_insert_keeps cl w :
  exists added,
    provider_cache (db (fold_left apply_insert cl w)) = provider_cache (db w) ++ added.
Proof.
  revert w. induction cl as [|r cl IH]; intros w; simpl.
  - exists []. rewrite app_nil_r. reflexivity.
  - destruct (IH (apply_insert w r)) as [add2 H2].
    destruct (insert_or_ignore_keeps r (provider_cache (db w))) as [add1 H1].
    exists (add1 ++ add2). rewrite H2. simpl. rewrite H1, app_assoc. reflexivity.
Qed.

Section Ingestion.
Context (E : Env).

Lemma no_write_cache_statement nm u pr : no_write (cache_statement E nm u pr).
Proof.
  unfold cache_statement. destruct (_ && _); [|apply no_write_ret].
  apply no_write_bind.
  - apply reads_only_no_write, reads_only_timestamp_near.
  - intros; apply no_write_ret.
Qed.

Lemma no_write_add_cache_entry nm u pr tp : no_write (add_cache_entry E nm u pr tp).
Proof.
  unfold add_cache_entry. apply no_write_bind.
  - destruct pr; [apply no_write_ret|apply no_write_lift].
  - intros [p|]; [apply no_write_cache_statement|apply no_write_ret].
Qed.

Lemma no_write_parse_item title u : no_write (parse_item E title u).
Proof.
  unfold parse_item. destruct (_ && _); [apply no_write_add_cache_entry|apply no_write_ret].
Qed.

Lemma no_write_parse_items items : no_write (parse_items E items).
Proof.
  induction items as [|item rest IH]; simpl; [apply no_write_ret|].
  apply no_write_bind; [apply no_write_parse_item|]. intros ci.
  apply no_write_bind; [exact IH|]. intros; apply no_write_ret.
Qed.

Lemma keeps_rows_mass_action_insert cl : keeps_rows (mass_action_insert E cl).
Proof.
  intros w. unfold mass_action_insert.
  destruct (mass_action_fault E cl); simpl; apply fold_apply_insert_keeps.
Qed.

(** Lines 113-116: whatever the driver raises is caught. *)
Lemma save_items_returns cl w : exists w', save_items E cl w = (Ok tt, w').
Proof.
  unfold save_items. destruct (nonempty cl); [|eexists; reflexivity].
  unfold try_except, mass_action_insert.
  destruct (mass_action_fault E cl); eexists; reflexivity.
Qed.

Lemma keeps_rows_save_items cl : keeps_rows (save_items E cl).
Proof.
  intros w. unfold save_items.
  destruct (nonempty cl); [|exists []; simpl; rewrite app_nil_r; reflexivity].
  destruct (keeps_rows_mass_action_insert cl w) as [added H].
  exists added. unfold try_except.
  destruct (mass_action_insert E cl w) as [[[]|e] w1]; exact H.
Qed.

Lemma keeps_rows_set_last_update d : keeps_rows (set_last_update E d).
Proof.
  intros w. exists []. rewrite app_nil_r. destruct d; reflexivity.
Qed.

(** Lines 103-119: parsing, saving and stamping never remove a row. *)
Lemma keeps_rows_after_clear items :
  keeps_rows (do cl <- parse_items E items in
              exec save_items E cl in
              set_last_update E None).
Proof.
  apply keeps_rows_bind; [apply no_write_keeps_rows, no_write_parse_items|].
  intros cl. apply keeps_rows_bind; [apply keeps_rows_save_items|].
  intros _. apply keeps_rows_set_last_update.
Qed.

End Ingestion.

(** *** Purging (lines 64-67, 99-101, 240-247) *)

Lemma should_clear_cache_value E w :
  exists ls lu w1 w2,
    _get_last_search E w = (Ok ls, w1) /\
    _get_last_update E w1 = (Ok lu, w2) /\
    should_clear_cache E w = (Ok (lu <=? ls), w2).
Proof.
  destruct (reads_only_get_last_search E w) as (ls & w1 & E1 & _).
  destruct (reads_only_get_last_update E w1) as (lu & w2 & E2 & _).
  exists ls, lu, w1, w2. split; [exact E1|]. split; [exact E2|].
  unfold should_clear_cache.
  rewrite (bind_ok _ _ _ _ _ E1), (bind_ok _ _ _ _ _ E2). reflexivity.
Qed.


Lemma get_last_update_stored E w t :
  lastUpdate (db w) !! providerID E = Some t ->
  _get_last_update E w =
  (Ok (fromtimestamp E (if clock E (reads w) <? t then 0 else t)), tick w).
Proof.
  intros H. unfold _get_last_update, select_time, bind. rewrite H. reflexivity.
Qed.


(** A stored refresh time that lies in the future is read as 0 (lines
    175-176): the purge is then allowed although the table entry of the
    last search is the smaller one. *)
Example future_refresh_time_is_clamped :
  let w := world_with [] (Some 2000000) (Some 900000) in
  fst (should_clear_cache env0 w) = Ok true /\
  fst (_get_last_update env0 w) = Ok (fromtimestamp env0 0).
Proof. cbv zeta. split; reflexivity. Qed.




(** The same pass, evaluated: one row is added after the stored one. *)
Example unread_rows_survive :
  let w := world_with [stored "Old" [2; 3]] (Some 900000) (Some 800000) in
  map name (provider_cache (db (snd (update_cache env0 w)))) =
  ["Old"; "Show.Name.S01E02.720p"]%string.
Proof. reflexivity. Qed.

(** And when the last search is not older, the stored row is replaced. *)
Example read_rows_are_purged :
  let w := world_with [stored "Old" [2; 3]] (Some 900000) (Some 950000) in
  map name (provider_cache (db (snd (update_cache env0 w)))) =
  ["Show.Name.S01E02.720p"]%string.
Proof. reflexivity. Qed.

(** *** The refresh stamp (lines 96-119) *)

Lemma set_last_update_stamps E w :
  exists w', set_last_update E None w = (Ok tt, w') /\ refresh_stamped E w'.
Proof.
  eexists. split; [reflexivity|].
  exists (reads w), (log w). simpl.
  split; [reflexivity|]. split; [|reflexivity].
  apply lookup_insert_eq.
Qed.

Lemma set_last_update_ok_stamped E w u w' :
  set_last_update E None w = (Ok u, w') -> refresh_stamped E w'.
Proof.
  destruct (set_last_update_stamps E w) as (w1 & E1 & S1).
  rewrite E1. intros H. injection H as _ <-. exact S1.
Qed.

Lemma refresh_ok_stamped E w u w' :
  refresh E w = (Ok u, w') -> refresh_stamped E w'.
Proof.
  unfold refresh. intros H.
  apply bind_ok_inv in H. destruct H as (data & w1 & _ & H).
  apply bind_ok_inv in H. destruct H as (? & w2 & _ & H).
  apply bind_ok_inv in H. destruct H as (cl & w3 & _ & H).
  apply bind_ok_inv in H. destruct H as (? & w4 & _ & H).
  eapply set_last_update_ok_stamped. exact H.
Qed.

Lemma clear_cache_returns E w : exists w', clear_cache E w = (Ok tt, w').
Proof.
  destruct (reads_only_should_clear_cache E w) as (b & w1 & E1 & _).
  unfold clear_cache. rewrite (bind_ok _ _ _ _ _ E1).
  destruct b; eexists; reflexivity.
Qed.

Lemma cache_statement_returns E nm u pr w :
  exists ci w', cache_statement E nm u pr w = (Ok ci, w').
Proof.
  unfold cache_statement. destruct (_ && _); eexists _, _; reflexivity.
Qed.

Lemma parse_item_returns E item w :
  item_parses E item = true ->
  exists ci w',
    parse_item E (fst (_title_and_url E item)) (snd (_title_and_url E item)) w
    = (Ok ci, w').
Proof.
  unfold item_parses, parse_item.
  destruct (_ && _); [|intros _; eexists _, _; reflexivity].
  unfold add_cache_entry, lift. unfold bind at 1.
  destruct (parse_name E _ None) as [[pr|]|e]; [| |discriminate]; intros _.
  - apply cache_statement_returns.
  - eexists _, _; reflexivity.
Qed.

Lemma parse_items_returns E items :
  forallb (item_parses E) items = true ->
  forall w, exists cl w', parse_items E items w = (Ok cl, w').
Proof.
  induction items as [|item rest IH]; simpl; intros H w.
  - eexists _, _; reflexivity.
  - apply andb_prop in H. destruct H as [H1 H2].
    destruct (parse_item_returns E item w H1) as (ci & w1 & E1).
    destruct (IH H2 w1) as (cl & w2 & E2).
    rewrite (bind_ok _ _ _ _ _ E1), (bind_ok _ _ _ _ _ E2).
    eexists _, _; reflexivity.
Qed.

Lemma refresh_returns E data w :
  _cache_data E = Ok data ->
  forallb (item_parses E) (items_of data) = true ->
  exists w', refresh E w = (Ok tt, w').
Proof.
  intros Hd Hp. unfold refresh, lift. unfold bind at 1. rewrite Hd.
  assert (C : exists w1,
             (if nonempty (items_of data) then clear_cache E else ret tt) w
             = (Ok tt, w1)).
  { destruct (nonempty (items_of data)); [apply clear_cache_returns|].
    eexists; reflexivity. }
  destruct C as (w1 & E1). rewrite (bind_ok _ _ _ _ _ E1).
  destruct (parse_items_returns E _ Hp w1) as (cl & w2 & E2).
  rewrite (bind_ok _ _ _ _ _ E2).
  destruct (save_items_returns E cl w2) as (w3 & E3).
  rewrite (bind_ok _ _ _ _ _ E3).
  destruct (set_last_update_stamps E w3) as (w4 & E4 & _).
  exists w4. exact E4.
Qed.

(** C2.  In a run of [update_cache()] with authentication passed and
    [should_update()] true, [lastUpdate] is stamped with the clock as the
    last step before returning: on every return; when the fetch gives no
    items (the run returns, the rows are untouched); and whenever the
    items parse, whatever the driver does with the batch -- a failing
    batch insert raises inside [save_items] only. *)
Theorem refresh_stamp_is_unconditional E w :
  check_auth E = Ok tt ->
  fst (should_update E w) = Ok true ->
  (forall r w', update_cache E w = (Ok r, w') -> refresh_stamped E w') /\
  (forall data,
     _cache_data E = Ok data -> items_of data = [] ->
     exists w', update_cache E w = (Ok ReturnedNone, w') /\
                refresh_stamped E w' /\
                provider_cache (db w') = provider_cache (db w)) /\
  (forall data,
     _cache_data E = Ok data ->
     forallb (item_parses E) (items_of data) = true ->
     exists w', update_cache E w = (Ok ReturnedNone, w') /\
                refresh_stamped E w') /\
  (forall cl k w2,
     nonempty cl = true -> mass_action_fault E cl = Some k ->
     exists w3, mass_action_insert E cl w2 = (Raise DatabaseError, w3) /\
                save_items E cl w2 = (Ok tt, w3)).
Proof.
  intros Auth Due.
  destruct (reads_only_should_update E w) as (due & w1 & E1 & D1 & _).
  rewrite E1 in Due. simpl in Due. injection Due as ->.
  assert (U : update_cache E w =
              (do _x <- refresh E in ret ReturnedNone) w1).
  { unfold update_cache. rewrite Auth, (bind_ok _ _ _ _ _ E1). reflexivity. }
  assert (Third : forall data,
     _cache_data E = Ok data ->
     forallb (item_parses E) (items_of data) = true ->
     exists w', update_cache E w = (Ok ReturnedNone, w') /\
                refresh_stamped E w').
  { intros data Hd Hp.
    destruct (refresh_returns E data w1 Hd Hp) as (w' & R).
    exists w'. rewrite U, (bind_ok _ _ _ _ _ R).
    split; [reflexivity|]. eapply refresh_ok_stamped. exact R. }
  split; [|split; [|split]].
  - intros r w' H. rewrite U in H.
    apply bind_ok_inv in H. destruct H as (u & w2 & R & H).
    injection H as _ <-. eapply refresh_ok_stamped. exact R.
  - intros data Hd Hn.
    destruct (Third data Hd) as (w' & R & S); [rewrite Hn; reflexivity|].
    exists w'. split; [exact R|]. split; [exact S|].
    rewrite U in R. unfold refresh, lift in R. unfold bind at 2 in R.
    rewrite Hd, Hn in R. simpl in R.
    injection R as <-. simpl. rewrite D1. reflexivity.
  - exact Third.
  - intros cl k w2 Hne Hf. eexists. split.
    + unfold mass_action_insert. rewrite Hf. reflexivity.
    + unfold save_items, try_except, mass_action_insert. rewrite Hne, Hf. reflexivity.
Qed.

(** Witness: the feed of scenario C
    on a driver that fails every batch before its first statement. *)
Lemma refresh_stamp_is_unconditional_witness :
  let E := env_with (Ok tt) (Some [0; 1]%nat) (Some 0%nat) in
  let w := world_with [stored "Old" [2; 3]] (Some 900000) (Some 800000) in
  fst (should_update E w) = Ok true /\
  exists w', update_cache E w = (Ok ReturnedNone, w') /\ refresh_stamped E w'.
Proof.
  cbv zeta. split; [reflexivity|].
  apply (proj1 (proj2 (proj2
           (refresh_stamp_is_unconditional
              (env_with (Ok tt) (Some [0; 1]%nat) (Some 0%nat))
              (world_with [stored "Old" [2; 3]] (Some 900000) (Some 800000))
              eq_refl eq_refl)))
           (Some [0; 1]%nat));
    reflexivity.
Defined.

(** The failing batch, evaluated: nothing is inserted, the only statement
    that reaches the store is the stamp, taken at the sixth clock reading. *)
Example failed_batch_still_stamps :
  let E := env_with (Ok tt) (Some [0; 1]%nat) (Some 0%nat) in
  let w := world_with [stored "Old" [2; 3]] (Some 900000) (Some 800000) in
  fst (update_cache E w) = Ok ReturnedNone /\
  log (snd (update_cache E w)) = [WUpsertLastUpdate "prov" (stamp_at E 5)] /\
  lastUpdate (db (snd (update_cache E w))) !! "prov"%string = Some 1000005 /\
  map name (provider_cache (db (snd (update_cache E w)))) = ["Old"%string].
Proof. cbv zeta. repeat split. Qed.

(** The empty fetch, evaluated. *)
Example empty_fetch_still_stamps :
  let E := env_with (Ok tt) None None in
  let w := world_with [stored "Old" [2; 3]] (Some 900000) (Some 950000) in
  fst (update_cache E w) = Ok ReturnedNone /\
  log (snd (update_cache E w)) = [WUpsertLastUpdate "prov" (stamp_at E 2)] /\
  lastUpdate (db (snd (update_cache E w))) !! "prov"%string = Some 1000002 /\
  map name (provider_cache (db (snd (update_cache E w)))) = ["Old"%string].
Proof. cbv zeta. repeat split. Qed.

(** *** Episode texts are read back (lines 300 and 415-418) *)

Lemma append_cons x (a b : string) :
  (String x a ++ b)%string = String x (a ++ b).
Proof. reflexivity. Qed.

Lemma append_empty (b : string) : (EmptyString ++ b)%string = b.
Proof. reflexivity. Qed.

Lemma append_assoc_str (a b c : string) :
  ((a ++ b) ++ c = a ++ (b ++ c))%string.
Proof.
  induction a as [|x a IH]; [reflexivity|].
  rewrite !append_cons, IH. reflexivity.
Qed.

Lemma split_before_sep sep p t :
  has_char sep p = false ->
  split sep (p ++ String sep t) = p :: split sep t.
Proof.
  induction p as [|x p IH]; intros H.
  - rewrite append_empty. simpl. rewrite Ascii.eqb_refl. reflexivity.
  - simpl in H. apply orb_false_elim in H. destruct H as [H1 H2].
    rewrite append_cons. simpl. rewrite H1, (IH H2). reflexivity.
Qed.

Lemma digits_have_no_bar d : has_char "|" (NilEmpty.string_of_uint d) = false.
Proof. induction d; simpl; auto. Qed.

Lemma str_has_no_bar n : has_char "|" (str n) = false.
Proof.
  unfold str. destruct (Z.to_int n) as [d|d]; simpl;
    unfold NilZero.string_of_uint; destruct d; try reflexivity;
    apply (digits_have_no_bar (_ d)).
Qed.

Lemma to_int_not_nil n : Z.to_int n <> Decimal.Pos Decimal.Nil /\
                         Z.to_int n <> Decimal.Neg Decimal.Nil.
Proof.
  destruct n as [|p|p]; simpl; split; try discriminate;
    intros H; injection H as H; exact (Unsigned.to_uint_nonnil p H).
Qed.

(** [int(str(n)) == n] *)
Lemma int_str n : int (str n) = Ok n.
Proof.
  unfold int, str. destruct (to_int_not_nil n) as [H1 H2].
  rewrite (NilZero.isi _ H1 H2), DecimalZ.of_to. reflexivity.
Qed.

Lemma str_not_empty n : str n <> EmptyString.
Proof.
  intros H. pose proof (int_str n) as I. rewrite H in I. discriminate.
Qed.

Lemma episode_text_shape e es :
  exists tail, episode_text (e :: es) = String "|" (str e ++ String "|" tail).
Proof.
  unfold episode_text. rewrite append_cons, append_empty.
  destruct es as [|e2 es].
  - exists EmptyString. reflexivity.
  - exists (join "|" (map str (e2 :: es)) ++ "|")%string.
    change (join "|" (map str (e :: e2 :: es)))
      with (str e ++ "|" ++ join "|" (map str (e2 :: es)))%string.
    rewrite !append_assoc_str, append_cons, append_empty. reflexivity.
Qed.

(** The first number read back from the text of a non-empty episode list
    is its first element. *)
Lemma first_episode_of_text e es :
  first_episode (episode_text (e :: es)) = Ok (Some e).
Proof.
  destruct (episode_text_shape e es) as [tail ->].
  unfold first_episode, first_field.
  change (split "|" (String "|" (str e ++ String "|" tail)))
    with (EmptyString :: split "|" (str e ++ String "|" tail)).
  rewrite (split_before_sep "|" (str e) tail (str_has_no_bar e)).
  pose proof (str_not_empty e) as N. pose proof (int_str e) as I.
  destruct (split "|" tail); destruct (str e); try contradiction;
    rewrite I; reflexivity.
Qed.

Lemma cache_statement_readable E nm u pr w row w' :
  cache_statement E nm u pr w = (Ok (Some row), w') -> readable row = true.
Proof.
  unfold cache_statement.
  destruct (negb (season_or_1 pr =? 0)); simpl; [|intros H; discriminate].
  destruct (episode_numbers pr) as [|e es]; simpl; [intros H; discriminate|].
  intros H. injection H as <- _. unfold readable. simpl episodes.
  rewrite first_episode_of_text. reflexivity.
Qed.

Lemma parse_item_readable E title u w row w' :
  parse_item E title u w = (Ok (Some row), w') -> readable row = true.
Proof.
  unfold parse_item. destruct (_ && _); [|discriminate].
  unfold add_cache_entry. intros H.
  apply bind_ok_inv in H. destruct H as ([pr|] & w1 & _ & H); [|discriminate].
  eapply cache_statement_readable. exact H.
Qed.

Lemma parse_items_readable E items : forall w cl w',
  parse_items E items w = (Ok cl, w') -> forallb readable cl = true.
Proof.
  induction items as [|item rest IH]; simpl; intros w cl w' H.
  - injection H as <- _. reflexivity.
  - apply bind_ok_inv in H. destruct H as (ci & w1 & H1 & H).
    apply bind_ok_inv in H. destruct H as (cl0 & w2 & H2 & H).
    injection H as <- _. apply IH in H2.
    destruct ci as [row|]; [|exact H2].
    simpl. rewrite (parse_item_readable _ _ _ _ _ _ H1), H2. reflexivity.
Qed.

Lemma insert_or_ignore_readable r rows :
  readable r = true -> forallb readable rows = true ->
  forallb readable (insert_or_ignore r rows) = true.
Proof.
  intros Hr Hrows. unfold insert_or_ignore.
  destruct (existsb _ _); [exact Hrows|].
  rewrite forallb_app, Hrows. simpl. rewrite Hr. reflexivity.
Qed.

Lemma fold_apply_insert_readable cl : forall w,
  forallb readable cl = true ->
  forallb readable (provider_cache (db w)) = true ->
  forallb readable (provider_cache (db (fold_left apply_insert cl w))) = true.
Proof.
  induction cl as [|r cl IH]; simpl; intros w Hcl Hw; [exact Hw|].
  apply andb_prop in Hcl. destruct Hcl as [Hr Hcl].
  apply IH; [exact Hcl|]. simpl. apply insert_or_ignore_readable; assumption.
Qed.

Lemma forallb_firstn {A} (f : A -> bool) k l :
  forallb f l = true -> forallb f (firstn k l) = true.
Proof.
  revert l. induction k as [|k IH]; intros [|x l]; simpl; auto.
  intros H. apply andb_prop in H. destruct H as [H1 H2].
  rewrite H1, (IH l H2). reflexivity.
Qed.

Lemma forallb_filter {A} (f g : A -> bool) l :
  forallb f l = true -> forallb f (List.filter g l) = true.
Proof.
  induction l as [|x l IH]; simpl; [auto|].
  intros H. apply andb_prop in H. destruct H as [H1 H2].
  destruct (g x); simpl; [rewrite H1|]; auto.
Qed.

(** Every pass of [update_cache] leaves a store of readable episode
    texts readable: the rows it writes come from line 300. *)
Lemma update_cache_keeps_readable E w :
  forallb readable (provider_cache (db w)) = true ->
  forallb readable (provider_cache (db (snd (update_cache E w)))) = true.
Proof.
  intros Hw. unfold update_cache.
  destruct (check_auth E) as [[]|e]; [|destruct e; exact Hw].
  destruct (reads_only_should_update E w) as (due & w1 & E1 & D1 & _).
  rewrite (bind_ok _ _ _ _ _ E1). rewrite <- D1 in Hw.
  destruct due; [|exact Hw].
  assert (R : forallb readable (provider_cache (db (snd (refresh E w1)))) = true).
  { unfold refresh, lift. unfold bind at 1.
    destruct (_cache_data E) as [data|e]; [|exact Hw].
    assert (C : exists w2,
               (if nonempty (items_of data) then clear_cache E else ret tt) w1
               = (Ok tt, w2) /\
               forallb readable (provider_cache (db w2)) = true).
    { destruct (nonempty (items_of data)); [|exists w1; split; [reflexivity|exact Hw]].
      destruct (reads_only_should_clear_cache E w1) as (b & w2 & E2 & D2 & _).
      unfold clear_cache. rewrite (bind_ok _ _ _ _ _ E2). rewrite <- D2 in Hw.
      destruct b; eexists; (split; [reflexivity|]); [|exact Hw].
      simpl. apply forallb_filter. exact Hw. }
    destruct C as (w2 & E2 & Hw2). rewrite (bind_ok _ _ _ _ _ E2).
    destruct (no_write_parse_items E (items_of data) w2) as [D3 _].
    unfold bind at 1.
    destruct (parse_items E (items_of data) w2) as [[cl|e] w3] eqn:P;
      simpl in D3; rewrite <- D3 in Hw2; [|exact Hw2].
    apply parse_items_readable in P.
    assert (S : exists w4, save_items E cl w3 = (Ok tt, w4) /\
                forallb readable (provider_cache (db w4)) = true).
    { unfold save_items. destruct (nonempty cl); [|eexists; split; [reflexivity|exact Hw2]].
      unfold try_except, mass_action_insert.
      destruct (mass_action_fault E cl) as [k|]; eexists; (split; [reflexivity|]).
      - apply fold_apply_insert_readable; [apply forallb_firstn; exact P|exact Hw2].
      - apply fold_apply_insert_readable; assumption. }
    destruct S as (w4 & E4 & Hw4). rewrite (bind_ok _ _ _ _ _ E4).
    exact Hw4. }
  unfold bind. destruct (refresh E w1) as [[[]|e] w2]; exact R.
Qed.

(** *** The search stamp (lines 385-391 and 466-468) *)

Lemma set_last_search_world E w :
  _set_last_search E None w = (Ok tt, snd (_set_last_search E None w)) /\
  let w' := snd (_set_last_search E None w) in
  log w' = log w ++ [WUpsertLastSearch (providerID E) (stamp_at E (reads w))] /\
  lastSearch (db w') !! providerID E = Some (stamp_at E (reads w)) /\
  reads w' = S (reads w) /\
  provider_cache (db w') = provider_cache (db w) /\
  lastUpdate (db w') = lastUpdate (db w).
Proof.
  split; [reflexivity|]. simpl.
  repeat split. apply lookup_insert_eq.
Qed.

Lemma process_row_returns E manual r :
  readable r = true -> exists o, process_row E manual r = Ok o.
Proof.
  unfold readable, process_row. intros H.
  destruct (find_show_by_id E _ _) as [sh|]; [|eauto].
  destruct (negb (pass_wordlist_checks E _ _)); [eauto|].
  destruct (anime_only E && negb (is_anime sh)); [eauto|].
  destruct (season r =? -1); [eauto|].
  destruct (first_episode (episodes r)) as [[ep|]|e]; [| eauto | discriminate].
  destruct (negb (want_episode E _ _ _ _ _)); [eauto|].
  destruct (get_result E _ _); eauto.
Qed.

Lemma process_rows_returns E manual rows :
  forallb readable rows = true ->
  forall acc, exists needed, process_rows E manual rows acc = Ok needed.
Proof.
  induction rows as [|r rest IH]; simpl; intros H acc; [eauto|].
  apply andb_prop in H. destruct H as [H1 H2].
  destruct (process_row_returns E manual r H1) as [o Ho]. rewrite Ho.
  destruct o as [[k v]|]; apply IH; exact H2.
Qed.

Lemma select_all_readable E rows eps :
  forallb readable rows = true ->
  forallb readable (concat (map (query E rows) eps)) = true.
Proof.
  intros H. induction eps as [|ep eps IH]; simpl; [reflexivity|].
  rewrite forallb_app, IH, andb_true_r. apply forallb_filter. exact H.
Qed.

(** C7.  An invocation of [find_needed_episodes] that returns has sent
    exactly one statement, the upsert of [lastSearch] with the clock read
    at that moment; this is so when no row matches (the method then
    returns the empty dict) and when rows are processed (the method
    returns whenever the episode texts of the selected rows, or of the
    whole store, are readable -- as every text written by line 300 is). *)
Theorem every_search_is_stamped E arg manual w :
  let sql_result := concat (map (query E (provider_cache (db w))) (as_list arg)) in
  let t := stamp_at E (reads w) in
  (forall needed w',
     find_needed_episodes E arg manual w = (Ok needed, w') ->
     log w' = log w ++ [WUpsertLastSearch (providerID E) t] /\
     lastSearch (db w') !! providerID E = Some t /\
     provider_cache (db w') = provider_cache (db w)) /\
  (sql_result = [] ->
   exists w', find_needed_episodes E arg manual w = (Ok [], w')) /\
  (forallb readable sql_result = true ->
   exists needed w', find_needed_episodes E arg manual w = (Ok needed, w')) /\
  (forallb readable (provider_cache (db w)) = true ->
   exists needed w', find_needed_episodes E arg manual w = (Ok needed, w')).
Proof.
  intros sql_result t.
  destruct (set_last_search_world E w) as (S1 & S2 & S3 & _ & S4 & _).
  assert (F : find_needed_episodes E arg manual w =
              if negb (nonempty sql_result)
              then (Ok [], snd (_set_last_search E None w))
              else match process_rows E manual sql_result [] with
                   | Ok needed => (Ok needed, snd (_set_last_search E None w))
                   | Raise e => (Raise e, w)
                   end).
  { unfold find_needed_episodes, select_all. unfold bind at 1.
    fold sql_result. destruct (negb (nonempty sql_result)).
    - rewrite (bind_ok _ _ _ _ _ S1). reflexivity.
    - unfold lift. unfold bind at 1.
      destruct (process_rows E manual sql_result []) as [needed|e]; [|reflexivity].
      rewrite (bind_ok _ _ _ _ _ S1). reflexivity. }
  assert (Third : forallb readable sql_result = true ->
    exists needed w', find_needed_episodes E arg manual w = (Ok needed, w')).
  { intros Hr. rewrite F.
    destruct (negb (nonempty sql_result)); [eauto|].
    destruct (process_rows_returns E manual sql_result Hr []) as [needed Hp].
    rewrite Hp. eauto. }
  split; [|split; [|split]].
  - intros needed w' H. rewrite F in H.
    assert (W : w' = snd (_set_last_search E None w)).
    { destruct (negb (nonempty sql_result)); [congruence|].
      destruct (process_rows E manual sql_result []); congruence. }
    subst w'. auto.
  - intros Hn. rewrite F, Hn. simpl. eauto.
  - exact Third.
  - intros Hs. apply Third. apply select_all_readable. exact Hs.
Qed.

(** Witness: a search for season 1 episode 2
    on a store that holds an entry for episodes 2 and 3. *)
Lemma every_search_is_stamped_witness :
  let w := world_with [stored "Old" [2; 3]] (Some 900000) (Some 800000) in
  let arg := One (episode_of show1 1 2) in
  forallb readable (concat (map (query env0 (provider_cache (db w))) (as_list arg)))
    = true /\
  exists needed w', find_needed_episodes env0 arg false w = (Ok needed, w').
Proof.
  cbv zeta. split; [reflexivity|].
  apply (proj1 (proj2 (proj2 (every_search_is_stamped env0
           (One (episode_of show1 1 2)) false
           (world_with [stored "Old" [2; 3]] (Some 900000) (Some 800000)))))).
  reflexivity.
Defined.

(** Both paths, evaluated: one upsert each. *)
Example search_without_match_is_stamped :
  let w := world_with [stored "Old" [2; 3]] (Some 900000) (Some 800000) in
  let r := find_needed_episodes env0 (One (episode_of show1 1 7)) false w in
  fst r = Ok [] /\
  log (snd r) = [WUpsertLastSearch "prov" 1000000] /\
  lastSearch (db (snd r)) !! "prov"%string = Some 1000000.
Proof. cbv zeta. repeat split. Qed.

Example search_with_match_is_stamped :
  let w := world_with [stored "Old" [2; 3]] (Some 900000) (Some 800000) in
  let r := find_needed_episodes env0 (One (episode_of show1 1 2)) false w in
  log (snd r) = [WUpsertLastSearch "prov" 1000000] /\
  lastSearch (db (snd r)) !! "prov"%string = Some 1000000.
Proof. cbv zeta. repeat split. Qed.

(** *** What becomes an entry (lines 294-300) *)

Lemma cache_statement_some E nm u pr w row w' :
  cache_statement E nm u pr w = (Ok (Some row), w') ->
  episode_numbers pr <> [] /\
  episodes row = episode_text (episode_numbers pr) /\
  season row = season_or_1 pr.
Proof.
  unfold cache_statement.
  destruct (negb (season_or_1 pr =? 0)); simpl;
    [|intros H; discriminate].
  destruct (episode_numbers pr) as [|e es] eqn:Eps; simpl;
    [intros H; discriminate|].
  intros H. injection H as <- _. simpl. split; [discriminate|]. auto.
Qed.

Lemma season_or_1_nonzero pr : season_or_1 pr <> 0.
Proof.
  unfold season_or_1. destruct (season_number pr) as [n|]; [|lia].
  destruct (Z.eqb_spec n 0); lia.
Qed.

(** C9 (amended).  [add_cache_entry] yields an entry only when the parse
    result has a non-empty episode set; the season stored is never 0: it
    is the parsed season, and 1 when the parse result has no season.  A
    parse result with an empty episode set yields no entry. *)
Theorem entry_requires_episodes E nm u parse_result tvid_prodid w :
  let resolved := match parse_result with
                  | Some pr => Ok (Some pr)
                  | None => parse_name E nm tvid_prodid
                  end in
  (forall row w',
     add_cache_entry E nm u parse_result tvid_prodid w = (Ok (Some row), w') ->
     exists pr,
       resolved = Ok (Some pr) /\
       episode_numbers pr <> [] /\
       episodes row = episode_text (episode_numbers pr) /\
       season row <> 0 /\
       (season_number pr = None -> season row = 1) /\
       (forall n, season_number pr = Some n -> n <> 0 -> season row = n)) /\
  (forall pr,
     resolved = Ok (Some pr) -> episode_numbers pr = [] ->
     add_cache_entry E nm u parse_result tvid_prodid w = (Ok None, w)).
Proof.
  intros resolved.
  assert (A : add_cache_entry E nm u parse_result tvid_prodid w =
              match resolved with
              | Ok (Some pr) => cache_statement E nm u pr w
              | Ok None => (Ok None, w)
              | Raise e => (Raise e, w)
              end).
  { unfold add_cache_entry, resolved. destruct parse_result as [pr|]; [reflexivity|].
    unfold lift. unfold bind.
    destruct (parse_name E nm tvid_prodid) as [[pr|]|e]; reflexivity. }
  split.
  - intros row w' H. rewrite A in H.
    destruct resolved as [[pr|]|e]; [|discriminate|discriminate].
    exists pr. split; [reflexivity|].
    apply cache_statement_some in H. destruct H as (H1 & H2 & H3).
    split; [exact H1|]. split; [exact H2|].
    rewrite H3. split; [apply season_or_1_nonzero|].
    unfold season_or_1. split.
    + intros ->. reflexivity.
    + intros n -> Hn. destruct (Z.eqb_spec n 0); [contradiction|reflexivity].
  - intros pr Hr He. rewrite A, Hr. unfold cache_statement. rewrite He.
    rewrite andb_false_r. reflexivity.
Qed.

(** Witness: the first item of scenario C. *)
Lemma entry_requires_episodes_witness :
  let w := world_with [] None None in
  exists row w',
    add_cache_entry env0 "Show.Name.S01E02.720p" "u1" None None w = (Ok (Some row), w') /\
    exists pr,
      parse_name env0 "Show.Name.S01E02.720p" None = Ok (Some pr) /\
      episode_numbers pr <> [] /\
      episodes row = episode_text (episode_numbers pr) /\
      season row <> 0 /\
      (season_number pr = None -> season row = 1) /\
      (forall n, season_number pr = Some n -> n <> 0 -> season row = n).
Proof.
  cbv zeta. eexists _, _. split; [reflexivity|].
  apply (proj1 (entry_requires_episodes env0 "Show.Name.S01E02.720p" "u1"
                  None None (world_with [] None None)) _ _ eq_refl).
Defined.

(** C9, as stated, fails: a title that resolves to episode 5 and to no
    season goes through the pipeline and becomes an entry of season 1. *)
Lemma entry_without_season_counterexample :
  let w := world_with [] None None in
  exists pr row w',
    parse_name env0 (_translate_title "Show Name E05 720p") None = Ok (Some pr) /\
    season_number pr = None /\
    parse_item env0 (Some "Show Name E05 720p"%string) (Some "u5"%string) w
      = (Ok (Some row), w') /\
    season row = 1 /\ episodes row = "|5|"%string.
Proof.
  cbv zeta. eexists _, _, _. repeat split; reflexivity.
Qed.

(** *** Grouping of results (lines 411-430 and 460-464) *)

Lemma dict_get_add k k' v d :
  default [] (dict_get k (dict_add k' v d)) =
  default [] (dict_get k d) ++ (if bool_decide (k' = k) then [v] else []).
Proof.
  induction d as [|[k0 vs] rest IH]; simpl.
  - destruct (decide (k' = k)) as [->|N].
    + rewrite bool_decide_eq_true_2 by reflexivity. reflexivity.
    + rewrite bool_decide_eq_false_2 by exact N. reflexivity.
  - destruct (decide (k0 = k')) as [->|N0]; simpl.
    + destruct (decide (k' = k)) as [->|N].
      * rewrite bool_decide_eq_true_2 by reflexivity. reflexivity.
      * rewrite bool_decide_eq_false_2 by exact N. rewrite app_nil_r. reflexivity.
    + destruct (decide (k0 = k)) as [->|N1].
      * rewrite bool_decide_eq_false_2 by congruence. rewrite app_nil_r. reflexivity.
      * exact IH.
Qed.

Lemma dict_add_count k v d :
  length (concat (map snd (dict_add k v d))) = S (length (concat (map snd d))).
Proof.
  induction d as [|[k0 vs] rest IH]; simpl; [reflexivity|].
  destruct (decide (k0 = k)); simpl.
  - rewrite !length_app. simpl. lia.
  - rewrite !length_app, IH. lia.
Qed.

Lemma process_rows_files E manual rows : forall acc needed,
  process_rows E manual rows acc = Ok needed ->
  (forall k, default [] (dict_get k needed) =
             default [] (dict_get k acc) ++ filed_under k (accepted E manual rows)) /\
  length (concat (map snd needed)) =
  (length (concat (map snd acc)) + length (accepted E manual rows))%nat.
Proof.
  induction rows as [|r rest IH]; simpl; intros acc needed H.
  - injection H as <-. split; [|lia].
    intros k. unfold filed_under. simpl. rewrite app_nil_r. reflexivity.
  - destruct (process_row E manual r) as [[[k0 v0]|]|e]; [| |discriminate].
    + apply IH in H. destruct H as [H1 H2]. split.
      * intros k. rewrite H1, dict_get_add, <- app_assoc. f_equal.
        unfold filed_under. simpl.
        destruct (bool_decide (k0 = k)); reflexivity.
      * rewrite H2, dict_add_count. simpl. lia.
    + apply IH in H. exact H.
Qed.

Lemma process_row_key E manual r k v :
  process_row E manual r = Ok (Some (k, v)) -> row_key E r = Some k.
Proof.
  unfold process_row, row_key.
  destruct (find_show_by_id E _ _) as [sh|]; [|discriminate].
  destruct (negb (pass_wordlist_checks E _ _)); [discriminate|].
  destruct (anime_only E && negb (is_anime sh)); [discriminate|].
  destruct (season r =? -1); [discriminate|].
  destruct (first_episode (episodes r)) as [[ep|]|e]; [|discriminate|discriminate].
  destruct (negb (want_episode E _ _ _ _ _)); [discriminate|].
  destruct (get_result E _ _); [|discriminate].
  intros H. injection H as <- _. reflexivity.
Qed.

Lemma find_needed_episodes_ok E arg manual w needed w' :
  find_needed_episodes E arg manual w = (Ok needed, w') ->
  process_rows E manual
    (concat (map (query E (provider_cache (db w))) (as_list arg))) [] = Ok needed.
Proof.
  unfold find_needed_episodes, select_all. unfold bind at 1.
  set (sql_result := concat _).
  destruct sql_result as [|r rest] eqn:Sq; simpl.
  - intros H. apply bind_ok_inv in H. destruct H as (? & ? & _ & H).
    injection H as <- _. reflexivity.
  - unfold lift. unfold bind at 1.
    destruct (match process_row E manual r with
              | Ok (Some (ep_obj, res)) => _
              | Ok None => _
              | Raise e => _
              end) as [nd|e]; [|discriminate].
    intros H. apply bind_ok_inv in H. destruct H as (? & ? & _ & H).
    injection H as <- _. reflexivity.
Qed.

Lemma selects_fields E unit r :
  selects E unit r = true ->
  indexer r = tvid (ep_show_obj unit) /\
  indexerid r = prodid (ep_show_obj unit) /\
  season r = ep_season unit.
Proof.
  unfold selects. intros H.
  repeat (apply andb_prop in H; destruct H as [H ?]).
  repeat match goal with
         | X : (_ =? _) = true |- _ => apply Z.eqb_eq in X
         end.
  auto.
Qed.

(** Scenario D for any provider: one stored entry is selected for the
    unit, its episode set starts with the unit's episode, and the show
    list, the filters and the provider accept it. *)
Lemma single_entry_single_result E unit manual w r more res :
  query E (provider_cache (db w)) unit = [r] ->
  episodes r = episode_text (ep_episode unit :: more) ->
  ep_season unit <> -1 ->
  find_show_by_id E (tvid (ep_show_obj unit)) (prodid (ep_show_obj unit))
    = Some (ep_show_obj unit) ->
  pass_wordlist_checks E (name r) (ep_show_obj unit) = true ->
  anime_only E && negb (is_anime (ep_show_obj unit)) = false ->
  want_episode E (ep_show_obj unit) (ep_season unit) (ep_episode unit)
               (quality r) manual = true ->
  get_episode E (ep_show_obj unit) (ep_season unit) (ep_episode unit) = unit ->
  get_result E [unit] (url r) = Some res ->
  fst (find_needed_episodes E (One unit) manual w)
  = Ok [(unit, [annotate E (ep_show_obj unit) r res])].
Proof.
  intros Hq Ht Hs Hshow Hw Ha Hwant Hget Hres.
  assert (Hsel : selects E unit r = true).
  { assert (In r (query E (provider_cache (db w)) unit)) as Hin
      by (rewrite Hq; left; reflexivity).
    apply filter_In in Hin. exact (proj2 Hin). }
  destruct (selects_fields E unit r Hsel) as (I1 & I2 & I3).
  assert (P : process_row E manual r
              = Ok (Some (unit, annotate E (ep_show_obj unit) r res))).
  { unfold process_row. rewrite I1, I2, Hshow, Hw, Ha, I3. simpl.
    destruct (Z.eqb_spec (ep_season unit) (-1)); [contradiction|].
    rewrite Ht, first_episode_of_text, Hwant, Hget, Hres. reflexivity. }
  unfold find_needed_episodes, select_all. unfold bind at 1.
  change (concat (map (query E (provider_cache (db w))) (as_list (One unit))))
    with (query E (provider_cache (db w)) unit ++ []).
  rewrite Hq. simpl.
  unfold lift. unfold bind at 1. rewrite P. reflexivity.
Qed.

(** C8 (amended).  Every accepted row yields exactly one result, and the
    result is filed under the episode object that the owning show returns
    for the row's season and the FIRST number of its episode text -- the
    querying unit when that is the unit's own episode.  So for a unit
    wanting season 1 episode 2 at quality Q and a stored entry for season
    1, episodes 2 and 3, quality Q, the dict holds just that unit with
    exactly one result. *)
Theorem results_are_filed_by_first_episode E arg manual w needed w' :
  find_needed_episodes E arg manual w = (Ok needed, w') ->
  let rows := provider_cache (db w) in
  let sql_result := concat (map (query E rows) (as_list arg)) in
  (forall k, default [] (dict_get k needed) =
             filed_under k (accepted E manual sql_result)) /\
  length (concat (map snd needed)) = length (accepted E manual sql_result) /\
  (forall r k v, process_row E manual r = Ok (Some (k, v)) ->
                 row_key E r = Some k) /\
  (forall r unit k v,
     In r (query E rows unit) ->
     process_row E manual r = Ok (Some (k, v)) ->
     first_episode (episodes r) = Ok (Some (ep_episode unit)) ->
     find_show_by_id E (tvid (ep_show_obj unit)) (prodid (ep_show_obj unit))
       = Some (ep_show_obj unit) ->
     get_episode E (ep_show_obj unit) (ep_season unit) (ep_episode unit) = unit ->
     k = unit) /\
  (forall unit r res,
     ep_season unit = 1 -> ep_episode unit = 2 ->
     query E rows unit = [r] ->
     episodes r = episode_text [2; 3] ->
     find_show_by_id E (tvid (ep_show_obj unit)) (prodid (ep_show_obj unit))
       = Some (ep_show_obj unit) ->
     pass_wordlist_checks E (name r) (ep_show_obj unit) = true ->
     anime_only E && negb (is_anime (ep_show_obj unit)) = false ->
     want_episode E (ep_show_obj unit) 1 2 (quality r) manual = true ->
     get_episode E (ep_show_obj unit) 1 2 = unit ->
     get_result E [unit] (url r) = Some res ->
     fst (find_needed_episodes E (One unit) manual w)
     = Ok [(unit, [annotate E (ep_show_obj unit) r res])]).
Proof.
  intros H rows sql_result.
  apply find_needed_episodes_ok in H. fold rows sql_result in H.
  apply process_rows_files in H. destruct H as [H1 H2].
  split; [exact H1|]. split; [exact H2|].
  split; [intros r k v; apply process_row_key|].
  split.
  - intros r unit k v Hin Hp Hf Hs Hg.
    apply process_row_key in Hp. unfold row_key in Hp.
    unfold query in Hin. apply filter_In in Hin. destruct Hin as [_ Hsel].
    destruct (selects_fields E unit r Hsel) as (I1 & I2 & I3).
    rewrite I1, I2, Hs, Hf, I3, Hg in Hp. congruence.
  - intros unit r res S1 E2 Hq Ht Hshow Hw Ha Hwant Hget Hres.
    apply (single_entry_single_result E unit manual w r [3] res);
      rewrite ?S1, ?E2; try assumption. discriminate.
Qed.

(** Witness: scenario D, a search for season 1 episode 2 on a store that
    holds one entry, for episodes 2 and 3. *)
Lemma results_are_filed_by_first_episode_witness :
  let unit := episode_of show1 1 2 in
  let w0 := world_with [stored "Entry" [2; 3]] None None in
  exists res,
    fst (find_needed_episodes env0 (One unit) false w0) = Ok [(unit, [res])].
Proof.
  cbv zeta. eexists.
  refine (proj2 (proj2 (proj2 (proj2
            (results_are_filed_by_first_episode env0
               (One (episode_of show1 1 2)) false
               (world_with [stored "Entry" [2; 3]] None None) _ _ eq_refl))))
            (episode_of show1 1 2) (stored "Entry" [2; 3])
            (blank_result [episode_of show1 1 2] "u0")
            _ _ _ _ _ _ _ _ _ _);
    reflexivity.
Defined.

(** C8, as stated, fails: the entry for episodes 2 and 3 is selected by
    the query bound to the unit for episode 3, and its result is filed
    under the episode object of episode 2; the querying unit gets none. *)
Lemma result_filed_under_other_unit_counterexample :
  let unit := episode_of show1 1 3 in
  let other := episode_of show1 1 2 in
  let w0 := world_with [stored "Entry" [2; 3]] None None in
  query env0 (provider_cache (db w0)) unit = [stored "Entry" [2; 3]] /\
  other <> unit /\
  exists res,
    fst (find_needed_episodes env0 (One unit) false w0) = Ok [(other, [res])] /\
    dict_get unit [(other, [res])] = None.
Proof.
  cbv zeta. split; [reflexivity|]. split; [discriminate|].
  eexists. split; reflexivity.
Qed.

(** *** The lookup of [search_cache] (lines 338-341) *)

(** C10.  Whenever [find_needed_episodes] returns a non-empty dict without
    the requested episode object among its keys, [search_cache] ends in an
    uncaught [KeyError]; and such an input exists: a stored entry for
    episodes 2 and 3 and a request for episode 3. *)
Theorem search_cache_key_error :
  (forall E ep manual w needed w',
     find_needed_episodes E (One ep) manual w = (Ok needed, w') ->
     needed <> [] ->
     dict_get ep needed = None ->
     search_cache E ep manual w = (Raise KeyError, w')) /\
  (let w0 := world_with [stored "Entry" [2; 3]] None None in
   fst (search_cache env0 (episode_of show1 1 3) false w0) = Raise KeyError).
Proof.
  split; [|reflexivity].
  intros E ep manual w needed w' H Hne Hget.
  unfold search_cache. rewrite (bind_ok _ _ _ _ _ H).
  destruct needed as [|kv rest]; [contradiction|]. simpl length. simpl negb.
  cbv iota. rewrite Hget. reflexivity.
Qed.

(** Witness. *)
Lemma search_cache_key_error_witness :
  let w0 := world_with [stored "Entry" [2; 3]] None None in
  let ep := episode_of show1 1 3 in
  search_cache env0 ep false w0 =
  (Raise KeyError, snd (find_needed_episodes env0 (One ep) false w0)).
Proof.
  cbv zeta.
  eapply (proj1 search_cache_key_error env0 (episode_of show1 1 3) false
            (world_with [stored "Entry" [2; 3]] None None)).
  - reflexivity.
  - discriminate.
  - reflexivity.
Defined.

(** The request for episode 2 on the same store is answered. *)
Example search_cache_first_episode :
  let w0 := world_with [stored "Entry" [2; 3]] None None in
  exists res, fst (search_cache env0 (episode_of show1 1 2) false w0) = Ok [res].
Proof. cbv zeta. eexists. reflexivity. Qed.

End CacheSpec.

(* ===================================================================== *)
(** ** Further properties of the scheduler                                *)
(* ===================================================================== *)

Module SchedMore.
Import Py Sched SchedExamples MoreExamples SchedSpec.

(** *** The shape of a pass *)

Lemma prevented_set_last_run s a t : prevented (set_last_run s t) a = prevented s a.
Proof. reflexivity. Qed.

Lemma interval_check_keeps s t :
  let s1 := fst (fst (interval_check s t)) in
  cycle_time s1 = cycle_time s /\ prevent_cycle_run s1 = prevent_cycle_run s /\
  force s1 = force s /\ silent s1 = silent s /\
  (last_run s1 = last_run s \/ last_run s1 = t).
Proof.
  unfold interval_check.
  destruct (cycle_time s <=? t - last_run s); [|simpl; auto 6].
  destruct (start_time s); [|simpl; auto 6].
  destruct (_ && _); simpl; auto 6.
Qed.

Lemma run_pass_of_decision s a t s1 tr1 :
  getattr_truthy (is_enabled a) true = true ->
  decide_run s a t = (s1, Ok true, tr1) ->
  run_pass s a t =
  (clear_force (set_last_run s1 t), tr1 ++ snd (execute s1 a t) ++ [EvSleep 1], Normal).
Proof. intros En D. unfold run_pass. rewrite En, D. reflexivity. Qed.

Lemma execute_calls_action s a t : In EvActionRun (snd (execute s a t)).
Proof.
  unfold execute. simpl. right. apply in_or_app. right. left. reflexivity.
Qed.

Lemma decide_run_not_due s a t :
  force s = false -> t - last_run s < cycle_time s ->
  decide_run s a t = (s, Ok false, []).
Proof.
  intros F L. unfold decide_run, interval_check.
  destruct (Z.leb_spec (cycle_time s) (t - last_run s)); [lia|].
  rewrite F. reflexivity.
Qed.

(** What a pass leaves behind, whichever way it goes. *)
Lemma run_pass_state s a t :
  let s' := fst (fst (run_pass s a t)) in
  cycle_time s' = cycle_time s /\
  (last_run s' = last_run s \/ last_run s' = t) /\
  (getattr_truthy (is_enabled a) true = true -> force s' = false).
Proof.
  unfold run_pass. destruct (getattr_truthy (is_enabled a) true).
  2:{ simpl. split; [reflexivity|]. split; [auto|discriminate]. }
  unfold decide_run.
  destruct (interval_check_keeps s t) as (C & _ & _ & _ & L).
  destruct (interval_check s t) as [[s1 sr] tr1]. simpl in C, L.
  destruct (if force s1 then true else sr).
  - destruct (prevented s1 a) as [[|]|e]; simpl;
      rewrite ?clear_force_last_run, ?clear_force_force;
      unfold clear_force; simpl;
      repeat match goal with |- context [if ?b then _ else _] => destruct b end;
      simpl; auto.
  - simpl. rewrite clear_force_last_run, clear_force_force.
    unfold clear_force. destruct (force s1); simpl; auto.
Qed.

(** *** Natural runs (lines 96-106 and 118-125) *)

(** X1.  With no anchor, the force flag clear and nothing preventing, a
    pass runs the action exactly when the interval has elapsed; it then
    sets [last_run] to the tick's time, and otherwise it only sleeps one
    second and changes nothing. *)
Theorem runs_exactly_when_due s a now :
  getattr_truthy (is_enabled a) true = true ->
  start_time s = None ->
  force s = false ->
  prevented s a = Ok false ->
  (In EvActionRun (snd (fst (run_pass s a now))) <->
   cycle_time s <= now - last_run s) /\
  (cycle_time s <= now - last_run s ->
   last_run (fst (fst (run_pass s a now))) = now) /\
  (now - last_run s < cycle_time s ->
   run_pass s a now = (s, [EvSleep 1], Normal)).
Proof.
  intros En St F P.
  assert (Due : cycle_time s <= now - last_run s ->
                run_pass s a now =
                (clear_force (set_last_run s now),
                 [] ++ snd (execute s a now) ++ [EvSleep 1], Normal)).
  { intros L. apply run_pass_of_decision; [exact En|].
    unfold decide_run, interval_check. rewrite St.
    destruct (Z.leb_spec (cycle_time s) (now - last_run s)); [|lia].
    rewrite F, P. reflexivity. }
  assert (NotDue : now - last_run s < cycle_time s ->
                   run_pass s a now = (s, [EvSleep 1], Normal)).
  { intros L. unfold run_pass. rewrite En, (decide_run_not_due s a now F L).
    unfold clear_force. rewrite F. reflexivity. }
  split; [split|split].
  - intros H. destruct (Z.le_gt_cases (cycle_time s) (now - last_run s)) as [L|L];
      [exact L|].
    rewrite (NotDue ltac:(lia)) in H. simpl in H. destruct H as [H|[]]. discriminate.
  - intros L. rewrite (Due L).
    change (In EvActionRun ([] ++ snd (execute s a now) ++ [EvSleep 1])).
    apply in_or_app. right. apply in_or_app. left. apply execute_calls_action.
  - intros L. rewrite (Due L). simpl. apply clear_force_last_run.
  - exact NotDue.
Qed.

(** Witness: scenario A, eleven minutes into a ten minute cycle. *)
Lemma runs_exactly_when_due_witness :
  In EvActionRun (snd (fst (run_pass ten_minutes (plain_action (Ok tt)) (at_time 12 0)))) /\
  last_run (fst (fst (run_pass ten_minutes (plain_action (Ok tt)) (at_time 12 0))))
    = at_time 12 0.
Proof.
  pose proof (runs_exactly_when_due ten_minutes (plain_action (Ok tt)) (at_time 12 0)
                eq_refl eq_refl eq_refl eq_refl) as (H1 & H2 & _).
  split.
  - apply H1. vm_compute. discriminate.
  - apply H2. vm_compute. discriminate.
Defined.

Lemma after_a_run s a t :
  In EvActionRun (snd (fst (run_pass s a t))) ->
  let s1 := fst (fst (run_pass s a t)) in
  last_run s1 = t /\ force s1 = false /\ cycle_time s1 = cycle_time s.
Proof.
  intros Ran s1.
  assert (En : getattr_truthy (is_enabled a) true = true).
  { unfold run_pass in Ran. destruct (getattr_truthy (is_enabled a) true);
      [reflexivity|]. simpl in Ran. destruct Ran as [H|[H|[]]]; discriminate. }
  destruct (run_pass_action_decided s a t Ran) as (s0 & tr0 & D).
  assert (S1 : s1 = clear_force (set_last_run s0 t)).
  { unfold s1. rewrite (run_pass_of_decision s a t s0 tr0 En D). reflexivity. }
  split; [rewrite S1; apply clear_force_last_run|].
  split; [rewrite S1; apply clear_force_force|].
  exact (proj1 (run_pass_state s a t)).
Qed.

Lemma no_run_before_due s a t :
  force s = false -> t - last_run s < cycle_time s ->
  ~ In EvActionRun (snd (fst (run_pass s a t))).
Proof.
  intros F L Again. apply run_pass_action_decided in Again.
  destruct Again as (s2 & tr2 & D2).
  rewrite (decide_run_not_due s a t F L) in D2. discriminate.
Qed.

(** X2.  Two runs of the action are at least one cycle time apart unless a
    run is forced in between: after a pass that ran the action at [t1], a
    pass at [t2] with [t2 - t1 < cycle_time] does not run it, whatever the
    action's state is then. *)
Theorem runs_are_a_cycle_apart s a a' t1 t2 :
  In EvActionRun (snd (fst (run_pass s a t1))) ->
  t2 - t1 < cycle_time s ->
  let s1 := fst (fst (run_pass s a t1)) in
  last_run s1 = t1 /\ force s1 = false /\
  ~ In EvActionRun (snd (fst (run_pass s1 a' t2))).
Proof.
  intros Ran Close s1.
  destruct (after_a_run s a t1 Ran) as (L1 & F1 & C1). fold s1 in L1, F1, C1.
  split; [exact L1|]. split; [exact F1|].
  apply no_run_before_due; [exact F1|]. rewrite L1, C1. exact Close.
Qed.

(** Witness: a run at 12:00 and a tick five minutes later. *)
Lemma runs_are_a_cycle_apart_witness :
  let s1 := fst (fst (run_pass ten_minutes (plain_action (Ok tt)) (at_time 12 0))) in
  last_run s1 = at_time 12 0 /\ force s1 = false /\
  ~ In EvActionRun (snd (fst (run_pass s1 (plain_action (Ok tt)) (at_time 12 5)))).
Proof.
  apply (runs_are_a_cycle_apart ten_minutes (plain_action (Ok tt))
           (plain_action (Ok tt)) (at_time 12 0) (at_time 12 5)).
  - vm_compute. tauto.
  - reflexivity.
Defined.

(** *** Forced runs (lines 71-75, 108-109, 130-132) *)

Lemma prevented_same s s1 a :
  prevent_cycle_run s1 = prevent_cycle_run s -> prevented s1 a = prevented s a.
Proof. intros H. unfold prevented. rewrite H. reflexivity. Qed.

Lemma decide_run_forced s a t :
  force s = true -> prevented s a = Ok false ->
  exists s1 tr1, decide_run s a t = (s1, Ok true, tr1).
Proof.
  intros F P. unfold decide_run.
  destruct (interval_check_keeps s t) as (_ & PC & F1 & _).
  destruct (interval_check s t) as [[s1 sr] tr1]. simpl in PC, F1.
  rewrite F1, F, (prevented_same s s1 a PC), P. eauto.
Qed.

(** X3.  [force_run()] is refused, without any effect, while the action is
    active.  Otherwise it returns True, and the next pass runs the action
    whatever the interval and the start-time window say (unless a prevent
    signal is up), sets [last_run] to the tick's time and clears the flag:
    a tick later within the cycle time does not run the action again. *)
Theorem forced_run_is_one_shot s0 a now :
  (amActive a = true -> force_run s0 a = (s0, false)) /\
  (amActive a = false ->
   getattr_truthy (is_enabled a) true = true ->
   prevented s0 a = Ok false ->
   let s := fst (force_run s0 a) in
   let s' := fst (fst (run_pass s a now)) in
   snd (force_run s0 a) = true /\
   In EvActionRun (snd (fst (run_pass s a now))) /\
   last_run s' = now /\ force s' = false /\
   (forall a' t2, t2 - now < cycle_time s0 ->
                  ~ In EvActionRun (snd (fst (run_pass s' a' t2))))).
Proof.
  split.
  - intros Act. unfold force_run. rewrite Act. reflexivity.
  - intros Act En P s s'.
    assert (FR : force_run s0 a = (set_force s0 true, true))
      by (unfold force_run; rewrite Act; reflexivity).
    assert (Hs : s = set_force s0 true) by (unfold s; rewrite FR; reflexivity).
    destruct (decide_run_forced s a now) as (s1 & tr1 & D).
    { rewrite Hs. reflexivity. }
    { rewrite Hs. exact P. }
    assert (Ran : In EvActionRun (snd (fst (run_pass s a now)))).
    { rewrite (run_pass_of_decision s a now s1 tr1 En D).
      change (In EvActionRun (tr1 ++ snd (execute s1 a now) ++ [EvSleep 1])).
      apply in_or_app. right. apply in_or_app. left. apply execute_calls_action. }
    split; [rewrite FR; reflexivity|]. split; [exact Ran|].
    destruct (after_a_run s a now Ran) as (L1 & F1 & C1). fold s' in L1, F1, C1.
    split; [exact L1|]. split; [exact F1|].
    intros a' t2 Close. apply no_run_before_due; [exact F1|].
    rewrite L1, C1, Hs. exact Close.
Qed.

(** Witness: a forced run one minute after the last run, and no second
    run five minutes later. *)
Lemma forced_run_is_one_shot_witness :
  let a := plain_action (Ok tt) in
  let s := fst (force_run ten_minutes a) in
  let s' := fst (fst (run_pass s a (at_time 11 50))) in
  snd (force_run ten_minutes a) = true /\
  In EvActionRun (snd (fst (run_pass s a (at_time 11 50)))) /\
  last_run s' = at_time 11 50 /\ force s' = false /\
  (forall a' t2, t2 - at_time 11 50 < cycle_time ten_minutes ->
                 ~ In EvActionRun (snd (fst (run_pass s' a' t2)))).
Proof.
  exact (proj2 (forced_run_is_one_shot ten_minutes (plain_action (Ok tt))
                  (at_time 11 50)) eq_refl eq_refl eq_refl).
Defined.

(** *** Prevented cycles (lines 111-116) *)

(** Whether the pass is due before the prevent signals are looked at:
    forced, or the interval elapsed with no anchor to consult. *)
Lemma due_before_prevent s t :
  force s = true \/ (start_time s = None /\ cycle_time s <= t - last_run s) ->
  (if force (fst (fst (interval_check s t))) then true
   else snd (fst (interval_check s t))) = true.
Proof.
  intros [F|[St L]].
  - rewrite interval_check_force, F. reflexivity.
  - rewrite interval_check_force. destruct (force s); [reflexivity|].
    unfold interval_check. rewrite St.
    destruct (Z.leb_spec (cycle_time s) (t - last_run s)); [reflexivity|lia].
Qed.

(** X4.  While [prevent_cycle_run()] returns true or the action carries a
    true [prevent_run], no pass runs the action, forced or not; a pass
    that was due then logs the skip and sets [last_run] to the tick's
    time, so that the next attempt is one cycle time away. *)
Theorem prevented_pass_never_runs s a now :
  getattr_truthy (is_enabled a) true = true ->
  prevented s a = Ok true ->
  let s' := fst (fst (run_pass s a now)) in
  let tr := snd (fst (run_pass s a now)) in
  ~ In EvActionRun tr /\
  snd (run_pass s a now) = Normal /\
  force s' = false /\
  (force s = true \/ (start_time s = None /\ cycle_time s <= now - last_run s) ->
   In EvWarnSkip tr /\ last_run s' = now /\
   forall a' t2, t2 - now < cycle_time s ->
                 ~ In EvActionRun (snd (fst (run_pass s' a' t2)))).
Proof.
  intros En P s' tr.
  assert (NoRun : ~ In EvActionRun tr).
  { intros H. apply run_pass_action_decided in H. destruct H as (s1 & tr1 & D).
    unfold decide_run in D.
    destruct (interval_check_keeps s now) as (_ & PC & _).
    destruct (interval_check s now) as [[s0 sr] tr0]. simpl in PC.
    rewrite (prevented_same s s0 a PC), P in D.
    destruct (if force s0 then true else sr); discriminate. }
  split; [exact NoRun|].
  assert (Shape : snd (run_pass s a now) = Normal /\
    (force s = true \/ (start_time s = None /\ cycle_time s <= now - last_run s) ->
     In EvWarnSkip tr /\ last_run s' = now)).
  { unfold s', tr, run_pass. rewrite En. unfold decide_run.
    pose proof (due_before_prevent s now) as Due.
    destruct (interval_check_keeps s now) as (_ & PC & _).
    destruct (interval_check s now) as [[s0 sr] tr0]. simpl in PC, Due.
    rewrite (prevented_same s s0 a PC), P.
    destruct (if force s0 then true else sr).
    - split; [reflexivity|]. intros _. simpl. split.
      + apply in_or_app. left. apply in_or_app. right. left. reflexivity.
      + rewrite clear_force_last_run. reflexivity.
    - split; [reflexivity|]. intros D. apply Due in D. discriminate. }
  destruct Shape as [N W].
  split; [exact N|].
  split; [exact (proj2 (proj2 (run_pass_state s a now)) En)|].
  intros D. destruct (W D) as [W1 W2]. split; [exact W1|]. split; [exact W2|].
  intros a' t2 Close. apply no_run_before_due.
  - exact (proj2 (proj2 (run_pass_state s a now)) En).
  - pose proof (proj1 (run_pass_state s a now)) as C.
    change (cycle_time s' = cycle_time s) in C.
    change (t2 - last_run s' < cycle_time s'). rewrite W2, C. exact Close.
Qed.

(** Witness: a due pass under a true [prevent_cycle_run()]. *)
Lemma prevented_pass_never_runs_witness :
  let s := guarded (Some (Ok true)) false in
  let a := plain_action (Ok tt) in
  ~ In EvActionRun (snd (fst (run_pass s a (at_time 12 0)))) /\
  In EvWarnSkip (snd (fst (run_pass s a (at_time 12 0)))) /\
  last_run (fst (fst (run_pass s a (at_time 12 0)))) = at_time 12 0.
Proof.
  cbv zeta.
  pose proof (prevented_pass_never_runs (guarded (Some (Ok true)) false)
                (plain_action (Ok tt)) (at_time 12 0) eq_refl eq_refl)
    as (H1 & _ & _ & H2).
  split; [exact H1|].
  destruct H2 as (H3 & H4 & _).
  - right. split; [reflexivity|]. vm_compute. discriminate.
  - split; assumption.
Defined.

(** X5.  An exception raised by [prevent_cycle_run()] is not caught: in a
    pass that is due it leaves [run], the thread ends there without
    running the action and without reaching later ticks; only the force
    flag is still cleared by the [finally] clause. *)
Theorem raising_prevent_callable_ends_thread s a now e rest :
  getattr_truthy (is_enabled a) true = true ->
  prevent_cycle_run s = Some (Raise e) ->
  force s = true \/ (start_time s = None /\ cycle_time s <= now - last_run s) ->
  snd (run_pass s a now) = Propagated e /\
  ~ In EvActionRun (snd (fst (run_pass s a now))) /\
  force (fst (fst (run_pass s a now))) = false /\
  (_unpause s = true -> _stopper s = false ->
   run_loop (quiet_tick now a :: rest) s =
   (fst (fst (run_pass s a now)), snd (fst (run_pass s a now)), Died e)).
Proof.
  intros En PC Due.
  assert (P : prevented s a = Raise e) by (unfold prevented; rewrite PC; reflexivity).
  assert (R : exists s1 tr1,
             run_pass s a now = (clear_force s1, tr1, Propagated e) /\
             ~ In EvActionRun tr1).
  { pose proof (decide_run_no_action s a now) as N.
    unfold run_pass. rewrite En. unfold decide_run in *.
    pose proof (due_before_prevent s now Due) as D.
    destruct (interval_check_keeps s now) as (_ & PC1 & _).
    destruct (interval_check s now) as [[s0 sr] tr0]. simpl in PC1, D.
    rewrite D in *. rewrite (prevented_same s s0 a PC1), P in *.
    exists s0, tr0. split; [reflexivity|exact N]. }
  destruct R as (s1 & tr1 & R & N). rewrite R. simpl.
  split; [reflexivity|]. split; [exact N|]. split; [apply clear_force_force|].
  intros U St. unfold quiet_tick. simpl. rewrite U, St. simpl. rewrite R. reflexivity.
Qed.

(** Witness: a due pass whose [prevent_cycle_run()] raises. *)
Lemma raising_prevent_callable_ends_thread_witness :
  let s := guarded (Some (Raise RuntimeError)) false in
  let a := plain_action (Ok tt) in
  run_loop [quiet_tick (at_time 12 0) a; quiet_tick (at_time 12 30) a] s =
  (fst (fst (run_pass s a (at_time 12 0))),
   snd (fst (run_pass s a (at_time 12 0))), Died RuntimeError).
Proof.
  cbv zeta.
  refine (proj2 (proj2 (proj2 (raising_prevent_callable_ends_thread
            (guarded (Some (Raise RuntimeError)) false) (plain_action (Ok tt))
            (at_time 12 0) RuntimeError [quiet_tick (at_time 12 30) (plain_action (Ok tt))]
            eq_refl eq_refl _))) eq_refl eq_refl).
  right. split; [reflexivity|]. vm_compute. discriminate.
Defined.

(** *** [last_run] over the life of the thread *)

Lemma apply_calls_keep s a calls :
  let s0 := fold_left (apply_call a) calls s in
  last_run s0 = last_run s /\ cycle_time s0 = cycle_time s.
Proof.
  revert s. induction calls as [|c calls IH]; intros s; simpl; [auto|].
  destruct (IH (apply_call a s c)) as [L C]. rewrite L, C.
  destruct c; simpl; unfold force_run; try destruct (negb (amActive a)); auto.
Qed.

Lemma last_run_grows ticks : forall s,
  StronglySorted Z.le (map tk_now ticks) ->
  Forall (fun tk => last_run s <= tk_now tk) ticks ->
  last_run s <= last_run (fst (fst (run_loop ticks s))) /\
  cycle_time (fst (fst (run_loop ticks s))) = cycle_time s.
Proof.
  induction ticks as [|tk rest IH]; intros s Srt Ahead; simpl;
    [split; [lia|reflexivity]|].
  destruct (apply_calls_keep s (tk_action tk) (tk_calls tk)) as [L0 C0].
  set (s0 := fold_left (apply_call (tk_action tk)) (tk_calls tk) s) in *.
  destruct (negb (_unpause s0)); [simpl; split; [lia|exact C0]|].
  destruct (_stopper s0); [simpl; split; [lia|exact C0]|].
  destruct (run_pass_state s0 (tk_action tk) (tk_now tk)) as (C1 & L1 & _).
  destruct (run_pass s0 (tk_action tk) (tk_now tk)) as [[s1 tr] en].
  simpl in C1, L1.
  simpl in Srt. apply StronglySorted_inv in Srt. destruct Srt as [Srt Hall].
  apply Forall_cons_iff in Ahead. destruct Ahead as [Hle Ahead].
  assert (Up : last_run s <= last_run s1) by (destruct L1; lia).
  destruct en as [|e]; [|simpl; split; [exact Up|congruence]].
  assert (Ahead1 : Forall (fun tk' => last_run s1 <= tk_now tk') rest).
  { destruct L1 as [L1|L1]; rewrite L1.
    - rewrite L0. exact Ahead.
    - apply List.Forall_forall. intros tk' I.
      rewrite List.Forall_forall in Hall. apply Hall.
      apply in_map. exact I. }
  destruct (IH s1 Srt Ahead1) as [IH1 IH2].
  destruct (run_loop rest s1) as [[s2 tr2] st]. simpl in *.
  split; [lia|congruence].
Qed.

(** X6.  For a scheduler whose [last_run] is not ahead of the clock (no
    coming tick is earlier than it) and a clock that does not go back
    (the tick times ascend), [last_run] never decreases: after any number
    of loop passes it is at or after the initial one, and after more
    passes it is at or after what it was after fewer, whatever calls
    other threads make and however the thread ends; and the cycle time is
    never changed. *)
Theorem last_run_never_goes_back pre : forall post s,
  StronglySorted Z.le (map tk_now (pre ++ post)) ->
  Forall (fun tk => last_run s <= tk_now tk) (pre ++ post) ->
  last_run s <= last_run (fst (fst (run_loop pre s))) /\
  last_run (fst (fst (run_loop pre s)))
    <= last_run (fst (fst (run_loop (pre ++ post) s))) /\
  cycle_time (fst (fst (run_loop (pre ++ post) s))) = cycle_time s.
Proof.
  induction pre as [|tk rest IH]; intros post s Srt Ahead.
  - destruct (last_run_grows post s Srt Ahead) as [L C]. simpl.
    split; [lia|]. split; [exact L|exact C].
  - change ((tk :: rest) ++ post) with (tk :: (rest ++ post)) in *.
    simpl run_loop.
    destruct (apply_calls_keep s (tk_action tk) (tk_calls tk)) as [L0 C0].
    set (s0 := fold_left (apply_call (tk_action tk)) (tk_calls tk) s) in *.
    destruct (negb (_unpause s0)); [simpl; split; [lia|split; [lia|exact C0]]|].
    destruct (_stopper s0); [simpl; split; [lia|split; [lia|exact C0]]|].
    destruct (run_pass_state s0 (tk_action tk) (tk_now tk)) as (C1 & L1 & _).
    destruct (run_pass s0 (tk_action tk) (tk_now tk)) as [[s1 tr] en].
    simpl in C1, L1.
    simpl in Srt. apply StronglySorted_inv in Srt. destruct Srt as [Srt Hall].
    apply Forall_cons_iff in Ahead. destruct Ahead as [Hle Ahead].
    assert (Up : last_run s <= last_run s1) by (destruct L1; lia).
    destruct en as [|e]; [|simpl; split; [exact Up|split; [lia|congruence]]].
    assert (Ahead1 : Forall (fun tk' => last_run s1 <= tk_now tk') (rest ++ post)).
    { destruct L1 as [L1|L1]; rewrite L1.
      - rewrite L0. exact Ahead.
      - apply List.Forall_forall. intros tk' I.
        rewrite List.Forall_forall in Hall. apply Hall.
        apply in_map. exact I. }
    destruct (IH post s1 Srt Ahead1) as (IH1 & IH2 & IH3).
    destruct (run_loop rest s1) as [[sa tra] sta].
    destruct (run_loop (rest ++ post) s1) as [[sb trb] stb]. simpl in *.
    split; [lia|]. split; [exact IH2|congruence].
Qed.

(** Witness: a scheduler built at 11:00 with the default delay, a run at
    12:00 and a tick at 12:05. *)
Lemma last_run_never_goes_back_witness :
  let a := plain_action (Ok tt) in
  let s := init (at_time 11 0) (minutes 10) 0 None true None false in
  last_run s <= last_run (fst (fst (run_loop [quiet_tick (at_time 12 0) a] s))) /\
  last_run (fst (fst (run_loop [quiet_tick (at_time 12 0) a] s)))
    <= last_run (fst (fst (run_loop
         ([quiet_tick (at_time 12 0) a] ++ [quiet_tick (at_time 12 5) a]) s))).
Proof.
  cbv zeta.
  destruct (last_run_never_goes_back
              [quiet_tick (at_time 12 0) (plain_action (Ok tt))]
              [quiet_tick (at_time 12 5) (plain_action (Ok tt))]
              (init (at_time 11 0) (minutes 10) 0 None true None false))
    as (A & B & _).
  - repeat constructor; vm_compute; discriminate.
  - repeat constructor; vm_compute; discriminate.
  - split; [exact A | exact B].
Defined.

(** X7.  Right after a pass that ran the action, [time_left()] is the full
    cycle time, and [d] later it is the cycle time less [d]: the next
    natural run is due exactly when it reaches zero. *)
Theorem time_left_restarts_after_run s a now d :
  In EvActionRun (snd (fst (run_pass s a now))) ->
  let s' := fst (fst (run_pass s a now)) in
  time_left s' (now + d) = cycle_time s - d /\
  (time_left s' (now + d) <= 0 <-> cycle_time s' <= (now + d) - last_run s').
Proof.
  intros Ran s'.
  destruct (after_a_run s a now Ran) as (L & _ & C). fold s' in L, C.
  unfold time_left. rewrite L, C. split; lia.
Qed.

(** Witness: five minutes after the run of 12:00, five minutes are left. *)
Lemma time_left_restarts_after_run_witness :
  let s' := fst (fst (run_pass ten_minutes (plain_action (Ok tt)) (at_time 12 0))) in
  time_left s' (at_time 12 0 + minutes 5) = cycle_time ten_minutes - minutes 5.
Proof.
  cbv zeta.
  refine (proj1 (time_left_restarts_after_run ten_minutes (plain_action (Ok tt))
                   (at_time 12 0) (minutes 5) _)).
  vm_compute. tauto.
Defined.

(** *** Stopping and starting (lines 54-66, 77-88, 139-141) *)

Lemma fold_calls_app a calls c s :
  fold_left (apply_call a) (calls ++ [c]) s =
  apply_call a (fold_left (apply_call a) calls s) c.
Proof. rewrite fold_left_app. reflexivity. Qed.

(** X8.  [stopit()] ends the thread at the next loop test even when the
    scheduler is paused: the action is not run in that pass, later ticks
    are not reached, and both events are left cleared, with [last_run]
    where it was. *)
Theorem stopit_ends_paused_or_running_thread s tk calls rest :
  tk_calls tk = calls ++ [CallStopit] ->
  exists s',
    run_loop (tk :: rest) s = (s', [], Exited) /\
    _unpause s' = false /\ _stopper s' = false /\
    last_run s' = last_run s /\ force s' = force (fold_left (apply_call (tk_action tk)) calls s).
Proof.
  intros Hc. simpl. rewrite Hc, fold_calls_app.
  set (s0 := fold_left (apply_call (tk_action tk)) calls s).
  destruct (apply_calls_keep s (tk_action tk) calls) as [L _]. fold s0 in L.
  simpl. eexists. split; [reflexivity|]. simpl. auto.
Qed.

(** Witness: a paused scheduler is stopped. *)
Lemma stopit_ends_paused_or_running_thread_witness :
  exists s',
    run_loop [ {| tk_calls := [CallStopit]; tk_now := at_time 12 0;
                  tk_action := plain_action (Ok tt) |};
               quiet_tick (at_time 12 30) (plain_action (Ok tt)) ]
             (pause ten_minutes) = (s', [], Exited) /\
    _unpause s' = false /\ _stopper s' = false /\
    last_run s' = last_run (pause ten_minutes) /\
    force s' = force (pause ten_minutes).
Proof.
  exact (stopit_ends_paused_or_running_thread (pause ten_minutes)
           {| tk_calls := [CallStopit]; tk_now := at_time 12 0;
              tk_action := plain_action (Ok tt) |} []
           [quiet_tick (at_time 12 30) (plain_action (Ok tt))] eq_refl).
Defined.

(** X9.  A thread started for an action whose [is_enabled()] returns
    False pauses itself before the first pass: as long as no other thread
    calls in, nothing is run and [last_run] stays; started for an enabled
    action, the scheduler is unpaused and not silent. *)
Theorem thread_of_disabled_action_waits s a0 b tk rest :
  is_enabled a0 = Method b ->
  tk_calls tk = [] ->
  (b = false ->
   exists tr,
     run_thread (tk :: rest) a0 s = (pause (set_silent s true), tr, Waiting) /\
     ~ In EvActionRun tr) /\
  (b = true ->
   set_paused_state s a0 = Ok (unpause (set_silent s false))).
Proof.
  intros He Hc. split; intros ->.
  - unfold run_thread, set_paused_state. rewrite He. simpl. rewrite Hc. simpl.
    eexists. split; [reflexivity|].
    rewrite app_nil_r. destruct (load_queue a0); simpl; intuition discriminate.
  - unfold set_paused_state. rewrite He. reflexivity.
Qed.

(** Witness: [SubtitlesFinder] with subtitles switched off. *)
Lemma thread_of_disabled_action_waits_witness :
  exists tr,
    run_thread [quiet_tick (at_time 12 0) (subtitles_finder false (Ok tt))]
               (subtitles_finder false (Ok tt)) ten_minutes
    = (pause (set_silent ten_minutes true), tr, Waiting) /\
    ~ In EvActionRun tr.
Proof.
  exact (proj1 (thread_of_disabled_action_waits ten_minutes
                  (subtitles_finder false (Ok tt)) false
                  (quiet_tick (at_time 12 0) (subtitles_finder false (Ok tt))) []
                  eq_refl eq_refl) eq_refl).
Defined.

End SchedMore.

(* ===================================================================== *)
(** ** Further properties of the provider cache                           *)
(* ===================================================================== *)

Module CacheMore.
Import Py Cache CacheAux CacheExamples MoreCacheExamples CacheSpec.
Local Open Scope cache_scope.

(** *** The refresh interval (lines 96, 119, 164-180, 231-238) *)

(** X10.  While [should_update()] is false, [update_cache()] neither
    fetches nor writes: it returns None with the store and the list of
    statements as they were, whatever the provider's feed holds; only the
    clock has been read. *)
Theorem no_refresh_before_interval E w :
  check_auth E = Ok tt ->
  fst (should_update E w) = Ok false ->
  update_cache E w = (Ok ReturnedNone, snd (should_update E w)) /\
  db (snd (update_cache E w)) = db w /\
  log (snd (update_cache E w)) = log w.
Proof.
  intros Auth Due.
  destruct (reads_only_should_update E w) as (due & w1 & E1 & D1 & L1).
  rewrite E1 in Due. simpl in Due. injection Due as ->.
  assert (U : update_cache E w = (Ok ReturnedNone, w1)).
  { unfold update_cache. rewrite Auth, (bind_ok _ _ _ _ _ E1). reflexivity. }
  rewrite U, E1. simpl. auto.
Qed.

(** Witness: refreshed 100 seconds before the clock's first reading, with
    a ten minute interval. *)
Lemma no_refresh_before_interval_witness :
  let w := world_with [stored "Old" [2; 3]] (Some 999900) None in
  update_cache env0 w = (Ok ReturnedNone, snd (should_update env0 w)) /\
  db (snd (update_cache env0 w)) = db w /\
  log (snd (update_cache env0 w)) = log w.
Proof.
  exact (no_refresh_before_interval env0
           (world_with [stored "Old" [2; 3]] (Some 999900) None) eq_refl eq_refl).
Defined.

Lemma should_update_stored E w t :
  lastUpdate (db w) !! providerID E = Some t ->
  should_update E w =
  (Ok (update_iv E * 60 <=?
       fromtimestamp E (clock E (reads w))
       - fromtimestamp E (if clock E (S (reads w)) <? t then 0 else t)),
   tick (tick w)).
Proof.
  intros H. unfold should_update, datetime_now. unfold bind at 1.
  rewrite (bind_ok _ _ _ _ _ (get_last_update_stored E (tick w) t H)).
  reflexivity.
Qed.

Lemma update_cache_ok_stamped E w r w' :
  check_auth E = Ok tt ->
  fst (should_update E w) = Ok true ->
  update_cache E w = (Ok r, w') -> refresh_stamped E w'.
Proof.
  intros Auth Due H.
  destruct (reads_only_should_update E w) as (due & w1 & E1 & _).
  rewrite E1 in Due. simpl in Due. injection Due as ->.
  unfold update_cache in H. rewrite Auth, (bind_ok _ _ _ _ _ E1) in H.
  apply bind_ok_inv in H. destruct H as (u & w2 & R & H).
  injection H as _ <-. eapply refresh_ok_stamped. exact R.
Qed.

(** X11.  A refresh that returned is not repeated at once: the stamp it
    leaves makes the next [update_cache()] a no-op for as long as the
    local time read is less than [update_iv] minutes after the stamped
    instant (and the stamp is not ahead of the clock). *)
Theorem stamp_holds_off_next_refresh E w r w' :
  check_auth E = Ok tt ->
  fst (should_update E w) = Ok true ->
  update_cache E w = (Ok r, w') ->
  let t := stamp_at E (Nat.pred (reads w')) in
  t <= clock E (S (reads w')) ->
  fromtimestamp E (clock E (reads w')) - fromtimestamp E t < update_iv E * 60 ->
  lastUpdate (db w') !! providerID E = Some t /\
  fst (should_update E w') = Ok false /\
  fst (update_cache E w') = Ok ReturnedNone /\
  db (snd (update_cache E w')) = db w' /\
  log (snd (update_cache E w')) = log w'.
Proof.
  intros Auth Due H t Past Close.
  pose proof (update_cache_ok_stamped E w r w' Auth Due H) as (i & before & R & L & _).
  assert (Hi : Nat.pred (reads w') = i) by (rewrite R; reflexivity).
  unfold t in *. rewrite Hi in *.
  assert (SU : fst (should_update E w') = Ok false).
  { rewrite (should_update_stored E w' _ L). simpl.
    destruct (Z.ltb_spec (clock E (S (reads w'))) (stamp_at E i)); [lia|].
    destruct (Z.leb_spec (update_iv E * 60)
                (fromtimestamp E (clock E (reads w')) - fromtimestamp E (stamp_at E i)));
      [lia|reflexivity]. }
  split; [exact L|]. split; [exact SU|].
  destruct (reads_only_should_update E w') as (due & w1 & E1 & D1 & L1).
  rewrite E1 in SU. simpl in SU. injection SU as ->.
  assert (U : update_cache E w' = (Ok ReturnedNone, w1)).
  { unfold update_cache. rewrite Auth, (bind_ok _ _ _ _ _ E1). reflexivity. }
  rewrite U. simpl. auto.
Qed.

(** Witness: the refresh of scenario C and the attempt right after it. *)
Lemma stamp_holds_off_next_refresh_witness :
  let w := world_with [] (Some 900000) (Some 950000) in
  let w' := snd (update_cache env0 w) in
  fst (should_update env0 w') = Ok false /\
  fst (update_cache env0 w') = Ok ReturnedNone.
Proof.
  cbv zeta.
  pose proof (stamp_holds_off_next_refresh env0
                (world_with [] (Some 900000) (Some 950000))
                ReturnedNone
                (snd (update_cache env0 (world_with [] (Some 900000) (Some 950000))))
                eq_refl eq_refl eq_refl) as H.
  cbv zeta in H.
  destruct H as (_ & H1 & H2 & _).
  - vm_compute. discriminate.
  - reflexivity.
  - split; assumption.
Defined.

(** *** What [update_cache] may touch *)

Lemma footprint_refl E w : footprint E w w.
Proof. unfold footprint. auto. Qed.

Lemma footprint_same_db E w w' : db w' = db w -> footprint E w w'.
Proof. intros H. unfold footprint. rewrite H. auto. Qed.

Lemma footprint_trans E w1 w2 w3 :
  footprint E w1 w2 -> footprint E w2 w3 -> footprint E w1 w3.
Proof.
  intros (A1 & B1 & C1 & D1) (A2 & B2 & C2 & D2). unfold footprint.
  split; [congruence|]. split; [congruence|]. split.
  - intros p Hp. rewrite (C2 p Hp). apply C1. exact Hp.
  - intros r Hr. destruct (D2 r Hr) as [H|H]; [apply D1; exact H|right; exact H].
Qed.

Lemma within_footprint_no_write {A} E (m : M A) :
  no_write m -> within_footprint E m.
Proof. intros H w. apply footprint_same_db. exact (proj1 (H w)). Qed.

(** Sequencing, with what is known of the value handed on. *)
Lemma within_footprint_bind {A B} E (m : M A) (k : A -> M B) (Q : A -> Prop) :
  within_footprint E m ->
  (forall w a w1, m w = (Ok a, w1) -> Q a) ->
  (forall a, Q a -> within_footprint E (k a)) ->
  within_footprint E (bind m k).
Proof.
  intros Hm HQ Hk w. unfold bind. specialize (Hm w). specialize (HQ w).
  destruct (m w) as [[a|e] w1]; simpl in Hm; [|exact Hm].
  eapply footprint_trans; [exact Hm|]. apply Hk. eapply HQ. reflexivity.
Qed.

Lemma delete_rows_twice pid rows :
  delete_rows pid (delete_rows pid rows) = delete_rows pid rows.
Proof.
  unfold delete_rows. induction rows as [|r rows IH]; simpl; [reflexivity|].
  destruct (negb (String.eqb (provider r) pid)) eqn:H; simpl; [rewrite H|]; congruence.
Qed.

Lemma delete_rows_app pid a b :
  delete_rows pid (a ++ b) = delete_rows pid a ++ delete_rows pid b.
Proof. unfold delete_rows. apply List.filter_app. Qed.

Lemma delete_rows_in pid rows r :
  In r (delete_rows pid rows) <-> In r rows /\ provider r <> pid.
Proof.
  unfold delete_rows. rewrite filter_In.
  destruct (String.eqb_spec (provider r) pid); simpl; intuition congruence.
Qed.

Lemma within_footprint_delete E : within_footprint E (delete_provider (providerID E)).
Proof.
  intros w. unfold footprint. simpl.
  split; [apply delete_rows_twice|]. split; [reflexivity|]. split; [reflexivity|].
  intros r Hr. left. apply delete_rows_in in Hr. exact (proj1 Hr).
Qed.

Lemma within_footprint_clear_cache E : within_footprint E (clear_cache E).
Proof.
  unfold clear_cache.
  apply (within_footprint_bind E _ _ (fun _ => True)).
  - apply within_footprint_no_write, reads_only_no_write, reads_only_should_clear_cache.
  - trivial.
  - intros [|] _; [apply within_footprint_delete|].
    apply within_footprint_no_write, no_write_ret.
Qed.

Lemma insert_or_ignore_own E r rows :
  well_formed_entry E r ->
  delete_rows (providerID E) (insert_or_ignore r rows)
    = delete_rows (providerID E) rows /\
  (forall x, In x (insert_or_ignore r rows) -> In x rows \/ well_formed_entry E x).
Proof.
  intros W. unfold insert_or_ignore. destruct (existsb _ _); [auto|].
  split.
  - rewrite delete_rows_app. unfold delete_rows at 2. simpl.
    destruct W as [-> _]. rewrite String.eqb_refl. simpl. apply app_nil_r.
  - intros x Hx. apply in_app_or in Hx. destruct Hx as [Hx|[<-|[]]]; auto.
Qed.

Lemma fold_apply_insert_footprint E cl : forall w,
  Forall (well_formed_entry E) cl ->
  footprint E w (fold_left apply_insert cl w).
Proof.
  induction cl as [|r cl IH]; intros w H; simpl; [apply footprint_refl|].
  apply Forall_cons_iff in H. destruct H as [Hr Hcl].
  eapply footprint_trans; [|apply IH; exact Hcl].
  destruct (insert_or_ignore_own E r (provider_cache (db w)) Hr) as [A D].
  unfold footprint. simpl. auto.
Qed.

Lemma Forall_firstn_keeps {A} (P : A -> Prop) k l :
  Forall P l -> Forall P (firstn k l).
Proof.
  revert l. induction k as [|k IH]; intros [|x l] H; simpl; try constructor.
  - apply Forall_cons_iff in H. exact (proj1 H).
  - apply IH. apply Forall_cons_iff in H. exact (proj2 H).
Qed.

Lemma within_footprint_save_items E cl :
  Forall (well_formed_entry E) cl -> within_footprint E (save_items E cl).
Proof.
  intros H w. unfold save_items.
  destruct (nonempty cl); [|apply footprint_refl].
  unfold try_except, mass_action_insert.
  destruct (mass_action_fault E cl) as [k|]; simpl.
  - apply fold_apply_insert_footprint. apply Forall_firstn_keeps. exact H.
  - apply fold_apply_insert_footprint. exact H.
Qed.

Lemma within_footprint_set_last_update E d :
  within_footprint E (set_last_update E d).
Proof.
  intros w. unfold footprint.
  destruct d; simpl; (split; [reflexivity|]; split; [reflexivity|]; split; [|auto]);
    intros p Hp; apply lookup_insert_ne; congruence.
Qed.

Lemma replace_char_removes old new s :
  new <> old -> has_char old (replace_char old new s) = false.
Proof.
  intros N. induction s as [|c s IH]; simpl; [reflexivity|].
  rewrite IH, orb_false_r.
  destruct (Ascii.eqb_spec c old) as [->|Hc].
  - apply Ascii.eqb_neq. exact N.
  - apply Ascii.eqb_neq. exact Hc.
Qed.

Lemma cache_statement_well_formed E nm u pr w row w' :
  has_char " " nm = false ->
  cache_statement E nm u pr w = (Ok (Some row), w') ->
  well_formed_entry E row /\ name row = nm /\ url row = u /\
  time row = clock E (reads w) /\ reads w' = S (reads w).
Proof.
  intros Hn. unfold cache_statement.
  pose proof (season_or_1_nonzero pr) as S0.
  destruct (negb (season_or_1 pr =? 0)); simpl; [|intros H; discriminate].
  destruct (episode_numbers pr) as [|e es]; simpl; [intros H; discriminate|].
  intros H. injection H as <- <-. unfold well_formed_entry. simpl.
  repeat split; eauto.
Qed.

Lemma parse_item_well_formed E title u w row w' :
  parse_item E title u w = (Ok (Some row), w') -> well_formed_entry E row.
Proof.
  unfold parse_item. destruct (_ && _); [|discriminate].
  unfold add_cache_entry. intros H.
  apply bind_ok_inv in H. destruct H as ([pr|] & w1 & _ & H); [|discriminate].
  eapply cache_statement_well_formed in H; [exact (proj1 H)|].
  apply replace_char_removes. discriminate.
Qed.

Lemma parse_items_well_formed E items : forall w cl w',
  parse_items E items w = (Ok cl, w') ->
  Forall (well_formed_entry E) cl /\ (length cl <= length items)%nat.
Proof.
  induction items as [|item rest IH]; simpl; intros w cl w' H.
  - injection H as <- _. split; [constructor|simpl; lia].
  - apply bind_ok_inv in H. destruct H as (ci & w1 & H1 & H).
    apply bind_ok_inv in H. destruct H as (cl0 & w2 & H2 & H).
    injection H as <- _. apply IH in H2. destruct H2 as [F L].
    destruct ci as [row|]; [|split; [exact F|lia]].
    split; [|simpl; lia].
    constructor; [|exact F]. eapply parse_item_well_formed. exact H1.
Qed.

Lemma within_footprint_refresh E : within_footprint E (refresh E).
Proof.
  unfold refresh.
  apply (within_footprint_bind E _ _ (fun _ => True)).
  { apply within_footprint_no_write, no_write_lift. }
  { trivial. }
  intros data _.
  apply (within_footprint_bind E _ _ (fun _ => True)).
  { destruct (nonempty (items_of data));
      [apply within_footprint_clear_cache|].
    apply within_footprint_no_write, no_write_ret. }
  { trivial. }
  intros _ _.
  apply (within_footprint_bind E _ _ (Forall (well_formed_entry E))).
  { apply within_footprint_no_write, no_write_parse_items. }
  { intros w cl w1 H. exact (proj1 (parse_items_well_formed E _ _ _ _ H)). }
  intros cl Hcl.
  apply (within_footprint_bind E _ _ (fun _ => True)).
  { apply within_footprint_save_items. exact Hcl. }
  { trivial. }
  intros _ _. apply within_footprint_set_last_update.
Qed.

Lemma within_footprint_update_cache E : within_footprint E (update_cache E).
Proof.
  unfold update_cache.
  destruct (check_auth E) as [[]|e].
  2:{ destruct e; intros w; apply footprint_refl. }
  apply (within_footprint_bind E _ _ (fun _ => True)).
  { apply within_footprint_no_write, reads_only_no_write, reads_only_should_update. }
  { trivial. }
  intros [|] _.
  - apply (within_footprint_bind E _ _ (fun _ => True)).
    + apply within_footprint_refresh.
    + trivial.
    + intros _ _. apply within_footprint_no_write, no_write_ret.
  - apply within_footprint_no_write, no_write_ret.
Qed.

(** X12.  Whatever the feed, the parser and the driver do, and whether it
    returns or raises, [update_cache()] leaves the rows of every other
    provider in place, does not write [lastSearch], and does not write the
    [lastUpdate] entry of another provider. *)
Theorem update_cache_touches_own_provider_only E w :
  let w' := snd (update_cache E w) in
  delete_rows (providerID E) (provider_cache (db w'))
    = delete_rows (providerID E) (provider_cache (db w)) /\
  (forall r, In r (provider_cache (db w)) -> provider r <> providerID E ->
             In r (provider_cache (db w'))) /\
  lastSearch (db w') = lastSearch (db w) /\
  (forall p, p <> providerID E ->
             lastUpdate (db w') !! p = lastUpdate (db w) !! p).
Proof.
  destruct (within_footprint_update_cache E w) as (A & B & C & _).
  simpl. split; [exact A|]. split; [|split; [exact B|exact C]].
  intros r Hr Hp.
  assert (In r (delete_rows (providerID E) (provider_cache (db w))))
    by (apply delete_rows_in; auto).
  rewrite <- A in H. apply delete_rows_in in H. exact (proj1 H).
Qed.

(** Witness: a row of another provider survives a pass of scenario C. *)
Lemma update_cache_touches_own_provider_only_witness :
  In foreign_proper
     (provider_cache (db (snd (update_cache env0
        (world_with [foreign_proper] (Some 900000) (Some 800000)))))).
Proof.
  destruct (update_cache_touches_own_provider_only env0
              (world_with [foreign_proper] (Some 900000) (Some 800000)))
    as (_ & K & _).
  apply K.
  - left. reflexivity.
  - discriminate.
Defined.

(** X13.  Every row that is in the entry table after [update_cache()] and
    was not there before is an entry of this provider with a name free of
    blanks, a season other than 0 and the text of a non-empty episode
    list -- whether the pass returns or raises. *)
Theorem update_cache_adds_well_formed_entries E w r :
  In r (provider_cache (db (snd (update_cache E w)))) ->
  In r (provider_cache (db w)) \/
  (provider r = providerID E /\ has_char " " (name r) = false /\
   season r <> 0 /\ exists e es, episodes r = episode_text (e :: es)).
Proof.
  destruct (within_footprint_update_cache E w) as (_ & _ & _ & D). apply D.
Qed.

(** Witness: the row that scenario C adds. *)
Lemma update_cache_adds_well_formed_entries_witness :
  let w := world_with [stored "Old" [2; 3]] (Some 900000) (Some 800000) in
  let r := {| provider := "prov"; name := "Show.Name.S01E02.720p"; season := 1;
              episodes := "|2|"; indexerid := 100; url := "u1"; time := 1000004;
              quality := 4; release_group := Some "GRP"; version := Some (-1);
              indexer := 1 |} in
  In r (provider_cache (db w)) \/
  (provider r = providerID env0 /\ has_char " " (name r) = false /\
   season r <> 0 /\ exists e es, episodes r = episode_text (e :: es)).
Proof.
  cbv zeta.
  apply (update_cache_adds_well_formed_entries env0
           (world_with [stored "Old" [2; 3]] (Some 900000) (Some 800000))).
  vm_compute. tauto.
Defined.

(** *** Purge and replace (lines 64-67 and 99-119) *)

(** Where a due pass stands once the purge has been carried out. *)
Lemma update_cache_after_purge E w data :
  check_auth E = Ok tt ->
  fst (should_update E w) = Ok true ->
  _cache_data E = Ok data ->
  nonempty (items_of data) = true ->
  fst (should_clear_cache E (snd (should_update E w))) = Ok true ->
  exists w2,
    provider_cache (db w2) = delete_rows (providerID E) (provider_cache (db w)) /\
    lastUpdate (db w2) = lastUpdate (db w) /\
    log w2 = log w ++ [WDelete (providerID E)] /\
    update_cache E w =
    (exec (do cl <- parse_items E (items_of data) in
           exec save_items E cl in
           set_last_update E None) in
     ret ReturnedNone) w2.
Proof.
  intros Auth Due Hd Hn Clr.
  destruct (reads_only_should_update E w) as (due & w1 & E1 & D1 & L1).
  rewrite E1 in Due, Clr. simpl in Due, Clr. injection Due as ->.
  destruct (reads_only_should_clear_cache E w1) as (b & w1' & E2 & D2 & L2).
  rewrite E2 in Clr. simpl in Clr. injection Clr as ->.
  exists (snd (delete_provider (providerID E) w1')).
  split; [simpl; rewrite D2, D1; reflexivity|].
  split; [simpl; rewrite D2, D1; reflexivity|].
  split; [simpl; rewrite L2, L1; reflexivity|].
  assert (C : clear_cache E w1 = (Ok tt, snd (delete_provider (providerID E) w1'))).
  { unfold clear_cache. rewrite (bind_ok _ _ _ _ _ E2). reflexivity. }
  assert (R : refresh E w1 =
              (do cl <- parse_items E (items_of data) in
               exec save_items E cl in
               set_last_update E None) (snd (delete_provider (providerID E) w1'))).
  { unfold refresh.
    rewrite (bind_ok _ _ w1 data w1) by (unfold lift; rewrite Hd; reflexivity).
    rewrite Hn. rewrite (bind_ok _ _ _ _ _ C). reflexivity. }
  unfold update_cache. rewrite Auth, (bind_ok _ _ _ _ _ E1).
  unfold bind at 1. rewrite R. reflexivity.
Qed.

(** X14.  Full replacement: when a due pass fetches at least one item and
    [should_clear_cache()] is true, then afterwards the rows of other
    providers are where they were and every row of this provider in the
    table is a well-formed entry put there by this pass; no row of the
    provider from before the pass survives unless the pass wrote it anew. *)
Theorem purge_replaces_provider_rows E w data :
  check_auth E = Ok tt ->
  fst (should_update E w) = Ok true ->
  _cache_data E = Ok data ->
  nonempty (items_of data) = true ->
  fst (should_clear_cache E (snd (should_update E w))) = Ok true ->
  let rows' := provider_cache (db (snd (update_cache E w))) in
  exists added,
    rows' = delete_rows (providerID E) (provider_cache (db w)) ++ added /\
    Forall (well_formed_entry E) added /\
    (forall r, In r rows' -> provider r = providerID E -> In r added).
Proof.
  intros Auth Due Hd Hn Clr rows'.
  destruct (update_cache_after_purge E w data Auth Due Hd Hn Clr)
    as (w2 & R2 & _ & _ & U).
  set (rest := do cl <- parse_items E (items_of data) in
               exec save_items E cl in set_last_update E None) in U.
  assert (S : snd (update_cache E w) = snd (rest w2)).
  { rewrite U. unfold bind. destruct (rest w2) as [[[]|e] w3]; reflexivity. }
  destruct (keeps_rows_after_clear E (items_of data) w2) as [added K].
  fold rest in K.
  assert (FP : footprint E w2 (snd (rest w2))).
  { unfold rest.
    apply (within_footprint_bind E _ _ (Forall (well_formed_entry E))).
    - apply within_footprint_no_write, no_write_parse_items.
    - intros w0 cl w1 H. exact (proj1 (parse_items_well_formed E _ _ _ _ H)).
    - intros cl Hcl. apply (within_footprint_bind E _ _ (fun _ => True)).
      + apply within_footprint_save_items. exact Hcl.
      + trivial.
      + intros _ _. apply within_footprint_set_last_update. }
  destruct FP as (A & _ & _ & D).
  unfold rows'. rewrite S, K, R2.
  exists added. split; [reflexivity|].
  assert (Own : forall r, In r (delete_rows (providerID E) (provider_cache (db w))) ->
                          provider r <> providerID E)
    by (intros r Hr; apply delete_rows_in in Hr; exact (proj2 Hr)).
  (* the deletion keeps none of the rows that were added *)
  rewrite K, R2, delete_rows_app, delete_rows_twice in A.
  assert (N : delete_rows (providerID E) added = []).
  { apply (app_inv_head (delete_rows (providerID E) (provider_cache (db w)))).
    rewrite app_nil_r. exact A. }
  assert (Mine : forall r, In r added -> provider r = providerID E).
  { intros r Hr. destruct (string_dec (provider r) (providerID E)) as [Y|Nn]; [exact Y|].
    assert (In r (delete_rows (providerID E) added)) as Hin
      by (apply delete_rows_in; auto).
    rewrite N in Hin. destruct Hin. }
  split.
  - apply List.Forall_forall. intros r Hr.
    destruct (D r) as [Old|W]; [rewrite K; apply in_or_app; right; exact Hr| |exact W].
    rewrite R2 in Old. exfalso. exact (Own r Old (Mine r Hr)).
  - intros r Hr Hp. apply in_app_or in Hr. destruct Hr as [Hr|Hr]; [|exact Hr].
    exfalso. exact (Own r Hr Hp).
Qed.

(** Witness: the stored entry has been searched since the last refresh;
    scenario C replaces it. *)
Lemma purge_replaces_provider_rows_witness :
  let w := world_with [stored "Old" [2; 3]] (Some 900000) (Some 950000) in
  let rows' := provider_cache (db (snd (update_cache env0 w))) in
  exists added,
    rows' = delete_rows (providerID env0) (provider_cache (db w)) ++ added /\
    Forall (well_formed_entry env0) added /\
    (forall r, In r rows' -> provider r = providerID env0 -> In r added).
Proof.
  exact (purge_replaces_provider_rows env0
           (world_with [stored "Old" [2; 3]] (Some 900000) (Some 950000))
           (Some [0; 1]%nat) eq_refl eq_refl eq_refl eq_refl eq_refl).
Defined.

Lemma parse_item_raises E item w :
  item_parses E item = false ->
  exists e,
    parse_item E (fst (_title_and_url E item)) (snd (_title_and_url E item)) w
    = (Raise e, w).
Proof.
  unfold item_parses, parse_item.
  destruct (_ && _); [|discriminate].
  unfold add_cache_entry, lift. unfold bind at 1.
  destruct (parse_name E _ None) as [o|e]; [discriminate|]. eauto.
Qed.

Lemma parse_items_raises E items :
  forallb (item_parses E) items = false ->
  forall w, exists e w',
    parse_items E items w = (Raise e, w') /\ db w' = db w /\ log w' = log w.
Proof.
  induction items as [|item rest IH]; simpl; intros H w; [discriminate|].
  destruct (item_parses E item) eqn:P; simpl in H.
  - destruct (parse_item_returns E item w P) as (ci & w1 & E1).
    destruct (no_write_parse_item E (fst (_title_and_url E item))
                (snd (_title_and_url E item)) w) as [D1 L1].
    rewrite E1 in D1, L1. simpl in D1, L1.
    destruct (IH H w1) as (e & w2 & E2 & D2 & L2).
    exists e, w2. rewrite (bind_ok _ _ _ _ _ E1). unfold bind at 1. rewrite E2.
    split; [reflexivity|]. split; congruence.
  - destruct (parse_item_raises E item w P) as [e E1].
    exists e, w. unfold bind at 1. rewrite E1. auto.
Qed.

(** X15.  The purge and the inserts are not one unit: when a due pass has
    purged and the parser then raises an exception that [add_cache_entry]
    does not handle, [update_cache()] raises, the provider is left
    without any row, nothing has been inserted and [lastUpdate] is not
    stamped. *)
Theorem parser_crash_after_purge_loses_rows E w data :
  check_auth E = Ok tt ->
  fst (should_update E w) = Ok true ->
  _cache_data E = Ok data ->
  forallb (item_parses E) (items_of data) = false ->
  fst (should_clear_cache E (snd (should_update E w))) = Ok true ->
  let w' := snd (update_cache E w) in
  (exists e, fst (update_cache E w) = Raise e) /\
  provider_cache (db w') = delete_rows (providerID E) (provider_cache (db w)) /\
  (forall r, In r (provider_cache (db w')) -> provider r <> providerID E) /\
  lastUpdate (db w') = lastUpdate (db w) /\
  log w' = log w ++ [WDelete (providerID E)].
Proof.
  intros Auth Due Hd Hp Clr w'.
  assert (Hn : nonempty (items_of data) = true).
  { destruct (items_of data); [discriminate|reflexivity]. }
  destruct (update_cache_after_purge E w data Auth Due Hd Hn Clr)
    as (w2 & R2 & U2 & L2 & U).
  destruct (parse_items_raises E (items_of data) Hp w2) as (e & w3 & P & D3 & L3).
  assert (UU : update_cache E w = (Raise e, w3)).
  { rewrite U. unfold bind at 1 2. rewrite P. reflexivity. }
  unfold w'. rewrite UU. simpl. rewrite D3, L3.
  split; [eauto|]. split; [exact R2|]. split; [|split; [exact U2|exact L2]].
  intros r Hr. rewrite R2 in Hr. apply delete_rows_in in Hr. exact (proj2 Hr).
Qed.

(** Witness: the second item of the feed makes the parser fail after the
    stored entry has been purged. *)
Lemma parser_crash_after_purge_loses_rows_witness :
  let w := world_with [stored "Old" [2; 3]] (Some 900000) (Some 950000) in
  let w' := snd (update_cache env_crashing w) in
  (exists e, fst (update_cache env_crashing w) = Raise e) /\
  provider_cache (db w') = delete_rows (providerID env_crashing) (provider_cache (db w)) /\
  (forall r, In r (provider_cache (db w')) -> provider r <> providerID env_crashing) /\
  lastUpdate (db w') = lastUpdate (db w) /\
  log w' = log w ++ [WDelete (providerID env_crashing)].
Proof.
  exact (parser_crash_after_purge_loses_rows env_crashing
           (world_with [stored "Old" [2; 3]] (Some 900000) (Some 950000))
           (Some [0; 1]%nat) eq_refl eq_refl eq_refl eq_refl eq_refl).
Defined.

(** *** Episode texts and the LIKE clause (lines 300, 380-384, 415-418) *)

Lemma join_segments a rest :
  (join "|" (a :: rest) ++ "|")%string = segments (a :: rest).
Proof.
  revert a. induction rest as [|b rest IH]; intros a.
  - reflexivity.
  - change (join "|" (a :: b :: rest)) with (a ++ "|" ++ join "|" (b :: rest))%string.
    rewrite !append_assoc_str, append_cons, append_empty, IH. reflexivity.
Qed.

Lemma episode_text_segments eps :
  episode_text eps =
  String "|" (segments (match eps with [] => [EmptyString] | _ => map str eps end)).
Proof.
  unfold episode_text. rewrite append_cons, append_empty.
  destruct eps as [|e es]; [reflexivity|].
  simpl map. rewrite join_segments. reflexivity.
Qed.

Lemma bar_free_head c s :
  has_char "|" (String c s) = false -> Ascii.eqb "|" c = false /\ has_char "|" s = false.
Proof.
  intros H.
  change (Ascii.eqb c "|" || has_char "|" s = false) in H.
  apply orb_false_elim in H. destruct H as [H1 H2].
  split; [|exact H2]. rewrite Ascii.eqb_sym. exact H1.
Qed.

Lemma starts_with_cons a p b s :
  starts_with (String a p) (String b s) = Ascii.eqb a b && starts_with p s.
Proof. reflexivity. Qed.

Lemma contains_cons q c s :
  contains q (String c s) = starts_with q (String c s) || contains q s.
Proof. destruct q; reflexivity. Qed.

Lemma starts_with_segment p s R :
  has_char "|" p = false -> has_char "|" s = false ->
  starts_with (p ++ "|") (s ++ String "|" R) = true <-> p = s.
Proof.
  revert s. induction p as [|c p IH]; intros [|d s] Hp Hs;
    rewrite ?append_empty, ?append_cons, starts_with_cons.
  - rewrite Ascii.eqb_refl. simpl. tauto.
  - rewrite (proj1 (bar_free_head d s Hs)). simpl. split; discriminate.
  - destruct (bar_free_head c p Hp) as [H _]. rewrite Ascii.eqb_sym in H.
    rewrite H. simpl. split; discriminate.
  - destruct (bar_free_head c p Hp) as [_ Hp']. destruct (bar_free_head d s Hs) as [_ Hs'].
    rewrite andb_true_iff, (IH s Hp' Hs'), Ascii.eqb_eq.
    split; [intros [-> ->]; reflexivity|intros H; injection H; auto].
Qed.

Lemma contains_skips_segment q s T :
  has_char "|" s = false ->
  contains (String "|" q) (s ++ T) = contains (String "|" q) T.
Proof.
  induction s as [|c s IH]; intros Hs; [rewrite append_empty; reflexivity|].
  rewrite append_cons. destruct (bar_free_head c s Hs) as [H Hs'].
  rewrite contains_cons, starts_with_cons, H. simpl. apply IH. exact Hs'.
Qed.

Lemma contains_segments p parts :
  has_char "|" p = false ->
  Forall (fun s => has_char "|" s = false) parts ->
  contains (String "|" (p ++ "|")) (String "|" (segments parts)) = true <-> In p parts.
Proof.
  intros Hp. induction parts as [|s rest IH]; intros Hall.
  - simpl segments. rewrite contains_cons, starts_with_cons.
    assert (Q : exists x y, (p ++ "|")%string = String x y)
      by (destruct p; [rewrite append_empty|rewrite append_cons]; eauto).
    destruct Q as (x & y & ->). simpl. split; [discriminate|tauto].
  - apply Forall_cons_iff in Hall. destruct Hall as [Hs Hrest].
    simpl segments.
    rewrite contains_cons, (contains_skips_segment _ s _ Hs), orb_true_iff, (IH Hrest).
    rewrite starts_with_cons, Ascii.eqb_refl. simpl andb.
    rewrite (starts_with_segment p s _ Hp Hs). simpl. intuition congruence.
Qed.

Lemma str_injective a b : str a = str b -> a = b.
Proof.
  intros H. pose proof (int_str a) as Ia. rewrite H, int_str in Ia. congruence.
Qed.

(** X16.  The episode text round trip.  For the text that line 300 writes
    for an episode list, the LIKE clause of the query ([episodes LIKE
    '%|N|%']) holds exactly when N is one of the episodes -- no number is
    found inside another one -- and the number that lines 415-418 read
    back is the first of the list. *)
Theorem episode_text_round_trip n eps :
  (contains ("|" ++ str n ++ "|") (episode_text eps) = true <-> In n eps) /\
  (forall e es, eps = e :: es -> first_episode (episode_text eps) = Ok (Some e)).
Proof.
  split.
  - rewrite episode_text_segments, append_cons, append_empty.
    rewrite contains_segments; [| apply str_has_no_bar |].
    + destruct eps as [|e es].
      * simpl. split; [intros [H|[]]|tauto]. symmetry in H.
        exact (str_not_empty n H).
      * rewrite in_map_iff. split.
        -- intros (x & Hx & Hin). apply str_injective in Hx. congruence.
        -- intros H. eauto.
    + destruct eps as [|e es]; [repeat constructor|].
      apply List.Forall_forall. intros s Hs. apply in_map_iff in Hs.
      destruct Hs as (x & <- & _). apply str_has_no_bar.
  - intros e es ->. apply first_episode_of_text.
Qed.

(** Witness: episode 2 is not found in the text of episodes 12 and 22. *)
Lemma episode_text_round_trip_witness :
  contains ("|" ++ str 2 ++ "|") (episode_text [12; 22]) = false /\
  first_episode (episode_text [12; 22]) = Ok (Some 12).
Proof.
  pose proof (episode_text_round_trip 2 [12; 22]) as [H1 H2].
  split.
  - destruct (contains ("|" ++ str 2 ++ "|") (episode_text [12; 22])) eqn:C;
      [|reflexivity].
    exfalso. destruct (proj1 H1 eq_refl) as [H|[H|[]]]; discriminate.
  - exact (H2 12 [22] eq_refl).
Defined.

(** *** What the matcher returns (lines 374-464) *)

Lemma selects_all E unit r :
  selects E unit r = true ->
  provider r = providerID E /\
  contains ("|" ++ str (ep_episode unit) ++ "|") (episodes r) = true /\
  In (quality r) (wanted_quality unit).
Proof.
  unfold selects. intros H.
  repeat (apply andb_prop in H; destruct H as [H ?]).
  split; [apply String.eqb_eq; exact H|]. split; [assumption|].
  match goal with X : existsb _ _ = true |- _ => apply existsb_exists in X;
    destruct X as (q & Hq & Heq) end.
  apply Z.eqb_eq in Heq. subst q. exact Hq.
Qed.

Lemma in_select_all E rows eps r :
  In r (concat (map (query E rows) eps)) ->
  exists unit, In unit eps /\ In r rows /\ selects E unit r = true.
Proof.
  intros H. apply in_concat in H. destruct H as (l & Hl & Hr).
  apply in_map_iff in Hl. destruct Hl as (unit & <- & Hu).
  unfold query in Hr. apply filter_In in Hr. exists unit. tauto.
Qed.

Lemma process_row_accepts E manual r k v :
  process_row E manual r = Ok (Some (k, v)) ->
  exists sh ep res,
    find_show_by_id E (indexer r) (indexerid r) = Some sh /\
    pass_wordlist_checks E (name r) sh = true /\
    (anime_only E = true -> is_anime sh = true) /\
    first_episode (episodes r) = Ok (Some ep) /\
    want_episode E sh (season r) ep (quality r) manual = true /\
    k = get_episode E sh (season r) ep /\
    get_result E [k] (url r) = Some res /\
    v = annotate E sh r res.
Proof.
  unfold process_row.
  destruct (find_show_by_id E _ _) as [sh|]; [|discriminate].
  destruct (pass_wordlist_checks E _ _) eqn:Wl; [|discriminate]. simpl.
  destruct (anime_only E && negb (is_anime sh)) eqn:An; [discriminate|].
  destruct (season r =? -1); [discriminate|].
  destruct (first_episode (episodes r)) as [[ep|]|e]; [|discriminate|discriminate].
  destruct (want_episode E _ _ _ _ _) eqn:Wt; [|discriminate]. simpl.
  destruct (get_result E _ _) as [res|] eqn:Gr; [|discriminate].
  intros H. injection H as <- <-.
  exists sh, ep, res. repeat split; auto.
  intros Ao. rewrite Ao in An. simpl in An. destruct (is_anime sh); [reflexivity|discriminate].
Qed.

Lemma annotate_fields E sh r res :
  let v := annotate E sh r res in
  sr_name v = name r /\ sr_quality v = quality r /\
  sr_release_group v = release_group r /\ sr_version v = version r /\
  sr_show_obj v = Some sh /\ sr_content v = None /\
  sr_url v = sr_url res /\ sr_ep_obj_list v = sr_ep_obj_list res.
Proof.
  unfold annotate. destruct (np_parse E sh (name r)) as [[[x y] z]|e]; simpl; auto 10.
Qed.

Lemma dict_add_in k v d k0 vs0 v0 :
  In (k0, vs0) (dict_add k v d) -> In v0 vs0 ->
  (k0 = k /\ v0 = v) \/ exists vs, In (k0, vs) d /\ In v0 vs.
Proof.
  induction d as [|[k1 vs1] rest IH]; simpl.
  - intros [H|[]] Hv. injection H as <- <-. destruct Hv as [<-|[]]. auto.
  - destruct (decide (k1 = k)) as [->|N]; simpl.
    + intros [H|H] Hv.
      * injection H as <- <-. apply in_app_or in Hv. destruct Hv as [Hv|[<-|[]]]; eauto.
      * eauto.
    + intros [H|H] Hv.
      * injection H as <- <-. eauto.
      * destruct (IH H Hv) as [?|(vs & ? & ?)]; eauto.
Qed.

Lemma dict_add_nonempty k v d :
  (forall k0 vs, In (k0, vs) d -> vs <> []) ->
  forall k0 vs, In (k0, vs) (dict_add k v d) -> vs <> [].
Proof.
  induction d as [|[k1 vs1] rest IH]; simpl; intros Hd k0 vs.
  - intros [H|[]]. injection H as <- <-. discriminate.
  - destruct (decide (k1 = k)) as [->|N]; simpl.
    + intros [H|H].
      * injection H as <- <-. destruct vs1; discriminate.
      * eapply Hd. right. exact H.
    + intros [H|H].
      * eapply Hd. left. exact H.
      * eapply IH; [|exact H]. intros k2 vs2 H2. eapply Hd. right. exact H2.
Qed.

Lemma process_rows_sound E manual rows : forall acc needed,
  process_rows E manual rows acc = Ok needed ->
  (forall k vs v, In (k, vs) needed -> In v vs ->
     (exists vs0, In (k, vs0) acc /\ In v vs0) \/
     exists r, In r rows /\ process_row E manual r = Ok (Some (k, v))) /\
  ((forall k vs, In (k, vs) acc -> vs <> []) ->
   forall k vs, In (k, vs) needed -> vs <> []).
Proof.
  induction rows as [|r rest IH]; simpl; intros acc needed H.
  - injection H as <-. split; [eauto|auto].
  - destruct (process_row E manual r) as [[[k0 v0]|]|e] eqn:P; [| |discriminate].
    + apply IH in H. destruct H as [H1 H2]. split.
      * intros k vs v Hk Hv. destruct (H1 k vs v Hk Hv) as [(vs0 & Ha & Hb)|(r0 & Hr & Hp)].
        -- destruct (dict_add_in _ _ _ _ _ _ Ha Hb) as [[-> ->]|Hold]; eauto.
        -- eauto.
      * intros Hacc. apply H2. apply dict_add_nonempty. exact Hacc.
    + apply IH in H. destruct H as [H1 H2]. split; [|exact H2].
      intros k vs v Hk Hv. destruct (H1 k vs v Hk Hv) as [?|(r0 & Hr & Hp)]; eauto.
Qed.

(** X17.  Every result that [find_needed_episodes] returns stands for a
    stored row of this provider that the query of one of the requested
    episodes selected (same show ids and season, episode number in the
    episode text, quality among the wanted ones), whose show is in the
    show list, which passed the word-list check and the anime-only
    restriction and which the show wants; the result carries the row's
    name, quality, release group and version, and no content. *)
Theorem results_come_from_selected_rows E arg manual w needed w' k vs v :
  find_needed_episodes E arg manual w = (Ok needed, w') ->
  In (k, vs) needed -> In v vs ->
  exists r unit sh ep,
    In r (provider_cache (db w)) /\ In unit (as_list arg) /\
    selects E unit r = true /\
    provider r = providerID E /\
    In (quality r) (wanted_quality unit) /\
    contains ("|" ++ str (ep_episode unit) ++ "|") (episodes r) = true /\
    find_show_by_id E (indexer r) (indexerid r) = Some sh /\
    pass_wordlist_checks E (name r) sh = true /\
    (anime_only E = true -> is_anime sh = true) /\
    want_episode E sh (season r) ep (quality r) manual = true /\
    k = get_episode E sh (season r) ep /\
    sr_name v = name r /\ sr_quality v = quality r /\
    sr_release_group v = release_group r /\ sr_version v = version r /\
    sr_show_obj v = Some sh /\ sr_content v = None.
Proof.
  intros H Hk Hv. apply find_needed_episodes_ok in H.
  apply process_rows_sound in H. destruct H as [H _].
  destruct (H k vs v Hk Hv) as [(vs0 & [] & _)|(r & Hr & Hp)].
  apply in_select_all in Hr. destruct Hr as (unit & Hu & Hin & Hsel).
  destruct (selects_all E unit r Hsel) as (S1 & S2 & S3).
  apply process_row_accepts in Hp.
  destruct Hp as (sh & ep & res & P1 & P2 & P3 & P4 & P5 & P6 & P7 & ->).
  destruct (annotate_fields E sh r res) as (A1 & A2 & A3 & A4 & A5 & A6 & _).
  exists r, unit, sh, ep. repeat split; assumption.
Qed.

(** Witness: the result of scenario D. *)
Lemma results_come_from_selected_rows_witness :
  let unit := episode_of show1 1 2 in
  let w0 := world_with [stored "Entry" [2; 3]] None None in
  let v := annotate env0 show1 (stored "Entry" [2; 3]) (blank_result [unit] "u0") in
  exists r unit0 sh ep,
    In r (provider_cache (db w0)) /\ In unit0 (as_list (One unit)) /\
    selects env0 unit0 r = true /\
    provider r = providerID env0 /\
    In (quality r) (wanted_quality unit0) /\
    contains ("|" ++ str (ep_episode unit0) ++ "|") (episodes r) = true /\
    find_show_by_id env0 (indexer r) (indexerid r) = Some sh /\
    pass_wordlist_checks env0 (name r) sh = true /\
    (anime_only env0 = true -> is_anime sh = true) /\
    want_episode env0 sh (season r) ep (quality r) false = true /\
    unit = get_episode env0 sh (season r) ep /\
    sr_name v = name r /\ sr_quality v = quality r /\
    sr_release_group v = release_group r /\ sr_version v = version r /\
    sr_show_obj v = Some sh /\ sr_content v = None.
Proof.
  cbv zeta.
  eapply (results_come_from_selected_rows env0 (One (episode_of show1 1 2)) false
            (world_with [stored "Entry" [2; 3]] None None)).
  - reflexivity.
  - left. reflexivity.
  - left. reflexivity.
Defined.

(** *** The outcomes of [search_cache] (lines 338-341) *)

Lemma dict_get_in k d vs : dict_get k d = Some vs -> In (k, vs) d.
Proof.
  induction d as [|[k1 vs1] rest IH]; simpl; [discriminate|].
  destruct (decide (k1 = k)) as [->|N].
  - intros H. injection H as <-. auto.
  - intros H. right. apply IH. exact H.
Qed.

Lemma dict_get_default k d vs :
  dict_get k d = Some vs -> default [] (dict_get k d) = vs.
Proof. intros ->. reflexivity. Qed.

(** X18.  When the search returns, [search_cache] has one of three
    outcomes: the empty list, exactly when no selected row was accepted;
    the non-empty list of all results filed under the requested episode
    object, when that object is a key of the dict; and otherwise an
    exception.  It never returns an empty list while a row was accepted. *)
Theorem search_cache_outcomes E ep manual w needed w' :
  find_needed_episodes E (One ep) manual w = (Ok needed, w') ->
  let found := accepted E manual (query E (provider_cache (db w)) ep) in
  (needed = [] <-> found = []) /\
  (fst (search_cache E ep manual w) = Ok [] <-> found = []) /\
  (forall vs, dict_get ep needed = Some vs ->
     search_cache E ep manual w = (Ok vs, w') /\ vs <> [] /\
     vs = filed_under ep found) /\
  (found <> [] -> dict_get ep needed = None ->
     search_cache E ep manual w = (Raise KeyError, w')).
Proof.
  intros H found.
  pose proof (find_needed_episodes_ok _ _ _ _ _ _ H) as P.
  change (concat (map (query E (provider_cache (db w))) (as_list (One ep))))
    with (query E (provider_cache (db w)) ep ++ []) in P.
  rewrite app_nil_r in P.
  destruct (process_rows_files _ _ _ _ _ P) as [F1 F2].
  destruct (process_rows_sound _ _ _ _ _ P) as [_ NE].
  specialize (NE ltac:(intros ? ? [])).
  fold found in F1, F2. simpl in F1, F2.
  assert (Empty : needed = [] <-> found = []).
  { split.
    - intros ->. simpl in F2. destruct found; [reflexivity|discriminate].
    - intros Hf. rewrite Hf in F2. simpl in F2.
      destruct needed as [|[k vs] rest]; [reflexivity|].
      exfalso. simpl in F2. rewrite length_app in F2.
      destruct vs; [exact (NE k [] ltac:(left; reflexivity) eq_refl)|discriminate]. }
  assert (SC : search_cache E ep manual w =
               match needed with
               | [] => (Ok [], w')
               | _ => match dict_get ep needed with
                      | Some vs => (Ok vs, w')
                      | None => (Raise KeyError, w')
                      end
               end).
  { unfold search_cache. rewrite (bind_ok _ _ _ _ _ H).
    destruct needed; [reflexivity|]. simpl length. simpl negb. cbv iota.
    destruct (dict_get ep _); reflexivity. }
  split; [exact Empty|]. split; [|split].
  - rewrite SC, <- Empty. destruct needed as [|kv rest]; [simpl; tauto|].
    split; [|discriminate].
    destruct (dict_get ep (kv :: rest)) as [vs|] eqn:G; simpl; [|discriminate].
    intros Hv. injection Hv as ->. apply dict_get_in in G.
    exfalso. exact (NE _ _ G eq_refl).
  - intros vs G. rewrite SC.
    destruct needed as [|kv rest]; [discriminate|]. rewrite G.
    split; [reflexivity|]. split; [exact (NE _ _ (dict_get_in _ _ _ G))|].
    rewrite <- F1, G. reflexivity.
  - intros Hf G. rewrite SC.
    destruct needed as [|kv rest]; [exfalso; apply Hf, Empty; reflexivity|].
    rewrite G. reflexivity.
Qed.

(** Witness: the request for episode 2 on an entry for episodes 2 and 3. *)
Lemma search_cache_outcomes_witness :
  let ep := episode_of show1 1 2 in
  let w0 := world_with [stored "Entry" [2; 3]] None None in
  let found := accepted env0 false (query env0 (provider_cache (db w0)) ep) in
  (fst (search_cache env0 ep false w0) = Ok [] <-> found = []).
Proof.
  cbv zeta.
  exact (proj1 (proj2 (search_cache_outcomes env0 (episode_of show1 1 2) false
                         (world_with [stored "Entry" [2; 3]] None None) _ _ eq_refl))).
Defined.

(** *** What a search may touch (lines 367-391, 466-468) *)

Lemma find_needed_episodes_shape E arg manual w :
  find_needed_episodes E arg manual w =
  let sql_result := concat (map (query E (provider_cache (db w))) (as_list arg)) in
  if negb (nonempty sql_result)
  then (Ok [], snd (_set_last_search E None w))
  else match process_rows E manual sql_result [] with
       | Ok needed => (Ok needed, snd (_set_last_search E None w))
       | Raise e => (Raise e, w)
       end.
Proof.
  destruct (set_last_search_world E w) as (S1 & _).
  unfold find_needed_episodes, select_all. unfold bind at 1. cbv zeta.
  destruct (negb (nonempty _)).
  - rewrite (bind_ok _ _ _ _ _ S1). reflexivity.
  - unfold lift. unfold bind at 1.
    destruct (process_rows E manual _ []) as [needed|e]; [|reflexivity].
    rewrite (bind_ok _ _ _ _ _ S1). reflexivity.
Qed.

Lemma process_row_raises E manual row e :
  process_row E manual row = Raise e -> e = IndexError \/ e = ValueError.
Proof.
  unfold process_row.
  destruct (find_show_by_id E _ _); [|discriminate].
  destruct (negb _); [discriminate|].
  destruct (_ && _); [discriminate|].
  destruct (_ =? _); [discriminate|].
  unfold first_episode, first_field, int.
  destruct (split "|" (episodes row)) as [|a [|b l]];
    try (intros Q; injection Q as <-; auto).
  destruct b; [discriminate|].
  destruct (NilZero.int_of_string _).
  - destruct (negb _); [discriminate|]. destruct (get_result E _ _); discriminate.
  - intros Q; injection Q as <-. auto.
Qed.

Lemma process_rows_raises E manual rows : forall acc e,
  process_rows E manual rows acc = Raise e -> e = IndexError \/ e = ValueError.
Proof.
  induction rows as [|row rest IH]; simpl; intros acc e; [discriminate|].
  destruct (process_row E manual row) as [[[k v]|]|e0] eqn:Q; try apply IH.
  intros He. injection He as <-. eapply process_row_raises. exact Q.
Qed.

(** X19.  [find_needed_episodes] sends nothing to the driver but the one
    stamp: the entry table, the table [lastUpdate] and the [lastSearch]
    entries of other providers are as before, whether it returns or
    raises; when it raises (an episode text that cannot be read back), it
    has not stamped either and the world is the one it started in. *)
Theorem search_touches_own_stamp_only E arg manual w :
  let r := fst (find_needed_episodes E arg manual w) in
  let w' := snd (find_needed_episodes E arg manual w) in
  provider_cache (db w') = provider_cache (db w) /\
  lastUpdate (db w') = lastUpdate (db w) /\
  (forall p, p <> providerID E ->
             lastSearch (db w') !! p = lastSearch (db w) !! p) /\
  (forall e, r = Raise e -> w' = w /\ (e = IndexError \/ e = ValueError)).
Proof.
  cbv zeta. rewrite find_needed_episodes_shape. cbv zeta.
  assert (St : let w1 := snd (_set_last_search E None w) in
    provider_cache (db w1) = provider_cache (db w) /\
    lastUpdate (db w1) = lastUpdate (db w) /\
    (forall p, p <> providerID E ->
               lastSearch (db w1) !! p = lastSearch (db w) !! p)).
  { simpl. repeat split. intros p Hp. apply lookup_insert_ne. congruence. }
  destruct St as (A & B & C).
  destruct (negb (nonempty _)).
  - simpl fst. simpl snd. repeat split; try assumption; discriminate.
  - destruct (process_rows E manual _ []) as [x|e] eqn:P.
    + simpl fst. simpl snd. repeat split; try assumption; discriminate.
    + simpl. repeat split; auto.
      injection H as <-. eapply process_rows_raises. exact P.
Qed.

(** Witness: a search that meets an unreadable episode text. *)
Lemma search_touches_own_stamp_only_witness :
  let w := world_with [corrupt_row] None None in
  let arg := One (episode_of show1 1 2) in
  fst (find_needed_episodes env0 arg false w) = Raise ValueError /\
  snd (find_needed_episodes env0 arg false w) = w.
Proof.
  cbv zeta.
  pose proof (search_touches_own_stamp_only env0 (One (episode_of show1 1 2)) false
                (world_with [corrupt_row] None None)) as (_ & _ & _ & H).
  split; [reflexivity|]. exact (proj1 (H ValueError eq_refl)).
Defined.

(** *** Title and link translation (lines 124-144) *)

Lemma replace_char_length old new s :
  String.length (replace_char old new s) = String.length s.
Proof. induction s as [|c s IH]; simpl; congruence. Qed.

Lemma replace_char_absent old new s :
  has_char old s = false -> replace_char old new s = s.
Proof.
  induction s as [|c s IH]; simpl; [reflexivity|].
  intros H. apply orb_false_elim in H. destruct H as [H1 H2].
  rewrite H1, (IH H2). reflexivity.
Qed.

(** X20.  A translated title has no blank and the length of the title;
    translating is idempotent, and a title without blanks is returned as
    it is. *)
Theorem translate_title_removes_blanks title :
  has_char " " (_translate_title title) = false /\
  String.length (_translate_title title) = String.length title /\
  _translate_title (_translate_title title) = _translate_title title /\
  (has_char " " title = false -> _translate_title title = title).
Proof.
  unfold _translate_title.
  assert (N : has_char " " (replace_char " " "." title) = false)
    by (apply replace_char_removes; discriminate).
  split; [exact N|]. split; [apply replace_char_length|].
  split; [apply replace_char_absent; exact N|apply replace_char_absent].
Qed.

(** Witness: a title without blanks. *)
Lemma translate_title_removes_blanks_witness :
  _translate_title "Show.Name.S01E02" = "Show.Name.S01E02"%string.
Proof.
  exact (proj2 (proj2 (proj2 (translate_title_removes_blanks "Show.Name.S01E02")))
           eq_refl).
Defined.

Lemma length_append_str (a b : string) :
  String.length (a ++ b) = (String.length a + String.length b)%nat.
Proof.
  induction a as [|c a IH]; [reflexivity|].
  rewrite append_cons. simpl. rewrite IH. reflexivity.
Qed.

Lemma starts_with_length p s :
  starts_with p s = true -> (String.length p <= String.length s)%nat.
Proof.
  revert s. induction p as [|a p IH]; intros [|b s] H; simpl in *; try lia;
    try discriminate.
  apply andb_prop in H. destruct H as [_ H]. apply IH in H. lia.
Qed.

Lemma replace_from_length old new s :
  (String.length new <= String.length old)%nat ->
  forall skip,
    (String.length (replace_from skip old new s) + Nat.min skip (String.length s)
     <= String.length s)%nat.
Proof.
  intros Hn. induction s as [|c r IH]; intros skip; [simpl; lia|].
  destruct skip as [|k].
  - change (replace_from 0 old new (String c r))
      with (if starts_with old (String c r)
            then (new ++ replace_from (String.length old - 1) old new r)%string
            else String c (replace_from 0 old new r)).
    destruct (starts_with old (String c r)) eqn:Sw.
    + apply starts_with_length in Sw. simpl in Sw.
      rewrite length_append_str. specialize (IH (String.length old - 1)%nat).
      simpl String.length. lia.
    + specialize (IH 0%nat). simpl String.length in *. lia.
  - specialize (IH k). simpl. lia.
Qed.

Lemma replace_from_absent old new s :
  contains old s = false -> replace_from 0 old new s = s.
Proof.
  induction s as [|c r IH]; [reflexivity|].
  rewrite contains_cons. intros H. apply orb_false_elim in H. destruct H as [H1 H2].
  change (replace_from 0 old new (String c r))
    with (if starts_with old (String c r)
          then (new ++ replace_from (String.length old - 1) old new r)%string
          else String c (replace_from 0 old new r)).
  rewrite H1, (IH H2). reflexivity.
Qed.

(** X21.  A translated link is never longer than the link, and a link in
    which ["&amp;"] does not occur is returned as it is. *)
Theorem translate_link_url_decodes u :
  (String.length (_translate_link_url u) <= String.length u)%nat /\
  (contains "&amp;" u = false -> _translate_link_url u = u).
Proof.
  unfold _translate_link_url, str_replace. split.
  - pose proof (replace_from_length "&amp;" "&" u ltac:(simpl; lia) 0%nat). lia.
  - apply replace_from_absent.
Qed.

(** Witness: a link without an escaped ampersand. *)
Lemma translate_link_url_decodes_witness :
  _translate_link_url "http://x/?a=1&b=2" = "http://x/?a=1&b=2"%string.
Proof.
  exact (proj2 (translate_link_url_decodes "http://x/?a=1&b=2") eq_refl).
Defined.

(** *** The reach of [list_propers] (lines 352-358) *)

(** X22.  [list_propers] writes nothing and returns the
    rows with a non-zero [indexerid] whose name contains [.PROPER.] or
    [.REPACK.] (in any letter case) -- of every provider and of any age --
    and the rows whose name contains [.REAL.] of this provider only, not
    older than [date] when one is given. *)
Theorem list_propers_reach E date w r :
  snd (list_propers E date w) = w /\
  (forall res, fst (list_propers E date w) = Ok res ->
     (In r res <->
      In r (provider_cache (db w)) /\ indexerid r <> 0 /\
      (like ".PROPER." (name r) = true \/ like ".REPACK." (name r) = true \/
       (like ".REAL." (name r) = true /\ provider r = providerID E /\
        forall d, date = Some d -> mktime E d <= time r)))) /\
  (In r (provider_cache (db w)) -> indexerid r <> 0 ->
   like ".PROPER." (name r) = true \/ like ".REPACK." (name r) = true ->
   exists res, fst (list_propers E date w) = Ok res /\ In r res).
Proof.
  assert (W : propers_where E date r = true <->
    (like ".PROPER." (name r) = true \/ like ".REPACK." (name r) = true \/
     (like ".REAL." (name r) = true /\ provider r = providerID E /\
      forall d, date = Some d -> mktime E d <= time r))).
  { unfold propers_where. rewrite !orb_true_iff, !andb_true_iff, String.eqb_eq.
    destruct date as [d|].
    - rewrite Z.leb_le. split.
      + intros [[H|H]|[[H1 H2] H3]]; auto.
        right. right. split; [exact H1|]. split; [exact H2|].
        intros d0 Hd. injection Hd as <-. exact H3.
      + intros [H|[H|(H1 & H2 & H3)]]; auto 6.
    - split.
      + intros [[H|H]|[[H1 H2] H3]]; auto.
        right. right. split; [exact H1|]. split; [exact H2|]. discriminate.
      + intros [H|[H|(H1 & H2 & H3)]]; auto 6. }
  assert (Mem : forall res, fst (list_propers E date w) = Ok res ->
     (In r res <->
      In r (provider_cache (db w)) /\ indexerid r <> 0 /\
      propers_where E date r = true)).
  { unfold list_propers. simpl. intros res H. injection H as <-.
    rewrite !filter_In, negb_true_iff, Z.eqb_neq. tauto. }
  split; [reflexivity|]. split.
  - intros res H. rewrite (Mem res H), W. reflexivity.
  - intros Hin Hid Htag. eexists. split; [reflexivity|].
    apply (Mem _ eq_refl). split; [exact Hin|]. split; [exact Hid|].
    apply W. tauto.
Qed.

(** Witness: a proper of another provider, older than the date asked for,
    is listed. *)
Lemma list_propers_reach_witness :
  let w := world_with [foreign_proper] None None in
  provider foreign_proper <> providerID env0 /\
  time foreign_proper < mktime env0 900000 /\
  exists res, fst (list_propers env0 (Some 900000) w) = Ok res /\
              In foreign_proper res.
Proof.
  cbv zeta. split; [discriminate|]. split; [reflexivity|].
  apply (proj2 (proj2 (list_propers_reach env0 (Some 900000)
                  (world_with [foreign_proper] None None) foreign_proper))).
  - left. reflexivity.
  - discriminate.
  - left. reflexivity.
Defined.

End CacheMore.

(* ===================================================================== *)
(** ** Further properties of subtitles.py                                 *)
(* ===================================================================== *)

Module SubtitlesMore.
Import Py Subtitles SubtitlesExamples.

(** *** The service list *)

Lemma dict_lookup_set (k k' v : string) (d : list (string * string)) :
  dict_lookup k (dict_set k' v d)
  = if String.eqb k' k then Some v else dict_lookup k d.
Proof.
  induction d as [|[a b] rest IH]; simpl.
  - reflexivity.
  - destruct (String.eqb a k') eqn:Ak'; simpl.
    + apply String.eqb_eq in Ak'. subst a.
      destruct (String.eqb k' k); reflexivity.
    + rewrite IH. destruct (String.eqb a k) eqn:Ak; [|reflexivity].
      apply String.eqb_eq in Ak. subst a.
      rewrite String.eqb_sym, Ak'. reflexivity.
Qed.

Lemma mapping_fold_keys (s : string) (l : list string) (d : list (string * string)) :
  dict_lookup s (fold_left (fun d x => dict_set (lower x) x d) l d) <> None
  <-> In s (map lower l) \/ dict_lookup s d <> None.
Proof.
  revert d. induction l as [|x l IH]; intros d; simpl.
  - tauto.
  - rewrite IH, dict_lookup_set.
    destruct (String.eqb (lower x) s) eqn:Q.
    + apply String.eqb_eq in Q. split; intros _; [left; left; exact Q | right; discriminate].
    + apply String.eqb_neq in Q. tauto.
Qed.

Lemma mapping_keys (C : Config) (s : string) :
  dict_lookup s (services_mapping C) <> None <-> In s (map lower (SERVICES C)).
Proof.
  unfold services_mapping. rewrite mapping_fold_keys. simpl. tauto.
Qed.

Lemma dict_lookup_in (k : string) (d : list (string * string)) :
  dict_lookup k d <> None <-> In k (map fst d).
Proof.
  induction d as [|[a b] rest IH]; simpl.
  - tauto.
  - destruct (String.eqb a k) eqn:Q.
    + apply String.eqb_eq in Q. split; intros _; [left; exact Q | discriminate].
    + apply String.eqb_neq in Q. tauto.
Qed.

Lemma configured_ok (C : Config) (m : list (string * string)) (l : list string) :
  forall (k : nat) (res : list Service),
  configured C m k l = Ok res ->
  forall sv, In sv res <->
    exists i s nm flag, nth_error l i = Some s /\ dict_lookup s m = Some nm
      /\ nth_error (SUBTITLES_SERVICES_ENABLED C) (k + i) = Some flag
      /\ sv = service_dict C s nm (1 =? flag).
Proof.
  induction l as [|s l IH]; intros k res H sv; simpl in H.
  - injection H as <-. split; [intros []|].
    intros (i & s & nm & flag & N & _). destruct i; discriminate.
  - destruct (dict_lookup s m) as [nm|] eqn:L.
    + destruct (nth_error (SUBTITLES_SERVICES_ENABLED C) k) as [flag|] eqn:F;
        [|discriminate].
      destruct (configured C m (S k) l) as [r|e] eqn:R; [|discriminate].
      injection H as <-. specialize (IH _ _ R sv). cbn [In]. rewrite IH. split.
      * intros [<-|(i & s' & nm' & flag' & N & L' & F' & ->)].
        -- exists 0%nat, s, nm, flag. rewrite Nat.add_0_r. auto.
        -- exists (S i), s', nm', flag'. rewrite Nat.add_succ_r. auto.
      * intros ([|i] & s' & nm' & flag' & N & L' & F' & ->); simpl in N.
        -- injection N as <-. rewrite Nat.add_0_r in F'.
           rewrite L in L'. injection L' as <-.
           rewrite F in F'. injection F' as <-. left. reflexivity.
        -- right. exists i, s', nm', flag'. rewrite Nat.add_succ_r in F'. auto.
    + specialize (IH _ _ H sv). rewrite IH. split.
      * intros (i & s' & nm' & flag' & N & L' & F' & ->).
        exists (S i), s', nm', flag'. rewrite Nat.add_succ_r. auto.
      * intros ([|i] & s' & nm' & flag' & N & L' & F' & ->); simpl in N.
        -- injection N as <-. congruence.
        -- exists i, s', nm', flag'. rewrite Nat.add_succ_r in F'. auto.
Qed.

Lemma configured_raise (C : Config) (m : list (string * string)) (l : list string) :
  forall (k : nat) (e : exn),
  configured C m k l = Raise e <->
  e = IndexError /\
  exists i s, nth_error l i = Some s /\ dict_lookup s m <> None
    /\ nth_error (SUBTITLES_SERVICES_ENABLED C) (k + i) = None.
Proof.
  induction l as [|s l IH]; intros k e; simpl.
  - split; [discriminate|]. intros (_ & i & s & N & _). destruct i; discriminate.
  - destruct (dict_lookup s m) as [nm|] eqn:L.
    + destruct (nth_error (SUBTITLES_SERVICES_ENABLED C) k) as [flag|] eqn:F.
      * destruct (configured C m (S k) l) as [r|e'] eqn:R.
        -- split; [discriminate|].
           intros (_ & [|i] & s' & N & L' & F'); simpl in N.
           ++ rewrite Nat.add_0_r in F'. congruence.
           ++ assert (X : configured C m (S k) l = Raise IndexError).
              { apply IH. split; [reflexivity|]. exists i, s'.
                rewrite Nat.add_succ_r in F'. auto. }
              congruence.
        -- apply IH in R. destruct R as (-> & i & s' & N & L' & F').
           split.
           ++ intros [= <-]. split; [reflexivity|]. exists (S i), s'.
              rewrite Nat.add_succ_r. auto.
           ++ intros (-> & _). reflexivity.
      * split.
        -- intros [= <-]. split; [reflexivity|]. exists 0%nat, s.
           rewrite Nat.add_0_r. repeat split; [congruence | exact F].
        -- intros (-> & _). reflexivity.
    + rewrite IH. split.
      * intros (-> & i & s' & N & L' & F'). split; [reflexivity|].
        exists (S i), s'. rewrite Nat.add_succ_r. auto.
      * intros (-> & [|i] & s' & N & L' & F'); simpl in N.
        -- injection N as <-. congruence.
        -- split; [reflexivity|]. exists i, s'. rewrite Nat.add_succ_r in F'. auto.
Qed.

Lemma add_missing_enabled (C : Config) (kvs : list (string * string)) :
  forall nl, List.filter enabled (fold_left (add_missing C) kvs nl)
             = List.filter enabled nl.
Proof.
  induction kvs as [|kv kvs IH]; intros nl; simpl.
  - reflexivity.
  - rewrite IH. unfold add_missing.
    destruct (existsb _ _); [reflexivity|].
    rewrite List.filter_app. simpl. apply app_nil_r.
Qed.

Lemma add_missing_ids (C : Config) (nl : list Service) (kv : string * string) (k : string) :
  In k (map id nl) \/ k = fst kv -> In k (map id (add_missing C nl kv)).
Proof.
  unfold add_missing. intros [H| ->].
  - destruct (existsb _ _); [exact H|].
    rewrite map_app. apply in_or_app. left. exact H.
  - destruct (existsb _ _) eqn:X.
    + apply existsb_exists in X. destruct X as (x & I & Q).
      apply String.eqb_eq in Q. subst x. exact I.
    + rewrite map_app. apply in_or_app. right. left. reflexivity.
Qed.

Lemma add_missing_covers (C : Config) (kvs : list (string * string)) (k : string) :
  forall nl, In k (map id nl) \/ In k (map fst kvs) ->
             In k (map id (fold_left (add_missing C) kvs nl)).
Proof.
  induction kvs as [|kv kvs IH]; intros nl H; simpl in *.
  - tauto.
  - apply IH. destruct H as [H|[H|H]].
    + left. apply add_missing_ids. left. exact H.
    + left. apply add_missing_ids. right. symmetry. exact H.
    + right. exact H.
Qed.

(** X23.  The enabled services are exactly the names of the entries of
    the priority list whose id is a lower-cased name of a service on
    offer and whose flag, at the same position, is 1; the services that
    [sorted_service_list] adds at the end are never enabled. *)
Theorem enabled_services_are_the_flagged_ones (C : Config) (names : list string) :
  get_enabled_service_list C = Ok names ->
  forall n, In n names <->
    exists i s, nth_error (SUBTITLES_SERVICES_LIST C) i = Some s
      /\ dict_lookup s (services_mapping C) = Some n
      /\ nth_error (SUBTITLES_SERVICES_ENABLED C) i = Some 1.
Proof.
  unfold get_enabled_service_list, sorted_service_list. intros H n.
  destruct (configured C (services_mapping C) 0 (SUBTITLES_SERVICES_LIST C))
    as [conf|e] eqn:Q; [|discriminate].
  injection H as <-. rewrite add_missing_enabled, in_map_iff. split.
  - intros (sv & <- & I). apply List.filter_In in I. destruct I as [I On].
    apply (configured_ok _ _ _ _ _ Q) in I.
    destruct I as (i & s & nm & flag & N & L & F & ->).
    change ((1 =? flag) = true) in On.
    apply Z.eqb_eq in On. subst flag. exists i, s. auto.
  - intros (i & s & N & L & F).
    exists (service_dict C s n (1 =? 1)). split; [reflexivity|].
    apply List.filter_In. split; [|reflexivity].
    apply (configured_ok _ _ _ _ _ Q). exists i, s, n, 1. auto.
Qed.

Lemma enabled_services_are_the_flagged_ones_witness :
  get_enabled_service_list two_services = Ok ["OpenSubtitles"]
  /\ (In "OpenSubtitles" ["OpenSubtitles"] <->
      exists i s, nth_error (SUBTITLES_SERVICES_LIST two_services) i = Some s
        /\ dict_lookup s (services_mapping two_services) = Some "OpenSubtitles"
        /\ nth_error (SUBTITLES_SERVICES_ENABLED two_services) i = Some 1).
Proof.
  split; [reflexivity|].
  apply (enabled_services_are_the_flagged_ones two_services). reflexivity.
Defined.

(** X24.  [sorted_service_list] raises exactly when the priority list
    names, at a position that the list of flags does not have, a service
    on offer; the exception is an IndexError. *)
Theorem short_flag_list_raises (C : Config) (e : exn) :
  sorted_service_list C = Raise e <->
  e = IndexError /\
  exists i s, nth_error (SUBTITLES_SERVICES_LIST C) i = Some s
    /\ In s (map lower (SERVICES C))
    /\ (length (SUBTITLES_SERVICES_ENABLED C) <= i)%nat.
Proof.
  unfold sorted_service_list.
  destruct (configured C (services_mapping C) 0 (SUBTITLES_SERVICES_LIST C))
    as [conf|e'] eqn:Q.
  - split; [discriminate|]. intros (-> & i & s & N & I & F).
    assert (X : configured C (services_mapping C) 0 (SUBTITLES_SERVICES_LIST C)
                = Raise IndexError).
    { apply configured_raise. split; [reflexivity|]. exists i, s.
      repeat split; [exact N | apply mapping_keys; exact I |].
      apply List.nth_error_None. exact F. }
    congruence.
  - pose proof Q as Q'. apply configured_raise in Q'.
    destruct Q' as (-> & i & s & N & L & F). split.
    + intros [= <-]. split; [reflexivity|]. exists i, s.
      repeat split; [exact N | apply mapping_keys; exact L |].
      apply List.nth_error_None. exact F.
    + intros (-> & _). reflexivity.
Qed.

Lemma short_flag_list_raises_witness :
  sorted_service_list short_flags = Raise IndexError.
Proof.
  apply (short_flag_list_raises short_flags IndexError).
  split; [reflexivity|]. exists 1%nat, "addic7ed".
  repeat split; [left; reflexivity | simpl; lia].
Defined.

(** X25.  When [sorted_service_list] returns, every service on offer is
    in the list under its lower-cased name, configured or not. *)
Theorem every_service_is_listed (C : Config) (l : list Service) (x : string) :
  sorted_service_list C = Ok l ->
  In x (SERVICES C) ->
  In (lower x) (map id l).
Proof.
  unfold sorted_service_list. intros H I.
  destruct (configured C (services_mapping C) 0 (SUBTITLES_SERVICES_LIST C))
    as [conf|e]; [|discriminate].
  injection H as <-. apply add_missing_covers. right.
  apply dict_lookup_in, mapping_keys, in_map. exact I.
Qed.

Lemma every_service_is_listed_witness :
  In (lower "Addic7ed")
     (map id (match sorted_service_list two_services with Ok l => l | Raise _ => [] end)).
Proof.
  apply (every_service_is_listed two_services _ "Addic7ed");
    [reflexivity | left; reflexivity].
Defined.

(** *** The search rules *)

Lemma py_index_nth {A} (l : list A) (i : Z) :
  0 <= i < Z.of_nat (length l) ->
  exists x, nth_error l (Z.to_nat i) = Some x /\ py_index l i = Ok x.
Proof.
  intros H. unfold py_index.
  replace (i <? 0) with false by lia.
  replace ((0 <=? i) && (i <? Z.of_nat (length l))) with true by lia.
  destruct (nth_error l (Z.to_nat i)) as [x|] eqn:N.
  - exists x. auto.
  - apply List.nth_error_None in N. lia.
Qed.

Lemma rule_holds_table (guard : bool) (rule : list Z) (sc now last : Z) :
  0 <= sc ->
  rule_holds guard (Z.of_nat (length rule)) rule sc now (Ok last)
  = Ok (guard && match nth_error rule (Z.to_nat sc) with
                 | Some h => hours h <? now - last
                 | None => false
                 end).
Proof.
  intros H. unfold rule_holds. destruct guard; simpl; [|reflexivity].
  destruct (Z.ltb_spec sc (Z.of_nat (length rule))) as [Lt|Ge].
  - destruct (py_index_nth rule sc) as (h & N & P); [lia|].
    rewrite P, N. reflexivity.
  - replace (nth_error rule (Z.to_nat sc)) with (@None Z); [reflexivity|].
    symmetry. apply List.nth_error_None. lia.
Qed.

(** X26.  For a search count that is not negative and a last search that
    parses, the rule never raises: the hours to wait are read from the
    table of the age class of the episode (aired more than 7 days ago or
    not), and a count beyond the table is never due. *)
Theorem search_is_due_reads_the_table (d sc now last : Z) :
  0 <= sc ->
  search_is_due d sc now (Ok last)
  = Ok (match nth_error (if 7 <? d then rules_old else rules_new) (Z.to_nat sc) with
        | Some h => hours h <? now - last
        | None => false
        end).
Proof.
  intros H. unfold search_is_due.
  change 2 with (Z.of_nat (length rules_old)).
  change 7 with (Z.of_nat (length rules_new)) at 3.
  rewrite !rule_holds_table by exact H.
  destruct (Z.ltb_spec 7 d) as [Old|New].
  - replace (d <=? 7) with false by lia. simpl.
    destruct (match nth_error rules_old (Z.to_nat sc) with
              | Some h => hours h <? now - last | None => false end); reflexivity.
  - replace (d <=? 7) with true by lia. reflexivity.
Qed.

Lemma search_is_due_reads_the_table_witness :
  search_is_due 3 3 (hours 5) (Ok 0) = Ok true.
Proof.
  rewrite (search_is_due_reads_the_table 3 3 (hours 5) 0); [reflexivity | lia].
Defined.

(** *** The loop of [_main] *)

(** X27.  The search stops at the first due episode whose show or episode
    object is not found or whose download raises: the rows after it are
    never looked at. *)
Theorem first_failure_ends_the_search (E : Env) (pre post : list EpisodeRow)
    (r : EpisodeRow) :
  isfile E (location r) = true ->
  search_is_due (airdate_daydiff r) (searchcount r) (now E)
    (strptime E (lastsearch r)) = Ok true ->
  (find_show_by_id E (tv_id r) (prod_id r) = None
   \/ (exists sh, find_show_by_id E (tv_id r) (prod_id r) = Some sh
         /\ get_episode E sh (season r) (episode r) = None)
   \/ (exists sh ep e, find_show_by_id E (tv_id r) (prod_id r) = Some sh
         /\ get_episode E sh (season r) (episode r) = Some ep
         /\ download_subtitles E ep = Raise e)) ->
  main_loop E (pre ++ r :: post) = main_loop E (pre ++ [r]).
Proof.
  intros F D Stop. induction pre as [|a pre IH].
  - simpl. rewrite F, D. simpl.
    destruct Stop as [S|[(sh & S & G)|(sh & ep & e & S & G & Dl)]]; rewrite S.
    + reflexivity.
    + rewrite G. reflexivity.
    + rewrite G, Dl. reflexivity.
  - simpl. rewrite IH. reflexivity.
Qed.

Lemma first_failure_ends_the_search_witness :
  main_loop (finder_env [])
    ([episode_row 1 0 "2020"] ++ episode_row 3 0 "2020" :: [episode_row 4 0 "2020"])
  = ([1%nat; 3%nat], Ok tt).
Proof.
  rewrite (first_failure_ends_the_search (finder_env []) [episode_row 1 0 "2020"]
             [episode_row 4 0 "2020"] (episode_row 3 0 "2020")).
  - reflexivity.
  - reflexivity.
  - reflexivity.
  - right. right. exists 1%nat, 3%nat, RuntimeError. repeat split.
Defined.

(** X28.  A download is only attempted for the episode of a row whose
    file exists and whose rule is due. *)
Theorem downloads_only_for_due_episodes (E : Env) (rows : list EpisodeRow) (ep : nat) :
  In ep (fst (main_loop E rows)) ->
  exists r sh, In r rows
    /\ isfile E (location r) = true
    /\ search_is_due (airdate_daydiff r) (searchcount r) (now E)
         (strptime E (lastsearch r)) = Ok true
    /\ find_show_by_id E (tv_id r) (prod_id r) = Some sh
    /\ get_episode E sh (season r) (episode r) = Some ep.
Proof.
  induction rows as [|a rows IH]; simpl; [intros []|].
  assert (Later : In ep (fst (main_loop E rows)) ->
                  exists r sh, (a = r \/ In r rows)
    /\ isfile E (location r) = true
    /\ search_is_due (airdate_daydiff r) (searchcount r) (now E)
         (strptime E (lastsearch r)) = Ok true
    /\ find_show_by_id E (tv_id r) (prod_id r) = Some sh
    /\ get_episode E sh (season r) (episode r) = Some ep).
  { intros I. destruct (IH I) as (r & sh & In_r & Rest). exists r, sh. auto. }
  destruct (isfile E (location a)) eqn:F; simpl; [|exact Later].
  destruct (search_is_due _ _ _ _) as [[|]|e] eqn:D; simpl; [|exact Later|intros []].
  destruct (find_show_by_id E (tv_id a) (prod_id a)) as [sh|] eqn:S; simpl; [|intros []].
  destruct (get_episode E sh (season a) (episode a)) as [ep'|] eqn:G; simpl; [|intros []].
  assert (Here : ep' = ep -> exists r sh, (a = r \/ In r rows)
    /\ isfile E (location r) = true
    /\ search_is_due (airdate_daydiff r) (searchcount r) (now E)
         (strptime E (lastsearch r)) = Ok true
    /\ find_show_by_id E (tv_id r) (prod_id r) = Some sh
    /\ get_episode E sh (season r) (episode r) = Some ep).
  { intros <-. exists a, sh. auto. }
  destruct (download_subtitles E ep') as [u|e]; simpl.
  - intros [Q|I]; [exact (Here Q) | exact (Later I)].
  - intros [Q|[]]. exact (Here Q).
Qed.

Lemma downloads_only_for_due_episodes_witness :
  exists r sh, In r [episode_row 1 0 "2020"; episode_row 4 9 "2020"]
    /\ isfile (finder_env []) (location r) = true
    /\ search_is_due (airdate_daydiff r) (searchcount r) (now (finder_env []))
         (strptime (finder_env []) (lastsearch r)) = Ok true
    /\ find_show_by_id (finder_env []) (tv_id r) (prod_id r) = Some sh
    /\ get_episode (finder_env []) sh (season r) (episode r) = Some 1%nat.
Proof.
  apply (downloads_only_for_due_episodes (finder_env [])
           [episode_row 1 0 "2020"; episode_row 4 9 "2020"] 1%nat).
  simpl. left. reflexivity.
Defined.

(** X29.  When the rule of no row raises and every due episode is found
    and downloads, the loop returns normally and has tried every due
    episode. *)
Theorem every_due_episode_is_tried (E : Env) (rows : list EpisodeRow) :
  (forall r, In r rows -> isfile E (location r) = true ->
     exists b, search_is_due (airdate_daydiff r) (searchcount r) (now E)
                 (strptime E (lastsearch r)) = Ok b) ->
  (forall r, In r rows -> isfile E (location r) = true ->
     search_is_due (airdate_daydiff r) (searchcount r) (now E)
       (strptime E (lastsearch r)) = Ok true ->
     exists sh ep, find_show_by_id E (tv_id r) (prod_id r) = Some sh
       /\ get_episode E sh (season r) (episode r) = Some ep
       /\ download_subtitles E ep = Ok tt) ->
  snd (main_loop E rows) = Ok tt
  /\ forall r sh ep, In r rows -> isfile E (location r) = true ->
       search_is_due (airdate_daydiff r) (searchcount r) (now E)
         (strptime E (lastsearch r)) = Ok true ->
       find_show_by_id E (tv_id r) (prod_id r) = Some sh ->
       get_episode E sh (season r) (episode r) = Some ep ->
       In ep (fst (main_loop E rows)).
Proof.
  induction rows as [|a rows IH]; intros Total Found.
  - split; [reflexivity | intros r sh ep []].
  - destruct IH as [Ret Tried].
    { intros r I. apply Total. right. exact I. }
    { intros r I. apply Found. right. exact I. }
    simpl. destruct (isfile E (location a)) eqn:F; simpl.
    + destruct (Total a (or_introl eq_refl) F) as (b & D). rewrite D.
      destruct b.
      * destruct (Found a (or_introl eq_refl) F D) as (sh & ep & S & G & Dl).
        rewrite S, G, Dl. simpl. split; [exact Ret|].
        intros r sh' ep' [<-|I] Fr Dr Sr Gr.
        -- left. congruence.
        -- right. exact (Tried r sh' ep' I Fr Dr Sr Gr).
      * split; [exact Ret|].
        intros r sh' ep' [<-|I] Fr Dr Sr Gr; [congruence|].
        exact (Tried r sh' ep' I Fr Dr Sr Gr).
    + split; [exact Ret|].
      intros r sh' ep' [<-|I] Fr Dr Sr Gr; [congruence|].
      exact (Tried r sh' ep' I Fr Dr Sr Gr).
Qed.

Lemma every_due_episode_is_tried_witness :
  snd (main_loop (finder_env []) [episode_row 1 0 "2020"; episode_row 4 9 "2020"]) = Ok tt
  /\ In 1%nat (fst (main_loop (finder_env [])
                      [episode_row 1 0 "2020"; episode_row 4 9 "2020"])).
Proof.
  destruct (every_due_episode_is_tried (finder_env [])
              [episode_row 1 0 "2020"; episode_row 4 9 "2020"]) as [Ret Tried].
  - intros r [<-|[<-|[]]] _; eexists; reflexivity.
  - intros r [<-|[<-|[]]] _ D; [|discriminate D].
    exists 1%nat, 1%nat. repeat split.
  - split; [exact Ret|].
    apply (Tried (episode_row 1 0 "2020") 1%nat 1%nat);
      [left; reflexivity | reflexivity ..].
Defined.

(** *** [run] and the scheduler *)

(** X30.  When [_main] raises, [run] leaves the finder marked active: the
    scheduler then refuses every forced run, also while subtitles are
    switched off, until a later [run] returns normally. *)
Theorem crashed_search_blocks_forced_runs (E : Env) (self : SubtitlesFinder) (e : exn) :
  USE_SUBTITLES E = true ->
  snd (_main E) = Raise e ->
  (forall s E', Sched.force_run s (as_action E' (fst (fst (run E self)))) = (s, false))
  /\ (forall E2 s E', USE_SUBTITLES E2 = false ->
        Sched.force_run s (as_action E' (fst (fst (run E2 (fst (fst (run E self)))))))
        = (s, false))
  /\ (forall E2 s E', USE_SUBTITLES E2 = true -> snd (_main E2) = Ok tt ->
        Sched.force_run s (as_action E' (fst (fst (run E2 (fst (fst (run E self)))))))
        = (Sched.set_force s true, true)).
Proof.
  intros On Crash.
  assert (A : fst (fst (run E self)) = {| amActive := true |}).
  { unfold run. rewrite On. destruct (_main E) as [tr [u|e']]; simpl in *;
      [discriminate | reflexivity]. }
  rewrite A. repeat split.
  - intros E2 s E' Off. unfold run. rewrite Off. reflexivity.
  - intros E2 s E' On2 Ret. unfold run. rewrite On2.
    destruct (_main E2) as [tr [u|e']]; simpl in *; [reflexivity | discriminate].
Qed.

Lemma crashed_search_blocks_forced_runs_witness :
  Sched.force_run SchedExamples.ten_minutes
    (as_action switched_off
       (fst (fst (run (finder_env [episode_row 1 0 "never"]) {| amActive := false |}))))
  = (SchedExamples.ten_minutes, false).
Proof.
  apply (crashed_search_blocks_forced_runs (finder_env [episode_row 1 0 "never"])
           {| amActive := false |} ValueError); reflexivity.
Defined.

End SubtitlesMore.
